(** * shareholder_agent_dify: the row pipeline of the shareholder-agreement
    analyser, embedded in Rocq.

    The program reads a Word document paragraph by paragraph, cleans it up
    ([read_word_doc]), and for every row of a spreadsheet posts one request
    to a remote workflow ([process_excel_row]); the answers are collected in
    four extra columns of a copy of the spreadsheet ([main]).

    Python values are embedded as follows.
    - A [str] is the list of its Unicode code points ([pystr]); literals are
      written as UTF-8 text and decoded by [utf8].
    - A value the program handles without looking inside it (a spreadsheet
      cell, a decoded JSON value) is a [pyval].
    - A [dict] is an association list in insertion order.
    - An exception is its class name together with [str(e)].
    - Statements that log or talk to the network append to a trace. *)

From Stdlib Require Import Ascii String.
From Stdlib Require Import List NArith ZArith Lia Bool.
Import ListNotations.

Set Implicit Arguments.

(** ** Text *)

Module Text.

Definition char := N.
Definition pystr := list char.

Definition char_eqb (a b : char) : bool := N.eqb a b.

Fixpoint str_eqb (s t : pystr) : bool :=
  match s, t with
  | [], [] => true
  | a :: s', b :: t' => char_eqb a b && str_eqb s' t'
  | _, _ => false
  end.

(** *** UTF-8 literals *)

Definition byte_val (a : ascii) : N := N_of_ascii a.

(** Payload of a continuation byte [10xxxxxx]. *)
Definition cont (a : ascii) : N := byte_val a mod 64.

(** Decoder for the source literals: every literal of the program is valid
    UTF-8, so malformed input is not given a meaning beyond "keep the byte". *)
Fixpoint utf8 (s : string) : pystr :=
  match s with
  | EmptyString => []
  | String b0 r0 =>
    let v0 := byte_val b0 in
    if v0 <? 128 then v0 :: utf8 r0
    else if v0 <? 224 then
      match r0 with
      | String b1 r1 => ((v0 mod 32) * 64 + cont b1) :: utf8 r1
      | EmptyString => [v0]
      end
    else if v0 <? 240 then
      match r0 with
      | String b1 (String b2 r2) =>
        ((v0 mod 16) * 4096 + cont b1 * 64 + cont b2) :: utf8 r2
      | _ => [v0]
      end
    else
      match r0 with
      | String b1 (String b2 (String b3 r3)) =>
        ((v0 mod 8) * 262144 + cont b1 * 4096 + cont b2 * 64 + cont b3)
          :: utf8 r3
      | _ => [v0]
      end
  end%N.

Definition NL : char := 10%N.
Definition TAB : char := 9%N.
Definition SPACE : char := 32%N.
Definition DOT : char := 46%N.
Definition QUOTE : char := 34%N.
Definition BACKSLASH : char := 92%N.
Definition BACKTICK : char := 96%N.

(** *** [str.strip()]

    Without arguments [strip] removes the characters for which
    [str.isspace] holds: the ASCII controls 9-13 and 28-31, the space, and
    the Unicode separators listed below. *)
Definition isspace (c : char) : bool :=
  (((9 <=? c) && (c <=? 13)) || ((28 <=? c) && (c <=? 32))
  || (c =? 133) || (c =? 160) || (c =? 5760)
  || ((8192 <=? c) && (c <=? 8202))
  || (c =? 8232) || (c =? 8233) || (c =? 8239) || (c =? 8287)
  || (c =? 12288))%N.

Fixpoint lstrip (s : pystr) : pystr :=
  match s with
  | [] => []
  | c :: s' => if isspace c then lstrip s' else s
  end.

(** [rstrip] walks to the end and drops the characters on the way back for
    as long as everything behind them was dropped. *)
Fixpoint rstrip (s : pystr) : pystr :=
  match s with
  | [] => []
  | c :: s' =>
    match rstrip s' with
    | [] => if isspace c then [] else [c]
    | t => c :: t
    end
  end.

Definition strip (s : pystr) : pystr := rstrip (lstrip s).

(** *** Substrings *)

Fixpoint startswith (pat s : pystr) : bool :=
  match pat, s with
  | [], _ => true
  | p :: pat', c :: s' => char_eqb p c && startswith pat' s'
  | _ :: _, [] => false
  end.

(** [str.find]: index of the leftmost occurrence. *)
Fixpoint find (pat s : pystr) : option nat :=
  if startswith pat s then Some 0
  else match s with
       | [] => None
       | _ :: s' => option_map S (find pat s')
       end.

Definition contains (pat s : pystr) : bool :=
  match find pat s with Some _ => true | None => false end.

(** [str.replace(old, new)]: occurrences are replaced from left to right
    and do not overlap; [skip] counts the characters of an occurrence that
    are still to be passed over.  For an empty [old] Python inserts [new]
    around every character. *)
Fixpoint replace_from (old new : pystr) (skip : nat) (s : pystr) : pystr :=
  match s with
  | [] => []
  | c :: s' =>
    match skip with
    | S k => replace_from old new k s'
    | O =>
      if startswith old s
      then new ++ replace_from old new (length old - 1) s'
      else c :: replace_from old new 0 s'
    end
  end.

Definition replace (old new s : pystr) : pystr :=
  match old with
  | [] => new ++ flat_map (fun c => c :: new) s
  | _ :: _ => replace_from old new 0 s
  end.

(** [''.join(parts)] *)
Definition join (parts : list pystr) : pystr := concat parts.

(** The lines of a text, each without its terminator; a text that does not
    end in a terminator has a last, unterminated line. *)
Fixpoint lines_from (cur : pystr) (s : pystr) : list pystr :=
  match s with
  | [] => match cur with [] => [] | _ => [rev cur] end
  | c :: s' =>
    if char_eqb c NL then rev cur :: lines_from [] s'
    else lines_from (c :: cur) s'
  end.

Definition splitlines (s : pystr) : list pystr := lines_from [] s.

(** *** Decimal numerals, for [str(int)] and error positions *)

Definition digit (d : N) : char := (48 + d)%N.

Fixpoint decimal_pos (fuel : nat) (n : N) (acc : pystr) : pystr :=
  match fuel with
  | O => acc
  | S f =>
    let acc' := digit (n mod 10) :: acc in
    if (n <? 10)%N then acc' else decimal_pos f (n / 10)%N acc'
  end.

(** A number below [2^k] has at most [k] decimal digits, so the size of
    the binary representation is fuel enough. *)
Definition decimal (n : N) : pystr := decimal_pos (S (N.to_nat (N.size n))) n [].

Definition decimal_Z (z : Z) : pystr :=
  match z with
  | Z0 => [digit 0]
  | Zpos p => decimal (Npos p)
  | Zneg p => 45%N :: decimal (Npos p)
  end.

End Text.

(** ** DocumentNormalizer: [read_word_doc] *)

Module Normalizer.
Import Text.

(** [page_num_re = re.compile(r'第[一二三四五六七八九十]+条')] *)
Definition DI : char := Eval vm_compute in hd 0%N (utf8 "第").
Definition TIAO : char := Eval vm_compute in hd 0%N (utf8 "条").
Definition numerals : pystr := Eval vm_compute in utf8 "一二三四五六七八九十".

Definition is_numeral (c : char) : bool := existsb (char_eqb c) numerals.

Fixpoint skip_numerals (s : pystr) : pystr :=
  match s with
  | [] => []
  | c :: s' => if is_numeral c then skip_numerals s' else s
  end.

(** [page_num_re.match(text)]: the pattern is anchored at the start only.
    The greedy [+] takes every numeral; giving one back can never help,
    because the character that must follow is not a numeral. *)
Definition page_num_match (text : pystr) : bool :=
  match text with
  | c0 :: c1 :: r =>
    char_eqb c0 DI && is_numeral c1 &&
    match skip_numerals r with
    | c :: _ => char_eqb c TIAO
    | [] => false
    end
  | _ => false
  end.

(** [dots_re = re.compile(r'\.{4,}')], used with [search]. *)
Definition four_dots : pystr := [DOT; DOT; DOT; DOT].
Definition dots_search (text : pystr) : bool := contains four_dots text.

(** [full_text[-1]], guarded by [full_text] being non-empty. *)
Definition ends_with_blank (full_text : list pystr) : bool :=
  match full_text with
  | [] => false
  | _ :: _ => str_eqb (last full_text []) [NL]
  end.

(** The [for para in doc.paragraphs] loop; [full_text] is the list being
    appended to. *)
Fixpoint paragraphs_loop (paras : list pystr) (full_text : list pystr)
  : list pystr :=
  match paras with
  | [] => full_text
  | para :: rest =>
    let text := strip para in
    if page_num_match text || dots_search text then
      paragraphs_loop rest full_text
    else if str_eqb text [] && ends_with_blank full_text then
      paragraphs_loop rest full_text
    else
      paragraphs_loop rest (full_text ++ [replace [TAB] [SPACE] text ++ [NL]])
  end.

(** The body of the [try]: from the paragraph texts to the returned string. *)
Definition clean_text (paras : list pystr) : pystr :=
  replace [NL; NL] [NL] (join (paragraphs_loop paras [])).

(** Reading the normalised text back as a sequence of paragraphs: every
    line terminator ends a paragraph. *)
Definition reparagraph (text : pystr) : list pystr := splitlines text.

End Normalizer.

(** ** Python values and exceptions *)

Module Values.
Import Text.

(** The values the program passes around: spreadsheet cells, the decoded
    response body and what [json.loads] returns.  A float is named by a
    numeral that denotes it (the program does no float arithmetic);
    [PObject] stands for any value of another class, such as a
    [Timestamp] cell, of which only the class name is ever used. *)
#[warnings="-register-all"]
Inductive pyval : Type :=
| PNone
| PBool (b : bool)
| PInt (z : Z)
| PFloat (numeral : pystr)
| PStr (s : pystr)
| PList (items : list pyval)
| PDict (pairs : list (pystr * pyval))
| PObject (class_name : pystr).

Definition dict := list (pystr * pyval).

(** [type(v).__name__] *)
Definition type_name (v : pyval) : pystr :=
  match v with
  | PNone => utf8 "NoneType"
  | PBool _ => utf8 "bool"
  | PInt _ => utf8 "int"
  | PFloat _ => utf8 "float"
  | PStr _ => utf8 "str"
  | PList _ => utf8 "list"
  | PDict _ => utf8 "dict"
  | PObject c => c
  end.

(** An exception of the [Exception] hierarchy: its class and [str(e)]. *)
Record exn : Type := Exn { exn_class : pystr; exn_str : pystr }.

Definition result (A : Type) : Type := (exn + A)%type.

(** [repr] of a key, as [str(KeyError(key))] shows it.  The keys the
    program looks up are literals without quotes, backslashes or
    unprintable characters, for which [repr] only adds the quotes. *)
Definition repr_key (k : pystr) : pystr := utf8 "'" ++ k ++ utf8 "'".

Definition KeyError (k : pystr) : exn := Exn (utf8 "KeyError") (repr_key k).
Definition TypeError (msg : pystr) : exn := Exn (utf8 "TypeError") msg.
Definition ValueError (msg : pystr) : exn := Exn (utf8 "ValueError") msg.
Definition AttributeError (msg : pystr) : exn :=
  Exn (utf8 "AttributeError") msg.

(** *** [dict] *)

Fixpoint dict_lookup (d : dict) (k : pystr) : option pyval :=
  match d with
  | [] => None
  | (k', v) :: d' => if str_eqb k' k then Some v else dict_lookup d' k
  end.

(** [d[k] = v]: an existing key keeps its place. *)
Fixpoint dict_set (d : dict) (k : pystr) (v : pyval) : dict :=
  match d with
  | [] => [(k, v)]
  | (k', v') :: d' =>
    if str_eqb k' k then (k', v) :: d' else (k', v') :: dict_set d' k v
  end.

(** [dict(pairs)] *)
Definition dict_of_pairs (pairs : list (pystr * pyval)) : dict :=
  fold_left (fun d kv => dict_set d (fst kv) (snd kv)) pairs [].

(** [obj[key]] for a string key. *)
Definition subscript (obj : pyval) (key : pystr) : result pyval :=
  match obj with
  | PDict d =>
    match dict_lookup d key with
    | Some v => inr v
    | None => inl (KeyError key)
    end
  | PList _ =>
    inl (TypeError (utf8 "list indices must be integers or slices, not str"))
  | PStr _ =>
    inl (TypeError (utf8 "string indices must be integers, not 'str'"))
  | _ =>
    inl (TypeError (utf8 "'" ++ type_name obj
                      ++ utf8 "' object is not subscriptable"))
  end.

(** [obj.get(key, default)]: only a [dict] has the method. *)
Definition method_get (obj : pyval) (key : pystr) (default : pyval)
  : result pyval :=
  match obj with
  | PDict d =>
    match dict_lookup d key with
    | Some v => inr v
    | None => inr default
    end
  | _ =>
    inl (AttributeError (utf8 "'" ++ type_name obj
                           ++ utf8 "' object has no attribute 'get'"))
  end.

Definition is_str (v : pyval) : bool :=
  match v with PStr _ => true | _ => false end.

End Values.

(** ** [json.dumps(obj, ensure_ascii=False, indent=2)] *)

Module JsonEncode.
Import Text Values.

Definition hex_digit (d : N) : char :=
  if (d <? 10)%N then (48 + d)%N else (87 + d)%N.

(** With [ensure_ascii=False] only the quote, the backslash and the
    control characters below U+0020 are escaped; every other character,
    ASCII or not, is written as it is. *)
Definition escape_char (c : char) : pystr :=
  if char_eqb c QUOTE then [BACKSLASH; QUOTE]
  else if char_eqb c BACKSLASH then [BACKSLASH; BACKSLASH]
  else if char_eqb c 10%N then utf8 "\n"
  else if char_eqb c 13%N then utf8 "\r"
  else if char_eqb c 9%N then utf8 "\t"
  else if char_eqb c 8%N then utf8 "\b"
  else if char_eqb c 12%N then utf8 "\f"
  else if (c <? 32)%N then
    utf8 "\u00" ++ [hex_digit (c / 16)%N; hex_digit (c mod 16)%N]
  else [c].

Definition encode_basestring (s : pystr) : pystr :=
  QUOTE :: flat_map escape_char s ++ [QUOTE].

(** ['\n' + ' ' * (indent * level)] *)
Definition newline_indent (indent level : nat) : pystr :=
  NL :: repeat SPACE (indent * level).

(** Items are joined by [',' + newline_indent] and closed one level up. *)
Fixpoint join_items (sep : pystr) (items : list pystr) : pystr :=
  match items with
  | [] => []
  | [x] => x
  | x :: rest => x ++ sep ++ join_items sep rest
  end.

Fixpoint sequence (rs : list (result pystr)) : result (list pystr) :=
  match rs with
  | [] => inr []
  | inl e :: _ => inl e
  | inr x :: rest =>
    match sequence rest with
    | inl e => inl e
    | inr xs => inr (x :: xs)
    end
  end.

Definition not_serializable (v : pyval) : exn :=
  TypeError (utf8 "Object of type " ++ type_name v
               ++ utf8 " is not JSON serializable").

(** The encoder at nesting depth [level] (the depth of the value's own
    items is [level + 1]). *)
Fixpoint iterencode (indent level : nat) (v : pyval) : result pystr :=
  match v with
  | PNone => inr (utf8 "null")
  | PBool true => inr (utf8 "true")
  | PBool false => inr (utf8 "false")
  | PInt z => inr (decimal_Z z)
  | PFloat numeral => inr numeral
  | PStr s => inr (encode_basestring s)
  | PList [] => inr (utf8 "[]")
  | PList items =>
    match sequence (map (iterencode indent (S level)) items) with
    | inl e => inl e
    | inr texts =>
      inr (utf8 "[" ++ newline_indent indent (S level)
             ++ join_items (utf8 "," ++ newline_indent indent (S level)) texts
             ++ newline_indent indent level ++ utf8 "]")
    end
  | PDict [] => inr (utf8 "{}")
  | PDict pairs =>
    match sequence
            (map (fun kv =>
                    match iterencode indent (S level) (snd kv) with
                    | inl e => inl e
                    | inr t => inr (encode_basestring (fst kv) ++ utf8 ": " ++ t)
                    end) pairs) with
    | inl e => inl e
    | inr texts =>
      inr (utf8 "{" ++ newline_indent indent (S level)
             ++ join_items (utf8 "," ++ newline_indent indent (S level)) texts
             ++ newline_indent indent level ++ utf8 "}")
    end
  | PObject _ => inl (not_serializable v)
  end.

Definition dumps (v : pyval) : result pystr := iterencode 2 0 v.

End JsonEncode.

(** ** [json.loads]

    The decoder follows CPython's [json.decoder] and its C scanner (as of
    3.12): a recursive descent over the text, with the position carried
    along for the error messages. *)

Module JsonDecode.
Import Text Values.

Definition ch (a : ascii) : char := N_of_ascii a.

(** What scanning a prefix of the text gives: a value with the position
    and text after it, a [JSONDecodeError] in the making, or no answer
    within the number of calls allowed. *)
Inductive scan (A : Type) : Type :=
| Scanned (a : A) (pos : nat) (rest : pystr)
| Failed (msg : pystr) (pos : nat)
| Exhausted.
Arguments Scanned {A} a pos rest.
Arguments Failed {A} msg pos.
Arguments Exhausted {A}.

(** [WHITESPACE = re.compile(r'[ \t\n\r]*')] *)
Definition is_ws (c : char) : bool :=
  char_eqb c 32%N || char_eqb c 9%N || char_eqb c 10%N || char_eqb c 13%N.

Fixpoint skip_ws (pos : nat) (s : pystr) : nat * pystr :=
  match s with
  | c :: s' => if is_ws c then skip_ws (S pos) s' else (pos, s)
  | [] => (pos, [])
  end.

Definition is_digit (c : char) : bool := ((48 <=? c) && (c <=? 57))%N.

Definition hex_val (c : char) : option N :=
  if ((48 <=? c) && (c <=? 57))%N then Some (c - 48)%N
  else if ((97 <=? c) && (c <=? 102))%N then Some (c - 87)%N
  else if ((65 <=? c) && (c <=? 70))%N then Some (c - 55)%N
  else None.

Definition hex4 (a b c d : char) : option N :=
  match hex_val a, hex_val b, hex_val c, hex_val d with
  | Some x, Some y, Some z, Some w => Some (x * 4096 + y * 256 + z * 16 + w)%N
  | _, _, _, _ => None
  end.

Definition is_high_surrogate (u : N) : bool := ((55296 <=? u) && (u <=? 56319))%N.
Definition is_low_surrogate (u : N) : bool := ((56320 <=? u) && (u <=? 57343))%N.
Definition join_surrogates (hi lo : N) : N :=
  (65536 + (hi - 55296) * 1024 + (lo - 56320))%N.

(** The single-character escapes of [BACKSLASH]. *)
Definition simple_escape (c : char) : option char :=
  if char_eqb c QUOTE then Some QUOTE
  else if char_eqb c BACKSLASH then Some BACKSLASH
  else if char_eqb c (ch "/") then Some (ch "/")
  else if char_eqb c (ch "b") then Some 8%N
  else if char_eqb c (ch "f") then Some 12%N
  else if char_eqb c (ch "n") then Some 10%N
  else if char_eqb c (ch "r") then Some 13%N
  else if char_eqb c (ch "t") then Some 9%N
  else None.

Definition msg_unterminated : pystr := utf8 "Unterminated string starting at".
Definition msg_control : pystr := utf8 "Invalid control character at".
Definition msg_escape : pystr := utf8 "Invalid \escape".
Definition msg_uescape : pystr := utf8 "Invalid \uXXXX escape".
Definition msg_value : pystr := utf8 "Expecting value".
Definition msg_name : pystr :=
  utf8 "Expecting property name enclosed in double quotes".
Definition msg_colon : pystr := utf8 "Expecting ':' delimiter".
Definition msg_comma : pystr := utf8 "Expecting ',' delimiter".
Definition msg_extra : pystr := utf8 "Extra data".
Definition msg_bom : pystr :=
  utf8 "Unexpected UTF-8 BOM (decode using utf-8-sig)".

(** [scanstring(s, end, strict=True)], entered after the opening quote,
    which is at [begin]; [acc] holds the characters read so far, last
    first. *)
Fixpoint scanstring (begin pos : nat) (acc : pystr) (s : pystr)
  : scan pystr :=
  match s with
  | [] => Failed msg_unterminated begin
  | c :: r =>
    if char_eqb c QUOTE then Scanned (rev acc) (S pos) r
    else if char_eqb c BACKSLASH then
      match r with
      | [] => Failed msg_unterminated begin
      | e :: r1 =>
        if char_eqb e (ch "u") then
          match r1 with
          | h1 :: h2 :: h3 :: h4 :: ((_ :: _) as r2) =>
            match hex4 h1 h2 h3 h4 with
            | None => Failed msg_uescape (S pos)
            | Some u =>
              match r2 with
              | b :: u' :: g1 :: g2 :: g3 :: g4 :: ((_ :: _) as r3) =>
                if is_high_surrogate u && char_eqb b BACKSLASH
                   && char_eqb u' (ch "u") then
                  match hex4 g1 g2 g3 g4 with
                  | None => Failed msg_uescape (pos + 7)
                  | Some u2 =>
                    if is_low_surrogate u2
                    then scanstring begin (pos + 12)
                                    (join_surrogates u u2 :: acc) r3
                    else scanstring begin (pos + 6) (u :: acc) r2
                  end
                else scanstring begin (pos + 6) (u :: acc) r2
              | _ => scanstring begin (pos + 6) (u :: acc) r2
              end
            end
          | _ => Failed msg_uescape (S pos)
          end
        else
          match simple_escape e with
          | Some x => scanstring begin (pos + 2) (x :: acc) r1
          | None => Failed msg_escape pos
          end
      end
    else if (c <=? 31)%N then Failed msg_control pos
    else scanstring begin (S pos) (c :: acc) r
  end.

(** *** Numbers: an optional minus, the integer part, an optional
    fraction and an optional exponent *)

Fixpoint take_digits (s : pystr) : pystr * pystr :=
  match s with
  | c :: s' =>
    if is_digit c then let (ds, r) := take_digits s' in (c :: ds, r)
    else ([], s)
  | [] => ([], [])
  end.

Fixpoint digits_value (acc : N) (ds : pystr) : N :=
  match ds with
  | [] => acc
  | d :: ds' => digits_value (acc * 10 + (d - 48))%N ds'
  end.

(** The integer part: a lone [0], or a non-zero digit and more digits. *)
Definition take_integer (s : pystr) : option (pystr * pystr) :=
  match s with
  | c :: s' =>
    if char_eqb c (ch "0") then Some ([c], s')
    else if is_digit c then let (ds, r) := take_digits s' in Some (c :: ds, r)
    else None
  | [] => None
  end.

Definition take_fraction (s : pystr) : pystr * pystr :=
  match s with
  | p :: ((d :: _) as s') =>
    if char_eqb p (ch ".") && is_digit d
    then let (ds, r) := take_digits s' in (p :: ds, r)
    else ([], s)
  | _ => ([], s)
  end.

(** The exponent is read only if at least one digit follows the optional
    sign; otherwise the [e] is left in the text. *)
Definition take_exponent (s : pystr) : pystr * pystr :=
  match s with
  | e :: s' =>
    if char_eqb e (ch "e") || char_eqb e (ch "E") then
      match s' with
      | sg :: s'' =>
        if char_eqb sg (ch "-") || char_eqb sg (ch "+") then
          match take_digits s'' with
          | ([], _) => ([], s)
          | (ds, r) => (e :: sg :: ds, r)
          end
        else
          match take_digits s' with
          | ([], _) => ([], s)
          | (ds, r) => (e :: ds, r)
          end
      | [] => ([], s)
      end
    else ([], s)
  | [] => ([], s)
  end.

Definition match_number (pos : nat) (s : pystr) : scan pyval :=
  let (sign, s0) :=
    match s with
    | c :: s' => if char_eqb c (ch "-") then ([c], s') else ([], s)
    | [] => ([], s)
    end in
  match take_integer s0 with
  | None => Failed msg_value pos
  | Some (int_part, s1) =>
    let (frac, s2) := take_fraction s1 in
    let (expo, s3) := take_exponent s2 in
    let text := sign ++ int_part ++ frac ++ expo in
    let value :=
      match frac, expo with
      | [], [] =>
        match sign with
        | [] => PInt (Z.of_N (digits_value 0 int_part))
        | _ => PInt (- Z.of_N (digits_value 0 int_part))
        end
      | _, _ => PFloat text
      end in
    Scanned value (pos + length text) s3
  end.

(** A keyword at the start of the text. *)
Definition keyword (word : string) (v : pyval) (pos : nat) (s : pystr)
  : option (scan pyval) :=
  let w := utf8 word in
  if startswith w s then Some (Scanned v (pos + length w) (skipn (length w) s))
  else None.

Definition orelse {A} (x : option A) (y : A) : A :=
  match x with Some a => a | None => y end.

(** The scalars of [scan_once]: everything but strings, objects and
    arrays. *)
Definition scan_scalar (pos : nat) (s : pystr) : scan pyval :=
  orelse (keyword "null" PNone pos s)
  (orelse (keyword "true" (PBool true) pos s)
  (orelse (keyword "false" (PBool false) pos s)
  (orelse (keyword "NaN" (PFloat (utf8 "NaN")) pos s)
  (orelse (keyword "Infinity" (PFloat (utf8 "Infinity")) pos s)
  (orelse (keyword "-Infinity" (PFloat (utf8 "-Infinity")) pos s)
  (match_number pos s)))))).

(** *** Values

    [scan_once] dispatches on the first character; [object_loop] is the
    [while] loop of [JSONObject], entered after the opening quote of a key
    (which is at [qpos]); [array_loop] is the loop of [JSONArray], entered
    at the start of an item.  Both collect what they read last first.
    Every call spends one unit of [fuel]. *)
Fixpoint scan_once (fuel : nat) (pos : nat) (s : pystr) {struct fuel}
  : scan pyval :=
  match fuel with
  | O => Exhausted
  | S f =>
    match s with
    | [] => Failed msg_value pos
    | c :: r =>
      if char_eqb c QUOTE then
        match scanstring pos (S pos) [] r with
        | Scanned str p r' => Scanned (PStr str) p r'
        | Failed m p => Failed m p
        | Exhausted => Exhausted
        end
      else if char_eqb c (ch "{") then
        let (p1, r1) := skip_ws (S pos) r in
        match r1 with
        | c1 :: r2 =>
          if char_eqb c1 (ch "}") then Scanned (PDict []) (S p1) r2
          else if char_eqb c1 QUOTE then object_loop f p1 r2 []
          else Failed msg_name p1
        | [] => Failed msg_name p1
        end
      else if char_eqb c (ch "[") then
        let (p1, r1) := skip_ws (S pos) r in
        match r1 with
        | c1 :: r2 =>
          if char_eqb c1 (ch "]") then Scanned (PList []) (S p1) r2
          else array_loop f p1 r1 []
        | [] => Failed msg_value p1
        end
      else scan_scalar pos s
    end
  end

with object_loop (fuel : nat) (qpos : nat) (s : pystr)
                 (pairs : list (pystr * pyval)) {struct fuel} : scan pyval :=
  match fuel with
  | O => Exhausted
  | S f =>
    match scanstring qpos (S qpos) [] s with
    | Failed m p => Failed m p
    | Exhausted => Exhausted
    | Scanned key p r =>
      let (p1, r1) := skip_ws p r in
      match r1 with
      | c :: r2 =>
        if char_eqb c (ch ":") then
          let (p2, r3) := skip_ws (S p1) r2 in
          match scan_once f p2 r3 with
          | Failed m p' => Failed m p'
          | Exhausted => Exhausted
          | Scanned v p3 r4 =>
            let (p4, r5) := skip_ws p3 r4 in
            match r5 with
            | c2 :: r6 =>
              if char_eqb c2 (ch "}") then
                Scanned (PDict (dict_of_pairs (rev ((key, v) :: pairs))))
                        (S p4) r6
              else if char_eqb c2 (ch ",") then
                let (p5, r7) := skip_ws (S p4) r6 in
                match r7 with
                | c3 :: r8 =>
                  if char_eqb c3 QUOTE
                  then object_loop f p5 r8 ((key, v) :: pairs)
                  else Failed msg_name p5
                | [] => Failed msg_name p5
                end
              else Failed msg_comma p4
            | [] => Failed msg_comma p4
            end
          end
        else Failed msg_colon p1
      | [] => Failed msg_colon p1
      end
    end
  end

with array_loop (fuel : nat) (pos : nat) (s : pystr) (values : list pyval)
                {struct fuel} : scan pyval :=
  match fuel with
  | O => Exhausted
  | S f =>
    match scan_once f pos s with
    | Failed m p => Failed m p
    | Exhausted => Exhausted
    | Scanned v p r =>
      let (p1, r1) := skip_ws p r in
      match r1 with
      | c :: r2 =>
        if char_eqb c (ch "]") then
          Scanned (PList (rev (v :: values))) (S p1) r2
        else if char_eqb c (ch ",") then
          let (p2, r3) := skip_ws (S p1) r2 in
          array_loop f p2 r3 (v :: values)
        else Failed msg_comma p1
      | [] => Failed msg_comma p1
      end
    end
  end.

(** [str(JSONDecodeError(msg, doc, pos))]: the message followed by the
    line, the column and the offset of [pos]. *)
Definition lineno (doc : pystr) (pos : nat) : nat :=
  S (count_occ N.eq_dec (firstn pos doc) NL).

Fixpoint chars_after_last_nl (s : pystr) (n : nat) : nat :=
  match s with
  | [] => n
  | c :: s' => chars_after_last_nl s' (if char_eqb c NL then 0 else S n)
  end.

Definition colno (doc : pystr) (pos : nat) : nat :=
  S (chars_after_last_nl (firstn pos doc) 0).

Definition JSONDecodeError (msg doc : pystr) (pos : nat) : exn :=
  Exn (utf8 "JSONDecodeError")
      (msg ++ utf8 ": line " ++ decimal (N.of_nat (lineno doc pos))
           ++ utf8 " column " ++ decimal (N.of_nat (colno doc pos))
           ++ utf8 " (char " ++ decimal (N.of_nat pos) ++ utf8 ")").

Definition RecursionError : exn :=
  Exn (utf8 "RecursionError")
      (utf8 "maximum recursion depth exceeded while decoding a JSON document").

(** Each call of the three scanners is made on a text at least one
    character shorter than two calls before, so this many calls are
    always enough ([loads_fuel_enough] below). *)
Definition fuel_for (s : pystr) : nat := 2 * length s + 2.

Definition BOM : char := 65279%N.

(** [json.loads(s)] for a [str].  The interpreter's own recursion limit,
    which makes CPython give up on texts nested about a thousand levels
    deep, is not part of the model. *)
Definition loads (s : pystr) : result pyval :=
  if startswith [BOM] s then inl (JSONDecodeError msg_bom s 0)
  else
    let (p0, r0) := skip_ws 0 s in
    match scan_once (fuel_for s) p0 r0 with
    | Scanned v p r =>
      match skip_ws p r with
      | (_, []) => inr v
      | (p1, _ :: _) => inl (JSONDecodeError msg_extra s p1)
      end
    | Failed m p => inl (JSONDecodeError m s p)
    | Exhausted => inl RecursionError
    end.

End JsonDecode.

(** ** The outside world: spreadsheets, the remote service, the log *)

Module World.
Import Text Values.

(** *** pandas

    A [DataFrame] as read by [pd.read_excel]: the column labels and the
    rows, each row holding one cell per column.  The row labels are the
    default [RangeIndex], so a row is addressed by its position. *)
Record DataFrame : Type := { columns : list pystr; rows : list (list pyval) }.

(** The frames pandas builds: as many cells in a row as there are
    columns, and no label twice ([read_excel] renames duplicates). *)
Definition well_formed (df : DataFrame) : Prop :=
  NoDup (columns df) /\ Forall (fun r => length r = length (columns df)) (rows df).

(** A row as [iterrows] yields it: a [Series] labelled by the columns. *)
Record Series : Type := { labels : list pystr; cells : list pyval }.

(** [row[key]] *)
Definition series_get (row : Series) (key : pystr) : result pyval :=
  match dict_lookup (combine (labels row) (cells row)) key with
  | Some v => inr v
  | None => inl (KeyError key)
  end.

(** [df.iterrows()]: the index label and the row, in order. *)
Definition iterrows (df : DataFrame) : list (nat * Series) :=
  combine (seq 0 (length (rows df)))
          (map (fun r => {| labels := columns df; cells := r |}) (rows df)).

Fixpoint index_of (c : pystr) (cols : list pystr) : option nat :=
  match cols with
  | [] => None
  | c' :: cols' =>
    if str_eqb c' c then Some 0 else option_map S (index_of c cols')
  end.

Fixpoint set_nth (n : nat) (v : pyval) (r : list pyval) : list pyval :=
  match r, n with
  | [], _ => []
  | _ :: r', O => v :: r'
  | x :: r', S n' => x :: set_nth n' v r'
  end.

(** [df[col] = v] for a scalar [v]: a column that exists is overwritten
    where it stands, a new one is added on the right. *)
Definition assign_column (df : DataFrame) (col : pystr) (v : pyval)
  : DataFrame :=
  match index_of col (columns df) with
  | Some j => {| columns := columns df; rows := map (set_nth j v) (rows df) |}
  | None => {| columns := columns df ++ [col];
               rows := map (fun r => r ++ [v]) (rows df) |}
  end.

(** [df[[c1, ..., cn]] = v] *)
Definition assign_columns (df : DataFrame) (cols : list pystr) (v : pyval)
  : DataFrame :=
  fold_left (fun d c => assign_column d c v) cols df.

Fixpoint update_row (i : nat) (f : list pyval -> list pyval)
         (rs : list (list pyval)) : list (list pyval) :=
  match rs, i with
  | [], _ => []
  | r :: rs', O => f r :: rs'
  | r :: rs', S i' => r :: update_row i' f rs'
  end.

(** [df.at[idx, col] = v] for a row label that exists; a column that
    does not exist yet is first added, filled with NaN. *)
Definition set_at (df : DataFrame) (idx : nat) (col : pystr) (v : pyval)
  : DataFrame :=
  match index_of col (columns df) with
  | Some j => {| columns := columns df;
                 rows := update_row idx (set_nth j v) (rows df) |}
  | None =>
    {| columns := columns df ++ [col];
       rows := update_row idx (set_nth (length (columns df)) v)
                 (map (fun r => r ++ [PFloat (utf8 "nan")]) (rows df)) |}
  end.

(** *** requests *)

Record Request : Type := {
  req_url : pystr;
  req_headers : list (pystr * pystr);
  req_json : pyval;
  req_timeout : nat
}.

(** What comes back from [requests.post]: an exception (no connection,
    the timeout, ...) or a response with its status line, its [url] and
    its body.  The [url] of a response is the one [requests] reports: the
    address asked for as the library normalised it, or the one a
    redirection led to. *)
Inductive Reply : Type :=
| Raises (e : exn)
| Responds (status : nat) (reason : pystr) (url : pystr) (body : pystr).

(** *** pathlib *)
Record Path : Type := { parent : pystr; stem : pystr; suffix : pystr }.

Definition path_str (p : Path) : pystr :=
  parent p ++ utf8 "/" ++ stem p ++ suffix p.

(** *** logging and the trace of a run *)
Inductive level : Type := INFO | ERROR.

(** A log record keeps the text of the message and, apart, the values
    formatted into it. *)
Inductive event : Type :=
| Log (lvl : level) (msg : pystr) (args : list pyval)
| Post (req : Request)
| ToExcel (path : Path) (df : DataFrame).

Definition is_post (e : event) : bool :=
  match e with Post _ => true | _ => false end.

Definition posts (t : list event) : list Request :=
  flat_map (fun e => match e with Post r => [r] | _ => [] end) t.

(** Everything the program reads from outside.  The service may answer
    the same request differently each time: its reply depends on how
    many requests came before. *)
Record world : Type := {
  path_exists : Path -> bool;
  Document : Path -> result (list pystr);
  read_excel : Path -> result DataFrame;
  server : nat -> Request -> Reply
}.

(** *** Statements with effects: a state monad over the trace *)
Definition M (A : Type) : Type := list event -> A * list event.

Definition ret {A} (a : A) : M A := fun t => (a, t).
Definition bind {A B} (m : M A) (k : A -> M B) : M B :=
  fun t => let (a, t') := m t in k a t'.
Definition emit (e : event) : M unit := fun t => (tt, t ++ [e]).

(** ... and those that may raise. *)
Definition bindE {A B} (m : M (result A)) (k : A -> M (result B))
  : M (result B) :=
  bind m (fun r => match r with inl e => ret (inl e) | inr a => k a end).
Definition lift {A} (r : result A) : M (result A) := ret r.

End World.

Declare Scope py_scope.
Delimit Scope py_scope with py.
Notation "x <- m ;; k" := (World.bind m (fun x => k))
  (at level 61, m at next level, right associativity) : py_scope.
Notation "m ;; k" := (World.bind m (fun _ => k))
  (at level 61, right associativity) : py_scope.
Notation "x <-? m ;; k" := (World.bindE m (fun x => k))
  (at level 61, m at next level, right associativity) : py_scope.

(** ** The program *)

Module Program.
Import Text Values World.
Local Open Scope py_scope.

Definition K_category : pystr := Eval vm_compute in utf8 "条款类别".
Definition K_content : pystr := Eval vm_compute in utf8 "条款/内容".
Definition K_instructions : pystr := Eval vm_compute in utf8 "填写说明".

Definition K_summary : pystr := Eval vm_compute in utf8 "概括总结".
Definition K_clause_id : pystr := Eval vm_compute in utf8 "条款编号".
Definition K_clause_text : pystr := Eval vm_compute in utf8 "条款原文".
Definition K_error : pystr := Eval vm_compute in utf8 "error".

Definition NOT_EXTRACTED : pystr := Eval vm_compute in utf8 "未提取".
Definition FAILED : pystr := Eval vm_compute in utf8 "处理失败".

Definition output_columns : list pystr :=
  [K_summary; K_clause_id; K_clause_text; K_error].

(** *** [read_word_doc] *)
Definition read_word_doc (w : world) (doc_path : Path) : M (option pystr) :=
  match Document w doc_path with
  | inr paragraphs => ret (Some (Normalizer.clean_text paragraphs))
  | inl e =>
    emit (Log ERROR (utf8 "读取Word文档失败[" ++ path_str doc_path
                       ++ utf8 "]: " ++ exn_str e) []) ;;
    ret None
  end.

(** *** [process_excel_row] *)

(** Lines 95-100: the three cells, looked up in this order, and their
    serialisation. *)
Definition build_query (row : Series) : result pystr :=
  match series_get row K_category with
  | inl e => inl e
  | inr category =>
    match series_get row K_content with
    | inl e => inl e
    | inr content =>
      match series_get row K_instructions with
      | inl e => inl e
      | inr instructions =>
        JsonEncode.dumps (PDict [(K_category, category);
                                 (K_content, content);
                                 (K_instructions, instructions)])
      end
    end
  end.

Definition headers (api_auth : pystr) : list (pystr * pystr) :=
  [(utf8 "Authorization", api_auth);
   (utf8 "Content-Type", utf8 "application/json")].

Definition payload (query_json file_content : pystr) : pyval :=
  PDict [(utf8 "response_mode", PStr (utf8 "blocking"));
         (utf8 "user", PStr (utf8 "haha-shareholder"));
         (utf8 "inputs", PDict [(utf8 "Query", PStr query_json);
                                (utf8 "File", PStr file_content)])].

Definition build_request (query_json file_content api_url api_auth : pystr)
  : Request :=
  {| req_url := api_url;
     req_headers := headers api_auth;
     req_json := payload query_json file_content;
     req_timeout := 600 |}.

Definition HTTPError (status : nat) (reason url : pystr) : exn :=
  Exn (utf8 "HTTPError")
      (decimal (N.of_nat status)
         ++ (if status <? 500 then utf8 " Client Error: "
             else utf8 " Server Error: ")
         ++ reason ++ utf8 " for url: " ++ url).

(** [response.raise_for_status()] followed by [response.json()]; the
    error names [response.url]. *)
Definition decode_reply (r : Reply) : result pyval :=
  match r with
  | Raises e => inl e
  | Responds status reason url body =>
    if (400 <=? status) && (status <? 600)
    then inl (HTTPError status reason url)
    else JsonDecode.loads body
  end.

(** Lines 116-125: the request goes out once; what the service replies
    is looked up by the number of requests sent before this one. *)
Definition post (w : world) (req : Request) : M (result pyval) :=
  fun t =>
    (decode_reply (server w (length (posts t)) req), t ++ [Post req]).

Definition fence_open : pystr := Eval vm_compute in utf8 "```json".
Definition fence_close : pystr := Eval vm_compute in utf8 "```".

(** [re.search(r'```json(.*?)```', answer, re.DOTALL)], giving
    [group(1)]: the search settles on the leftmost opening fence, and the
    lazy group then stops at the first closing fence behind it.  When no
    closing fence follows the leftmost opening one, none follows a later
    one either. *)
Definition search_fence (answer : pystr) : option pystr :=
  match find fence_open answer with
  | None => None
  | Some i =>
    let behind := skipn (i + length fence_open) answer in
    match find fence_close behind with
    | None => None
    | Some j => Some (firstn j behind)
    end
  end.

Definition msg_no_json : pystr := Eval vm_compute in utf8 "未找到有效JSON数据".
Definition no_json_found : exn := ValueError msg_no_json.

Definition not_a_string (v : pyval) : exn :=
  TypeError (utf8 "expected string or bytes-like object, got '"
               ++ type_name v ++ utf8 "'").

(** The [dict] returned on success (lines 142-147). *)
Definition success_record (summary clause_id clause_text : pyval) : dict :=
  [(K_summary, summary); (K_clause_id, clause_id);
   (K_clause_text, clause_text); (K_error, PStr [])].

(** The [dict] returned by the handler (lines 150-155). *)
Definition failure_record (e : exn) : dict :=
  [(K_summary, PStr FAILED); (K_clause_id, PStr FAILED);
   (K_clause_text, PStr FAILED); (K_error, PStr (exn_str e))].

(** Line 136: [result_json['data']['outputs']['Answer']]. *)
Definition answer_field (result_json : pyval) : result pyval :=
  match subscript result_json (utf8 "data") with
  | inl e => inl e
  | inr data =>
    match subscript data (utf8 "outputs") with
    | inl e => inl e
    | inr outputs => subscript outputs (utf8 "Answer")
    end
  end.

(** Lines 141-147: decoding the captured text and reading the three
    keys, each with its default. *)
Definition read_result (group1 : pystr) : result dict :=
  match JsonDecode.loads (strip group1) with
  | inl e => inl e
  | inr parsed =>
    match method_get parsed K_summary (PStr NOT_EXTRACTED) with
    | inl e => inl e
    | inr summary =>
      match method_get parsed K_clause_id (PStr NOT_EXTRACTED) with
      | inl e => inl e
      | inr clause_id =>
        match method_get parsed K_clause_text (PStr NOT_EXTRACTED) with
        | inl e => inl e
        | inr clause_text =>
          inr (success_record summary clause_id clause_text)
        end
      end
    end
  end.

(** Lines 136-147. *)
Definition extract (result_json : pyval) : result dict :=
  match answer_field result_json with
  | inl e => inl e
  | inr (PStr answer) =>
    match search_fence answer with
    | None => inl no_json_found
    | Some group1 => read_result group1
    end
  | inr other => inl (not_a_string other)
  end.

(** The body of the [try]. *)
Definition try_row (w : world) (row : Series)
           (file_content api_url api_auth : pystr) : M (result dict) :=
  query_json <-? lift (build_query row) ;;
  result_json <-? post w (build_request query_json file_content
                                        api_url api_auth) ;;
  lift (extract result_json).

Definition row_failed : pystr := Eval vm_compute in utf8 "处理行数据失败: ".

Definition process_excel_row (w : world) (row : Series)
           (file_content api_url api_auth : pystr) : M dict :=
  r <- try_row w row file_content api_url api_auth ;;
  match r with
  | inr outcome => ret outcome
  | inl e =>
    emit (Log ERROR (row_failed ++ exn_str e) []) ;;
    ret (failure_record e)
  end.

(** *** [main] *)

(** The configuration as [load_config] returns it. *)
Record Config : Type := {
  word_paths : list Path;
  excel_path : Path;
  api_url : pystr;
  api_auth : pystr
}.

Definition processing_row : pystr :=
  Eval vm_compute in utf8 "正在处理第{}行: {}".
Definition excel_failed : pystr := Eval vm_compute in utf8 "处理Excel失败: ".
Definition result_saved : pystr := Eval vm_compute in utf8 "结果文件已保存: ".
Definition word_missing : pystr := Eval vm_compute in utf8 "Word文件不存在: ".

(** Lines 192-193: [result_df.at[idx, col] = result[col]] for the four
    columns in turn. *)
Fixpoint store_result (cols : list pystr) (outcome : dict) (idx : nat)
         (result_df : DataFrame) : result DataFrame :=
  match cols with
  | [] => inr result_df
  | col :: cols' =>
    match dict_lookup outcome col with
    | None => inl (KeyError col)
    | Some v => store_result cols' outcome idx (set_at result_df idx col v)
    end
  end.

(** Lines 182-193: the loop over the rows.  The first statement of the
    body formats [row['条款/内容']] into a log message; it stands outside the
    [try] of [process_excel_row], so what it raises leaves the loop. *)
Fixpoint rows_loop (w : world) (cfg : Config) (file_content : pystr)
         (remaining : list (nat * Series)) (result_df : DataFrame)
  : M (result DataFrame) :=
  match remaining with
  | [] => ret (inr result_df)
  | (idx, row) :: rest =>
    match series_get row K_content with
    | inl e => ret (inl e)
    | inr content =>
      emit (Log INFO processing_row [PInt (Z.of_nat idx + 1); content]) ;;
      outcome <- process_excel_row w row file_content
                                   (api_url cfg) (api_auth cfg) ;;
      match store_result output_columns outcome idx result_df with
      | inl e => ret (inl e)
      | inr result_df' => rows_loop w cfg file_content rest result_df'
      end
    end
  end.

(** [word_path.parent / f"{word_path.stem}_result.xlsx"] *)
Definition output_path (word_path : Path) : Path :=
  {| parent := parent word_path;
     stem := stem word_path ++ utf8 "_result";
     suffix := utf8 ".xlsx" |}.

(** Lines 174-201: the [try] around one document's spreadsheet, with its
    handler.  Writing the file itself is left to [to_excel]. *)
Definition process_table (w : world) (cfg : Config) (word_path : Path)
           (file_content : pystr) : M unit :=
  match read_excel w (excel_path cfg) with
  | inl e => emit (Log ERROR (excel_failed ++ exn_str e) [])
  | inr df =>
    let result_df := assign_columns df output_columns (PStr []) in
    r <- rows_loop w cfg file_content (iterrows df) result_df ;;
    match r with
    | inl e => emit (Log ERROR (excel_failed ++ exn_str e) [])
    | inr final =>
      emit (ToExcel (output_path word_path) final) ;;
      emit (Log INFO (result_saved ++ path_str (output_path word_path)) [])
    end
  end.

(** Lines 163-201: the loop over the documents. *)
Fixpoint documents_loop (w : world) (cfg : Config) (paths : list Path)
  : M unit :=
  match paths with
  | [] => ret tt
  | word_path :: rest =>
    if negb (path_exists w word_path) then
      emit (Log ERROR (word_missing ++ path_str word_path) []) ;;
      documents_loop w cfg rest
    else
      file_content <- read_word_doc w word_path ;;
      match file_content with
      | None | Some [] => documents_loop w cfg rest
      | Some text =>
        process_table w cfg word_path text ;;
        documents_loop w cfg rest
      end
  end.

Definition main (w : world) (cfg : Config) : M unit :=
  documents_loop w cfg (word_paths cfg).

(** The spreadsheets a run has written, in order. *)
Definition written (t : list event) : list (Path * DataFrame) :=
  flat_map (fun e => match e with ToExcel p df => [(p, df)] | _ => [] end) t.

(** The result of a statement started on an empty trace. *)
Definition run {A} (m : M A) : A * list event := m [].

End Program.

(** * Notions used to state the properties *)

Module Notions.
Import Text.
(** [pat] occurs in [s] at offset [i]. *)
Definition occurs_at (pat s : pystr) (i : nat) : Prop :=
  exists pre post, s = pre ++ pat ++ post /\ length pre = i.
(** ... and nowhere before. *)
Definition first_at (pat s : pystr) (i : nat) : Prop :=
  occurs_at pat s i /\ forall j, occurs_at pat s j -> i <= j.
Definition occurs (pat s : pystr) : Prop := exists i, occurs_at pat s i.
End Notions.

Module NormNotions.
Import Text Normalizer Notions.

Definition tab_to_space (c : char) : char := if char_eqb c TAB then SPACE else c.
Definition add_nl (l : pystr) : pystr := l ++ [NL].
(** The text made of the given lines, each followed by its terminator. *)
Definition terminated (ls : list pystr) : pystr := concat (map add_nl ls).
Definition blank (t : pystr) : bool := match t with [] => true | _ :: _ => false end.
Definition nonblank (t : pystr) : bool := negb (blank t).
(** Every blank line but a leading one removed. *)
Definition squeeze (ts : list pystr) : list pystr :=
  match ts with [] => [] | t :: r => t :: filter nonblank r end.
Definition dropped (text : pystr) : bool := page_num_match text || dots_search text.
Definition ends_blank (kept : list pystr) : bool :=
  match kept with [] => false | _ :: _ => blank (last kept []) end.
(** The loop of [read_word_doc] seen on the kept texts, before their
    terminators are added. *)
Fixpoint keep (paras : list pystr) (kept : list pystr) : list pystr :=
  match paras with
  | [] => kept
  | para :: rest =>
    let text := strip para in
    if dropped text then keep rest kept
    else if blank text && ends_blank kept then keep rest kept
    else keep rest (kept ++ [map tab_to_space text])
  end.
Definition nl_free (s : pystr) : Prop := ~ In NL s.
Definition double_nl : pystr := [NL; NL].
Fixpoint no_adjacent_blanks (ts : list pystr) : bool :=
  match ts with
  | a :: r => negb (blank a && match r with b :: _ => blank b | [] => false end)
              && no_adjacent_blanks r
  | [] => true
  end.
Definition starts_space (s : pystr) : bool :=
  match s with c :: _ => isspace c | [] => false end.
Definition ends_space (s : pystr) : bool :=
  match s with [] => false | _ :: _ => isspace (last s 0%N) end.
(** A text the loop keeps unchanged. *)
Definition settled (t : pystr) : Prop :=
  strip t = t /\ dropped t = false /\ map tab_to_space t = t /\ nl_free t.
End NormNotions.

Module RowNotions.
Import Text Values World Program Notions.

(** What the service's reply to [req] decodes to, when [req] is sent
    after the events of [t]. *)
Definition reply_to (w : world) (t : list event) (req : Request) : result pyval :=
  decode_reply (server w (length (posts t)) req).

(** One of the three steps of the row raises [e]: building the query,
    calling the service, or extracting the answer. *)
Definition step_fails (w : world) (row : Series) (file_content api_url api_auth : pystr)
           (t : list event) (e : exn) : Prop :=
  build_query row = inl e
  \/ (exists q, build_query row = inr q
        /\ reply_to w t (build_request q file_content api_url api_auth) = inl e)
  \/ (exists q j, build_query row = inr q
        /\ reply_to w t (build_request q file_content api_url api_auth) = inr j
        /\ extract j = inl e).

(** The two shapes of an outcome, told apart by the [error] field. *)
Definition is_success (o : dict) : Prop := dict_lookup o K_error = Some (PStr []).
Definition is_failure (o : dict) : Prop :=
  (exists d, d <> [] /\ dict_lookup o K_error = Some (PStr d))
  /\ dict_lookup o K_summary = Some (PStr FAILED)
  /\ dict_lookup o K_clause_id = Some (PStr FAILED)
  /\ dict_lookup o K_clause_text = Some (PStr FAILED).
Definition string_field (o : dict) (k : pystr) : Prop :=
  exists s, dict_lookup o k = Some (PStr s).

(** [answer] holds a fenced block with this content, somewhere. *)
Definition fenced_block (answer body : pystr) : Prop :=
  exists pre post, answer = pre ++ fence_open ++ body ++ fence_close ++ post.

(** ... and it is the first one: no opening fence starts before its own,
    and its closing fence is the first behind the opening one. *)
Definition first_fenced_block (answer body : pystr) : Prop :=
  exists pre post,
    answer = pre ++ fence_open ++ body ++ fence_close ++ post
    /\ first_at fence_open answer (length pre)
    /\ first_at fence_close (body ++ fence_close ++ post) (length body).

Definition get_or (d : dict) (k : pystr) (default : pyval) : pyval :=
  match dict_lookup d k with Some v => v | None => default end.

(** The text the query must have for three string cells: the three keys
    in their order, two spaces of indentation, one pair per line. *)
Definition expected_query (category content instructions : pystr) : pystr :=
  utf8 "{" ++ [NL]
  ++ utf8 "  " ++ [QUOTE] ++ K_category ++ [QUOTE] ++ utf8 ": "
  ++ JsonEncode.encode_basestring category ++ utf8 "," ++ [NL]
  ++ utf8 "  " ++ [QUOTE] ++ K_content ++ [QUOTE] ++ utf8 ": "
  ++ JsonEncode.encode_basestring content ++ utf8 "," ++ [NL]
  ++ utf8 "  " ++ [QUOTE] ++ K_instructions ++ [QUOTE] ++ utf8 ": "
  ++ JsonEncode.encode_basestring instructions ++ [NL]
  ++ utf8 "}".

(** The request body of section 6 of the specification. *)
Definition expected_body (query file_content : pystr) : pyval :=
  PDict [(utf8 "response_mode", PStr (utf8 "blocking"));
         (utf8 "user", PStr (utf8 "haha-shareholder"));
         (utf8 "inputs", PDict [(utf8 "Query", PStr query);
                                (utf8 "File", PStr file_content)])].
End RowNotions.

Module TableNotions.
Import Text Values World Program.

(** A row of the output: the input row followed by four cells. *)
Definition extends (n : nat) (r r' : list pyval) : Prop :=
  length r = n /\ exists o, r' = r ++ o /\ length o = 4.

(** The output frame while the loop runs: the input columns followed by
    the four output columns, and every input row extended. *)
Definition shaped (df result_df : DataFrame) : Prop :=
  columns result_df = columns df ++ output_columns
  /\ Forall2 (extends (length (columns df))) (rows df) (rows result_df).

Definition has_content (p : nat * Series) : Prop :=
  exists v, series_get (snd p) K_content = inr v.
End TableNotions.

(** * Sample inputs *)

Module Examples.
Import Text Values World Program Notions RowNotions.

Definition text_of (r : result pystr) : pystr :=
  match r with inr s => s | inl _ => [] end.

(** A response body whose [data.outputs.Answer] is [answer]. *)
Definition body_with (answer : pystr) : pystr :=
  text_of (JsonEncode.dumps
             (PDict [(utf8 "data",
                      PDict [(utf8 "outputs",
                              PDict [(utf8 "Answer", PStr answer)])])])).

Definition url : pystr := utf8 "http://api.example.com/analyze".
Definition auth : pystr := utf8 "Bearer xxxx".

(** A service that always answers 200 with that body. *)
Definition answering (answer : pystr) : world :=
  {| path_exists := fun _ => true;
     Document := fun _ => inr [];
     read_excel := fun _ => inr {| columns := []; rows := [] |};
     server := fun _ _ => Responds 200 (utf8 "OK") url (body_with answer) |}.

(** A service that cannot be reached in time. *)
Definition timed_out : exn :=
  Exn (utf8 "ReadTimeout") (utf8 "Read timed out. (read timeout=600)").
Definition timing_out : world :=
  {| path_exists := fun _ => true;
     Document := fun _ => inr [];
     read_excel := fun _ => inr {| columns := []; rows := [] |};
     server := fun _ _ => Raises timed_out |}.

Definition clause_row : Series :=
  {| labels := [K_category; K_content; K_instructions];
     cells := [PStr (utf8 "治理"); PStr (utf8 "董事会"); PStr (utf8 "填写人数")] |}.

Definition fenced (content : pystr) : pystr :=
  fence_open ++ [NL] ++ content ++ [NL] ++ fence_close.

Definition full_object : dict :=
  [(K_summary, PStr (utf8 "三名董事"));
   (K_clause_id, PStr (utf8 "5.1"));
   (K_clause_text, PStr (utf8 "董事会由三名董事组成"))].
Definition full_text : pystr := text_of (JsonEncode.dumps (PDict full_object)).

Definition answer_full : pystr := utf8 "分析如下 " ++ fenced full_text ++ utf8 " 完".
(** Two blocks: a draft that is not JSON, then the object. *)
Definition answer_draft_then_full : pystr :=
  fenced (utf8 "oops") ++ [NL] ++ fenced full_text.
Definition answer_empty_object : pystr := fenced (utf8 "{}").
Definition answer_draft_then_empty : pystr :=
  fenced (utf8 "not yet") ++ [NL] ++ fenced (utf8 "{}").
Definition null_summary_text : pystr :=
  text_of (JsonEncode.dumps (PDict [(K_summary, PNone)])).
Definition answer_null_summary : pystr := fenced null_summary_text.
Definition answer_list : pystr := fenced (utf8 "[1, 2]").

Definition doc_text : pystr := utf8 "甲方与乙方约定如下".

Definition query_of (row : Series) : pystr := text_of (build_query row).
Definition decoded (answer : pystr) : pyval :=
  match JsonDecode.loads (body_with answer) with inr v => v | inl _ => PNone end.
Definition clause_request : Request :=
  build_request (query_of clause_row) doc_text url auth.
Definition block (content : pystr) : pystr := [NL] ++ content ++ [NL].
End Examples.

Module TableExamples.
Import Text Values World Program Examples.

Definition contract : Path :=
  {| parent := utf8 "/contracts"; stem := utf8 "doc1"; suffix := utf8 ".docx" |}.
Definition template : Path :=
  {| parent := utf8 "/contracts"; stem := utf8 "config"; suffix := utf8 ".xlsx" |}.
Definition config : Config :=
  {| word_paths := [contract]; excel_path := template;
     api_url := url; api_auth := auth |}.

(** A service answering [answer_full], over the spreadsheet [df]. *)
Definition office (df : DataFrame) : world :=
  {| path_exists := fun _ => true;
     Document := fun _ => inr [doc_text];
     read_excel := fun _ => inr df;
     server := fun _ _ => Responds 200 (utf8 "OK") url (body_with answer_full) |}.

Definition cells_a : list pyval :=
  [PStr (utf8 "治理"); PStr (utf8 "董事会"); PStr (utf8 "填写人数")].
Definition cells_b : list pyval :=
  [PStr (utf8 "转让"); PStr (utf8 "优先购买权"); PStr (utf8 "填写期限")].

Definition plain_table : DataFrame :=
  {| columns := [K_category; K_content; K_instructions]; rows := [cells_a; cells_b] |}.
(** A table that already has a column named [error], as a result file
    fed back in would. *)
Definition table_with_error : DataFrame :=
  {| columns := [K_category; K_content; K_instructions; K_error];
     rows := [cells_a ++ [PStr (utf8 "old")]] |}.
(** Tables missing one of the three columns. *)
Definition table_without_content : DataFrame :=
  {| columns := [K_category; K_instructions];
     rows := [[PStr (utf8 "治理"); PStr (utf8 "填写人数")];
              [PStr (utf8 "转让"); PStr (utf8 "填写期限")]] |}.
Definition table_without_category : DataFrame :=
  {| columns := [K_content; K_instructions];
     rows := [[PStr (utf8 "董事会"); PStr (utf8 "填写人数")];
              [PStr (utf8 "优先购买权"); PStr (utf8 "填写期限")]] |}.

Definition full_cells : list pyval :=
  [PStr (utf8 "三名董事"); PStr (utf8 "5.1"); PStr (utf8 "董事会由三名董事组成")].
Definition failed_cells (error : pystr) : list pyval :=
  [PStr FAILED; PStr FAILED; PStr FAILED; PStr error].
End TableExamples.

Module MoreExamples.
Import Text Values World Program Examples.
(** A document: a title, blank paragraphs, a heading, a line of the
    table of contents, a paragraph with a tab. *)
Definition sample_paragraphs : list pystr :=
  [utf8 "  股东协议 "; []; utf8 "   "; utf8 "第一条 定义"; utf8 "目录......3";
   [30002%N; TAB; 20057%N]; []; utf8 "结束"].
End MoreExamples.

(** ** Notions and examples for the further properties *)

Module NormalFormNotions.
Import Text Normalizer NormNotions.

(** The paragraphs the two patterns let through, each trimmed and with
    its tabs turned into spaces, in their order. *)
Definition kept_lines (paras : list pystr) : list pystr :=
  map (fun p => map tab_to_space (strip p))
      (filter (fun p => negb (page_num_match (strip p) || dots_search (strip p)))
              paras).
End NormalFormNotions.

Module ResponseNotions.
Import Text Values World Program Notions RowNotions.

(** The decoded response is an object, but on the way to
    [data.outputs.Answer] the key [k] is not there. *)
Definition response_lacks (j : pyval) (k : pystr) : Prop :=
  (exists d, j = PDict d /\ dict_lookup d (utf8 "data") = None /\ k = utf8 "data")
  \/ (exists d d1, j = PDict d /\ dict_lookup d (utf8 "data") = Some (PDict d1)
        /\ dict_lookup d1 (utf8 "outputs") = None /\ k = utf8 "outputs")
  \/ (exists d d1 d2, j = PDict d /\ dict_lookup d (utf8 "data") = Some (PDict d1)
        /\ dict_lookup d1 (utf8 "outputs") = Some (PDict d2)
        /\ dict_lookup d2 (utf8 "Answer") = None /\ k = utf8 "Answer").

Definition clause_keys : list pystr := [K_category; K_content; K_instructions].

Definition answer_without_block : pystr := utf8 "未能从文件中得出结论。".
End ResponseNotions.

Module RunNotions.
Import Text Values World Program Notions RowNotions TableNotions.

(** The log records of a trace. *)
Definition logs (t : list event) : list event :=
  filter (fun e => match e with Log _ _ _ => true | _ => false end) t.

(** The request a row gives rise to: one when its three cells can be
    read and serialised, none otherwise. *)
Definition row_requests (cfg : Config) (file_content : pystr) (row : Series)
  : list Request :=
  match build_query row with
  | inr q => [build_request q file_content (api_url cfg) (api_auth cfg)]
  | inl _ => []
  end.

Definition content_readable (p : nat * Series) : bool :=
  match series_get (snd p) K_content with inr _ => true | inl _ => false end.

(** The rows in front of the first one whose progress message cannot
    be formatted. *)
Fixpoint rows_reached (its : list (nat * Series)) : list (nat * Series) :=
  match its with
  | [] => []
  | p :: rest => if content_readable p then p :: rows_reached rest else []
  end.

(** The four cells a record puts into its row. *)
Definition record_cells (o : dict) : list pyval :=
  map (fun c => get_or o c PNone) output_columns.

Definition as_series (df : DataFrame) (r : list pyval) : Series :=
  {| labels := columns df; cells := r |}.

(** A configured document that [main] goes on to process: the file is
    there, it can be read, and its text is not empty. *)
Definition processable (w : world) (p : Path) : bool :=
  path_exists w p
  && match Document w p with
     | inr paragraphs =>
       match Normalizer.clean_text paragraphs with [] => false | _ => true end
     | inl _ => false
     end.

(** The spreadsheet can be read and the loop gets through all its rows. *)
Definition table_complete (w : world) (cfg : Config) : bool :=
  match read_excel w (excel_path cfg) with
  | inr df => forallb content_readable (iterrows df)
  | inl _ => false
  end.
End RunNotions.

Module MainNotions.
Import Text Values World Program Notions RowNotions TableNotions RunNotions.

(** The text [read_word_doc] gives for a document that can be read. *)
Definition document_text (w : world) (p : Path) : pystr :=
  match Document w p with
  | inr paragraphs => Normalizer.clean_text paragraphs
  | inl _ => []
  end.

(** The requests one pass over the spreadsheet sends with this text. *)
Definition table_requests (w : world) (cfg : Config) (file_content : pystr)
  : list Request :=
  match read_excel w (excel_path cfg) with
  | inr df => flat_map (fun p => row_requests cfg file_content (snd p))
                       (rows_reached (iterrows df))
  | inl _ => []
  end.
End MainNotions.

Module RunExamples.
Import Text Values World Program Examples TableExamples.

(** A service that is down, although the body it sends would do.  The
    address was asked for without a path; the response bears it as the
    library completed it. *)
Definition bare_url : pystr := utf8 "http://api.example.com".
Definition unavailable : world :=
  {| path_exists := fun _ => true;
     Document := fun _ => inr [doc_text];
     read_excel := fun _ => inr plain_table;
     server := fun _ _ =>
       Responds 503 (utf8 "Service Unavailable") (bare_url ++ utf8 "/")
                (body_with answer_full) |}.

(** A response without [outputs]. *)
Definition body_without_outputs : pystr :=
  text_of (JsonEncode.dumps (PDict [(utf8 "data", PDict [])])).
Definition terse : world :=
  {| path_exists := fun _ => true;
     Document := fun _ => inr [doc_text];
     read_excel := fun _ => inr plain_table;
     server := fun _ _ => Responds 200 (utf8 "OK") url body_without_outputs |}.

Definition row_without_category : Series :=
  {| labels := [K_content; K_instructions];
     cells := [PStr (utf8 "董事会"); PStr (utf8 "填写人数")] |}.
End RunExamples.

Module SkipExamples.
Import Text Values World Program Examples TableExamples.

(** A run in which none of the configured documents is there. *)
Definition vacant : world :=
  {| path_exists := fun _ => false;
     Document := fun _ => inr [doc_text];
     read_excel := fun _ => inr plain_table;
     server := fun _ _ => Responds 200 (utf8 "OK") url (body_with answer_full) |}.
End SkipExamples.

Module ShapeNotions.
Import Text Values World Program TableNotions RunNotions.

Definition is_column (df : DataFrame) (c : pystr) : bool :=
  existsb (str_eqb c) (columns df).

(** Those of the four output columns that the table does not have yet,
    in their order. *)
Definition new_columns (df : DataFrame) : list pystr :=
  filter (fun c => negb (is_column df c)) output_columns.

(** A row of the output beside its input row: one cell for each column
    of the output and, under every input column that is none of the
    four, the cell of the input. *)
Definition keeps (df : DataFrame) (r r' : list pyval) : Prop :=
  length r' = length (columns df ++ new_columns df)
  /\ forall j c, nth_error (columns df) j = Some c -> ~ In c output_columns ->
                 nth_error r' j = nth_error r j.

(** The same while the frame is being built: the cells the input has
    are still there. *)
Definition carries (cols : list pystr) (r r' : list pyval) : Prop :=
  forall j c x, nth_error cols j = Some c -> ~ In c output_columns ->
                nth_error r j = Some x -> nth_error r' j = Some x.

Definition row_lengths (df : DataFrame) : Prop :=
  Forall (fun r => length r = length (columns df)) (rows df).

Definition kept (df rdf : DataFrame) : Prop :=
  columns rdf = columns df ++ new_columns df
  /\ row_lengths rdf
  /\ Forall2 (carries (columns df)) (rows df) (rows rdf).

(** The requests sent for the rows in front of the [i]-th. *)
Definition requests_before (cfg : Config) (file_content : pystr) (df : DataFrame)
           (i : nat) : list Request :=
  flat_map (fun r => row_requests cfg file_content (as_series df r))
           (firstn i (rows df)).
End ShapeNotions.

Module ContainExamples.
Import Text Values World Program Examples TableExamples.


(** An exception without a message, as [raise MemoryError()] gives. *)
Definition silent : exn := Exn (utf8 "MemoryError") [].
Definition failing_silently : world :=
  {| path_exists := fun _ => true;
     Document := fun _ => inr [];
     read_excel := fun _ => inr {| columns := []; rows := [] |};
     server := fun _ _ => Raises silent |}.
End ContainExamples.

(** * Facts about the text operations *)

Module TextFacts.
Import Text Notions.

Lemma char_eqb_eq (a b : char) : char_eqb a b = true <-> a = b.
Proof. apply N.eqb_eq. Qed.

Lemma char_eqb_refl (a : char) : char_eqb a a = true.
Proof. apply N.eqb_refl. Qed.

Lemma char_eqb_neq (a b : char) : char_eqb a b = false <-> a <> b.
Proof. apply N.eqb_neq. Qed.

Lemma str_eqb_eq (s t : pystr) : str_eqb s t = true <-> s = t.
Proof.
  revert t; induction s as [|a s IH]; intros [|b t]; simpl; split; intro H;
    try reflexivity; try discriminate.
  - apply andb_true_iff in H as [Hab Hst].
    apply char_eqb_eq in Hab. apply IH in Hst. congruence.
  - injection H as -> ->. rewrite char_eqb_refl. simpl. now apply IH.
Qed.

Lemma str_eqb_refl (s : pystr) : str_eqb s s = true.
Proof. now apply str_eqb_eq. Qed.

Lemma startswith_spec (pat s : pystr) :
  startswith pat s = true <-> exists post, s = pat ++ post.
Proof.
  revert s; induction pat as [|p pat IH]; intros s; simpl.
  - split; [intros _; now exists s | reflexivity].
  - destruct s as [|c s].
    + split; [discriminate | intros [post H]; discriminate].
    + rewrite andb_true_iff, char_eqb_eq, IH. split.
      * intros [-> [post ->]]. now exists post.
      * intros [post H]. injection H as -> ->. split; [reflexivity | now exists post].
Qed.

Lemma startswith_app (pat post : pystr) : startswith pat (pat ++ post) = true.
Proof. apply startswith_spec. now exists post. Qed.

Lemma occurs_at_0 (pat s : pystr) :
  occurs_at pat s 0 <-> startswith pat s = true.
Proof.
  rewrite startswith_spec. split.
  - intros (pre & post & -> & Hlen). destruct pre; [|discriminate]. now exists post.
  - intros [post ->]. now exists [], post.
Qed.

Lemma occurs_at_S (pat : pystr) (c : char) (s : pystr) (i : nat) :
  occurs_at pat (c :: s) (S i) <-> occurs_at pat s i.
Proof.
  split.
  - intros (pre & post & H & Hlen). destruct pre as [|c' pre]; [discriminate|].
    simpl in H. injection H as -> ->. injection Hlen as Hlen.
    now exists pre, post.
  - intros (pre & post & -> & Hlen). exists (c :: pre), post. simpl. now rewrite Hlen.
Qed.

Lemma occurs_at_nil (pat : pystr) (i : nat) :
  occurs_at pat [] i -> i = 0.
Proof.
  intros (pre & post & H & Hlen). destruct pre; [now simpl in Hlen | discriminate].
Qed.

Lemma find_None_inv (pat s : pystr) :
  find pat s = None -> forall i, ~ occurs_at pat s i.
Proof.
  induction s as [|c s IH]; cbn [find]; intros H i Hocc.
  - destruct (startswith pat []) eqn:E; [discriminate|].
    pose proof (occurs_at_nil Hocc) as ->. apply occurs_at_0 in Hocc. congruence.
  - destruct (startswith pat (c :: s)) eqn:E; [discriminate|].
    destruct (find pat s); [discriminate|].
    destruct i as [|i].
    + apply occurs_at_0 in Hocc. congruence.
    + apply occurs_at_S in Hocc. now apply (IH eq_refl i).
Qed.

Lemma find_Some_inv (pat s : pystr) (i : nat) :
  find pat s = Some i -> first_at pat s i.
Proof.
  revert i; induction s as [|c s IH]; cbn [find]; intros i H.
  - destruct (startswith pat []) eqn:E; [|discriminate].
    injection H as <-. split; [now apply occurs_at_0 | lia].
  - destruct (startswith pat (c :: s)) eqn:E.
    + injection H as <-. split; [now apply occurs_at_0 | lia].
    + destruct (find pat s) as [k|]; [|discriminate]. injection H as <-.
      destruct (IH k eq_refl) as [Hk Hmin]. split; [now apply occurs_at_S|].
      intros [|j] Hj; [apply occurs_at_0 in Hj; congruence|].
      apply occurs_at_S in Hj. apply Hmin in Hj. lia.
Qed.

(** [find] returns the offset of the leftmost occurrence. *)
Lemma find_first_at (pat s : pystr) (i : nat) :
  find pat s = Some i <-> first_at pat s i.
Proof.
  split; [apply find_Some_inv|].
  intros [Hocc Hmin]. destruct (find pat s) as [k|] eqn:F.
  - apply find_Some_inv in F as [Hk Hmink].
    apply Hmin in Hk. apply Hmink in Hocc. f_equal. lia.
  - exfalso. exact (find_None_inv F Hocc).
Qed.

Lemma find_None (pat s : pystr) :
  find pat s = None <-> ~ occurs pat s.
Proof.
  split.
  - intros H [i Hi]. exact (find_None_inv H Hi).
  - intros H. destruct (find pat s) as [k|] eqn:F; [|reflexivity].
    exfalso. apply H. exists k. now apply find_Some_inv in F as [].
Qed.
End TextFacts.

(** * The document normaliser *)

Module StripFacts.
Import Text Normalizer Notions NormNotions TextFacts.

Lemma lstrip_fixed (s : pystr) : starts_space s = false -> lstrip s = s.
Proof. destruct s as [|c s]; simpl; [reflexivity|]. now intros ->. Qed.

Lemma lstrip_starts (s : pystr) : starts_space (lstrip s) = false.
Proof.
  induction s as [|c s IH]; simpl; [reflexivity|].
  destruct (isspace c) eqn:E; [assumption|]. simpl. exact E.
Qed.

Lemma rstrip_snoc_keep (s : pystr) (c : char) :
  isspace c = false -> rstrip (s ++ [c]) = s ++ [c].
Proof.
  intros Hc. induction s as [|a s IH]; simpl.
  - now rewrite Hc.
  - rewrite IH. destruct (s ++ [c]) eqn:E; [now destruct s|reflexivity].
Qed.

Lemma rstrip_snoc_drop (s : pystr) (c : char) :
  isspace c = true -> rstrip (s ++ [c]) = rstrip s.
Proof.
  intros Hc. induction s as [|a s IH]; simpl.
  - now rewrite Hc.
  - now rewrite IH.
Qed.

Lemma ends_space_snoc (s : pystr) (c : char) : ends_space (s ++ [c]) = isspace c.
Proof.
  unfold ends_space. destruct (s ++ [c]) eqn:E; [now destruct s|].
  rewrite <- E. now rewrite last_last.
Qed.

Lemma rstrip_fixed (s : pystr) : ends_space s = false -> rstrip s = s.
Proof.
  destruct s as [|a s'] using rev_ind; [reflexivity|].
  rewrite ends_space_snoc. apply rstrip_snoc_keep.
Qed.

Lemma rstrip_ends (s : pystr) : ends_space (rstrip s) = false.
Proof.
  induction s as [|c s IH] using rev_ind; [reflexivity|].
  destruct (isspace c) eqn:E.
  - now rewrite rstrip_snoc_drop.
  - rewrite rstrip_snoc_keep by assumption. now rewrite ends_space_snoc.
Qed.

Lemma rstrip_starts (s : pystr) :
  starts_space s = false -> starts_space (rstrip s) = false.
Proof.
  destruct s as [|c s]; simpl; [reflexivity|]. intros Hc.
  destruct (rstrip s); simpl; now rewrite Hc.
Qed.

Lemma strip_starts (s : pystr) : starts_space (strip s) = false.
Proof. apply rstrip_starts, lstrip_starts. Qed.

Lemma strip_ends (s : pystr) : ends_space (strip s) = false.
Proof. apply rstrip_ends. Qed.

Lemma strip_fixed (s : pystr) :
  starts_space s = false -> ends_space s = false -> strip s = s.
Proof.
  intros H1 H2. unfold strip. rewrite (lstrip_fixed _ H1). now apply rstrip_fixed.
Qed.

Lemma In_lstrip (c : char) (s : pystr) : In c (lstrip s) -> In c s.
Proof.
  induction s as [|a s IH]; simpl; [tauto|].
  destruct (isspace a); simpl; tauto.
Qed.

Lemma In_rstrip (c : char) (s : pystr) : In c (rstrip s) -> In c s.
Proof.
  induction s as [|a s IH]; simpl; [tauto|].
  destruct (rstrip s) as [|b t].
  - destruct (isspace a); simpl; tauto.
  - simpl in *. tauto.
Qed.

Lemma In_strip (c : char) (s : pystr) : In c (strip s) -> In c s.
Proof. intros H. now apply In_lstrip, In_rstrip. Qed.

(** Tabs become spaces, and both are white space. *)
Lemma isspace_tab_to_space (c : char) : isspace (tab_to_space c) = isspace c.
Proof.
  unfold tab_to_space. destruct (char_eqb c TAB) eqn:E; [|reflexivity].
  apply char_eqb_eq in E. now subst.
Qed.

Lemma starts_space_tabs (s : pystr) :
  starts_space (map tab_to_space s) = starts_space s.
Proof. destruct s; simpl; [reflexivity | apply isspace_tab_to_space]. Qed.

Lemma ends_space_tabs (s : pystr) :
  ends_space (map tab_to_space s) = ends_space s.
Proof.
  destruct s as [|c s] using rev_ind; [reflexivity|].
  rewrite map_app. simpl. rewrite !ends_space_snoc. apply isspace_tab_to_space.
Qed.

Lemma tab_to_space_idem (c : char) : tab_to_space (tab_to_space c) = tab_to_space c.
Proof.
  unfold tab_to_space. destruct (char_eqb c TAB) eqn:E; [reflexivity|]. now rewrite E.
Qed.

Lemma tabs_idem (s : pystr) :
  map tab_to_space (map tab_to_space s) = map tab_to_space s.
Proof. rewrite map_map. apply map_ext, tab_to_space_idem. Qed.

Lemma tab_to_space_not_nl (c : char) : c <> NL -> tab_to_space c <> NL.
Proof.
  unfold tab_to_space. destruct (char_eqb c TAB); [discriminate | tauto].
Qed.

Lemma nl_free_tabs (s : pystr) : nl_free s -> nl_free (map tab_to_space s).
Proof.
  unfold nl_free. intros H Hin. apply in_map_iff in Hin as (c & Hc & Hin).
  destruct (N.eq_dec c NL) as [->|Hne]; [tauto|].
  now apply (tab_to_space_not_nl Hne).
Qed.

(** [str.replace('\t', ' ')] *)
Lemma replace_tab (s : pystr) : replace [TAB] [SPACE] s = map tab_to_space s.
Proof.
  unfold replace. induction s as [|c s IH]; [reflexivity|].
  cbn [replace_from startswith length Nat.sub map]. unfold tab_to_space at 1.
  rewrite N.eqb_sym. fold (char_eqb c TAB).
  destruct (char_eqb c TAB); simpl; now rewrite IH.
Qed.
End StripFacts.

Module PatternFacts.
Import Text Normalizer Notions NormNotions TextFacts StripFacts.

(** A test that cannot tell a tab from a space gives the same answer
    before and after [tab_to_space]. *)
Lemma blind_to_tabs (P : char -> bool) (c : char) :
  P TAB = P SPACE -> P (tab_to_space c) = P c.
Proof.
  intros H. unfold tab_to_space. destruct (char_eqb c TAB) eqn:E; [|reflexivity].
  apply char_eqb_eq in E. now subst.
Qed.

Lemma skip_numerals_tabs (s : pystr) :
  skip_numerals (map tab_to_space s) = map tab_to_space (skip_numerals s).
Proof.
  induction s as [|c s IH]; [reflexivity|]. simpl.
  rewrite (blind_to_tabs is_numeral c eq_refl).
  destruct (is_numeral c); [assumption | reflexivity].
Qed.

Lemma page_num_match_tabs (t : pystr) :
  page_num_match (map tab_to_space t) = page_num_match t.
Proof.
  destruct t as [|c0 [|c1 r]]; try reflexivity. simpl.
  rewrite (blind_to_tabs (fun c => char_eqb c DI) c0 eq_refl).
  rewrite (blind_to_tabs is_numeral c1 eq_refl).
  rewrite skip_numerals_tabs.
  destruct (skip_numerals r) as [|c r']; [reflexivity|]. simpl.
  now rewrite (blind_to_tabs (fun c => char_eqb c TIAO) c eq_refl).
Qed.

Lemma startswith_dots_tabs (s : pystr) :
  startswith four_dots (map tab_to_space s) = startswith four_dots s.
Proof.
  pose proof (fun c => blind_to_tabs (char_eqb DOT) c eq_refl) as H.
  unfold four_dots.
  destruct s as [|a [|b [|c [|d s]]]]; cbn [map startswith]; rewrite ?H; reflexivity.
Qed.

Lemma find_dots_tabs (s : pystr) :
  find four_dots (map tab_to_space s) = find four_dots s.
Proof.
  induction s as [|c s IH]; [reflexivity|].
  cbn [find]. change (map tab_to_space (c :: s)) with (tab_to_space c :: map tab_to_space s).
  cbn [find]. change (tab_to_space c :: map tab_to_space s) with (map tab_to_space (c :: s)).
  rewrite startswith_dots_tabs. now rewrite IH.
Qed.

Lemma dropped_tabs (t : pystr) : dropped (map tab_to_space t) = dropped t.
Proof.
  unfold dropped, dots_search, contains.
  now rewrite page_num_match_tabs, find_dots_tabs.
Qed.

(** What the loop appends is a text it would keep as it is. *)
Lemma kept_text_settled (para : pystr) :
  nl_free para -> dropped (strip para) = false ->
  settled (map tab_to_space (strip para)).
Proof.
  intros Hnl Hd. unfold settled. repeat split.
  - apply strip_fixed.
    + rewrite starts_space_tabs. apply strip_starts.
    + rewrite ends_space_tabs. apply strip_ends.
  - now rewrite dropped_tabs.
  - apply tabs_idem.
  - apply nl_free_tabs. intros Hin. apply Hnl. now apply In_strip.
Qed.
End PatternFacts.

Module LoopFacts.
Import Text Normalizer Notions NormNotions TextFacts StripFacts PatternFacts.

Lemma blank_spec (t : pystr) : str_eqb t [] = blank t.
Proof. now destruct t. Qed.

Lemma add_nl_blank (t : pystr) : str_eqb (add_nl t) [NL] = blank t.
Proof.
  destruct t as [|c t]; [reflexivity|]. unfold add_nl. simpl.
  destruct (char_eqb c NL); [|reflexivity]. simpl. now destruct t.
Qed.

Lemma ends_with_blank_map (kept : list pystr) :
  ends_with_blank (map add_nl kept) = ends_blank kept.
Proof.
  destruct kept as [|k kept] using rev_ind; [reflexivity|].
  rewrite map_app. simpl. unfold ends_with_blank, ends_blank.
  destruct (map add_nl kept ++ [add_nl k]) eqn:E1; [now destruct (map add_nl kept)|].
  destruct (kept ++ [k]) eqn:E2; [now destruct kept|].
  rewrite <- E1, <- E2, !last_last. apply add_nl_blank.
Qed.

(** The loop of the source and the loop on the bare texts agree. *)
Lemma paragraphs_loop_keep (paras kept : list pystr) :
  paragraphs_loop paras (map add_nl kept) = map add_nl (keep paras kept).
Proof.
  revert kept; induction paras as [|p paras IH]; intros kept; [reflexivity|].
  cbn [paragraphs_loop keep]. fold (dropped (strip p)).
  destruct (dropped (strip p)); [apply IH|].
  rewrite blank_spec, ends_with_blank_map.
  destruct (blank (strip p) && ends_blank kept); [apply IH|].
  rewrite replace_tab. rewrite <- IH. now rewrite map_app.
Qed.

Lemma no_adjacent_blanks_snoc (ts : list pystr) (t : pystr) :
  no_adjacent_blanks ts = true ->
  blank t && ends_blank ts = false ->
  no_adjacent_blanks (ts ++ [t]) = true.
Proof.
  induction ts as [|a ts IH]; intros Hts Ht.
  - simpl. now rewrite andb_false_r.
  - cbn [app no_adjacent_blanks] in *.
    apply andb_true_iff in Hts as [Ha Hts]. destruct ts as [|b ts].
    + simpl in *. destruct (blank a), (blank t); simpl in *; congruence.
    + cbn [app]. cbn [app] in IH. rewrite Ha. simpl. apply IH; [assumption|].
      unfold ends_blank in *. cbn [last] in Ht. exact Ht.
Qed.

(** The kept texts: settled, and never two blank ones in a row. *)
Lemma keep_invariant (paras kept : list pystr) :
  Forall nl_free paras ->
  Forall settled kept -> no_adjacent_blanks kept = true ->
  Forall settled (keep paras kept) /\ no_adjacent_blanks (keep paras kept) = true.
Proof.
  revert kept; induction paras as [|p paras IH]; intros kept Hp Hk Hadj;
    [now split|].
  apply Forall_cons_iff in Hp as [Hp Hps]. cbn [keep].
  destruct (dropped (strip p)) eqn:Hd; [now apply IH|].
  destruct (blank (strip p) && ends_blank kept) eqn:Hb; [now apply IH|].
  apply IH; [assumption| |].
  - apply Forall_app. split; [assumption|]. constructor; [|constructor].
    now apply kept_text_settled.
  - apply no_adjacent_blanks_snoc; [assumption|].
    destruct (strip p); [exact Hb | reflexivity].
Qed.

(** A second pass changes nothing: settled texts without blanks are all
    kept as they are. *)
Lemma keep_settled (xs kept : list pystr) :
  Forall settled xs -> forallb nonblank xs = true ->
  keep xs kept = kept ++ xs.
Proof.
  revert kept; induction xs as [|x xs IH]; intros kept Hs Hnb.
  - now rewrite app_nil_r.
  - apply Forall_cons_iff in Hs as [(Hstrip & Hd & Htab & _) Hs].
    cbn [forallb] in Hnb. apply andb_true_iff in Hnb as [Hx Hnb].
    cbn [keep]. rewrite Hstrip, Hd.
    unfold nonblank in Hx. apply negb_true_iff in Hx. rewrite Hx. simpl.
    rewrite Htab, IH by assumption. now rewrite <- app_assoc.
Qed.

Lemma keep_squeezed (ts : list pystr) :
  Forall settled ts -> keep (squeeze ts) [] = squeeze ts.
Proof.
  destruct ts as [|t ts]; [reflexivity|]. intros Hs.
  apply Forall_cons_iff in Hs as [(Hstrip & Hd & Htab & _) Hs].
  cbn [squeeze keep]. rewrite Hstrip, Hd. simpl. rewrite andb_false_r, Htab.
  apply keep_settled.
  - apply Forall_forall. intros x Hx. apply filter_In in Hx as [Hx _].
    now apply (proj1 (Forall_forall _ _) Hs).
  - apply forallb_forall. intros x Hx. now apply filter_In in Hx as [_ Hx].
Qed.
End LoopFacts.

Module CollapseFacts.
Import Text Normalizer Notions NormNotions TextFacts StripFacts PatternFacts LoopFacts.

Abbreviation collapse := (replace_from double_nl [NL] 0).

Lemma not_nl (c : char) : c <> NL -> char_eqb NL c = false.
Proof. intros H. apply char_eqb_neq. congruence. Qed.

Lemma collapse_other (c : char) (s : pystr) :
  c <> NL -> collapse (c :: s) = c :: collapse s.
Proof.
  intros H. cbn [replace_from double_nl startswith]. now rewrite (not_nl H).
Qed.

Lemma collapse_nl_other (c : char) (s : pystr) :
  c <> NL -> collapse (NL :: c :: s) = NL :: collapse (c :: s).
Proof.
  intros H. cbn [replace_from double_nl startswith].
  rewrite char_eqb_refl, (not_nl H). reflexivity.
Qed.

Lemma collapse_nl_nl (s : pystr) : collapse (NL :: NL :: s) = NL :: collapse s.
Proof. reflexivity. Qed.

Lemma collapse_prefix (t s : pystr) :
  nl_free t -> collapse (t ++ s) = t ++ collapse s.
Proof.
  induction t as [|c t IH]; intros H; [reflexivity|].
  simpl app. rewrite collapse_other.
  - rewrite IH; [reflexivity|]. intros Hin. apply H. now right.
  - intros ->. apply H. now left.
Qed.

Lemma nonblank_head (t : pystr) :
  nl_free t -> blank t = false -> exists c t', t = c :: t' /\ c <> NL.
Proof.
  destruct t as [|c t]; [discriminate|]. intros H _. exists c, t.
  split; [reflexivity|]. intros ->. apply H. now left.
Qed.

Lemma terminated_cons (t : pystr) (r : list pystr) :
  terminated (t :: r) = t ++ NL :: terminated r.
Proof. unfold terminated, add_nl. simpl. now rewrite <- app_assoc. Qed.

(** Collapsing the doubled terminators of a text whose lines never have
    two blank ones in a row removes the blank lines: after a terminator
    ([collapse_after_nl]) and at the start of a line that is not blank
    ([collapse_at_text]). *)
Lemma collapse_terminated (r : list pystr) :
  Forall nl_free r -> no_adjacent_blanks r = true ->
  collapse (NL :: terminated r) = NL :: terminated (filter nonblank r)
  /\ (match r with t :: _ => blank t = false | [] => True end ->
      collapse (terminated r) = terminated (filter nonblank r)).
Proof.
  induction r as [|t r IH]; intros Hnl Hadj; [now split|].
  apply Forall_cons_iff in Hnl as [Ht Hr].
  cbn [no_adjacent_blanks] in Hadj. apply andb_true_iff in Hadj as [Hhead Hadj].
  destruct (IH Hr Hadj) as [IHa IHb].
  assert (blank t = false ->
          collapse (terminated (t :: r)) = terminated (filter nonblank (t :: r))) as Hb.
  { intros Hnb. rewrite terminated_cons, (collapse_prefix _ Ht), IHa.
    cbn [filter]. change (nonblank t) with (negb (blank t)). rewrite Hnb. cbn [negb].
    now rewrite terminated_cons. }
  split; [|exact Hb].
  destruct (blank t) eqn:Hbt.
  - destruct t; [|discriminate]. rewrite terminated_cons. simpl app.
    rewrite collapse_nl_nl. cbn [filter nonblank blank negb]. f_equal.
    apply IHb. destruct r as [|t2 r]; [exact I|].
    simpl in Hhead. now destruct (blank t2).
  - destruct (nonblank_head Ht Hbt) as (c & t' & -> & Hc).
    rewrite <- (Hb eq_refl). rewrite terminated_cons. simpl app.
    now apply collapse_nl_other.
Qed.

Lemma collapse_kept (ts : list pystr) :
  Forall nl_free ts -> no_adjacent_blanks ts = true ->
  collapse (terminated ts) = terminated (squeeze ts).
Proof.
  destruct ts as [|t r]; [reflexivity|]. intros Hnl Hadj.
  destruct (blank t) eqn:Hbt.
  - destruct t; [|discriminate]. rewrite terminated_cons. simpl app.
    apply Forall_cons_iff in Hnl as [_ Hr].
    cbn [no_adjacent_blanks] in Hadj. apply andb_true_iff in Hadj as [_ Hadj].
    rewrite (proj1 (collapse_terminated Hr Hadj)).
    cbn [squeeze]. now rewrite terminated_cons.
  - rewrite (proj2 (collapse_terminated Hnl Hadj) Hbt).
    cbn [squeeze filter]. change (nonblank t) with (negb (blank t)). now rewrite Hbt.
Qed.

(** *** No doubled terminator is left *)

Lemma contains_cons (pat : pystr) (c : char) (s : pystr) :
  contains pat (c :: s) = startswith pat (c :: s) || contains pat s.
Proof.
  unfold contains. cbn [find]. destruct (startswith pat (c :: s)); [reflexivity|].
  now destruct (find pat s).
Qed.

Lemma contains_double_prefix (t s : pystr) :
  nl_free t -> contains double_nl (t ++ s) = contains double_nl s.
Proof.
  induction t as [|c t IH]; intros H; [reflexivity|].
  simpl app. rewrite contains_cons. cbn [double_nl startswith].
  rewrite not_nl; [apply IH|].
  - intros Hin. apply H. now right.
  - intros ->. apply H. now left.
Qed.

Lemma no_double_after_nl (ls : list pystr) :
  Forall nl_free ls -> forallb nonblank ls = true ->
  contains double_nl (NL :: terminated ls) = false.
Proof.
  induction ls as [|t ls IH]; intros Hnl Hnb; [reflexivity|].
  apply Forall_cons_iff in Hnl as [Ht Hls].
  cbn [forallb] in Hnb. apply andb_true_iff in Hnb as [Hnbt Hnb].
  apply negb_true_iff in Hnbt.
  destruct (nonblank_head Ht Hnbt) as (c & t' & E & Hc).
  rewrite contains_cons, terminated_cons. rewrite E at 1. simpl app.
  cbn [double_nl startswith]. rewrite char_eqb_refl, (not_nl Hc). simpl.
  rewrite (contains_double_prefix _ Ht). now apply IH.
Qed.

Lemma filter_nonblank_all (r : list pystr) :
  forallb nonblank (filter nonblank r) = true.
Proof.
  apply forallb_forall. intros x Hx. now apply filter_In in Hx as [_ Hx].
Qed.

Lemma Forall_filter (P : pystr -> Prop) (f : pystr -> bool) (r : list pystr) :
  Forall P r -> Forall P (filter f r).
Proof.
  intros H. apply Forall_forall. intros x Hx. apply filter_In in Hx as [Hx _].
  now apply (proj1 (Forall_forall _ _) H).
Qed.

Lemma Forall_squeeze (P : pystr -> Prop) (ts : list pystr) :
  Forall P ts -> Forall P (squeeze ts).
Proof.
  destruct ts as [|t r]; [trivial|]. intros H.
  apply Forall_cons_iff in H as [Ht Hr]. constructor; [assumption|].
  now apply Forall_filter.
Qed.

Lemma no_double_squeezed (ts : list pystr) :
  Forall nl_free ts -> contains double_nl (terminated (squeeze ts)) = false.
Proof.
  destruct ts as [|t r]; [reflexivity|]. intros Hnl.
  apply Forall_cons_iff in Hnl as [Ht Hr].
  cbn [squeeze]. rewrite terminated_cons, (contains_double_prefix _ Ht).
  apply no_double_after_nl; [now apply Forall_filter | apply filter_nonblank_all].
Qed.

Lemma collapse_nothing (s : pystr) :
  contains double_nl s = false -> collapse s = s.
Proof.
  induction s as [|c s IH]; [reflexivity|]. rewrite contains_cons.
  intros H. apply orb_false_iff in H as [H1 H2].
  cbn [replace_from]. rewrite H1. now rewrite IH.
Qed.

Lemma contains_false (pat s : pystr) :
  contains pat s = false <-> ~ occurs pat s.
Proof.
  rewrite <- find_None. unfold contains. destruct (find pat s); split; congruence.
Qed.

(** *** Reading the lines back *)

Lemma lines_from_line (cur t s : pystr) :
  nl_free t ->
  lines_from cur (t ++ NL :: s) = (rev cur ++ t) :: lines_from [] s.
Proof.
  revert cur; induction t as [|c t IH]; intros cur H.
  - simpl. now rewrite app_nil_r.
  - simpl app. cbn [lines_from].
    assert (char_eqb c NL = false) as ->.
    { apply char_eqb_neq. intros ->. apply H. now left. }
    rewrite IH.
    + simpl. now rewrite <- app_assoc.
    + intros Hin. apply H. now right.
Qed.

Lemma splitlines_terminated (ls : list pystr) :
  Forall nl_free ls -> splitlines (terminated ls) = ls.
Proof.
  unfold splitlines. induction ls as [|t ls IH]; intros H; [reflexivity|].
  apply Forall_cons_iff in H as [Ht Hls].
  rewrite terminated_cons, (lines_from_line [] _ Ht). simpl. now rewrite IH.
Qed.

(** *** The text [read_word_doc] returns *)

Lemma settled_nl_free (ts : list pystr) : Forall settled ts -> Forall nl_free ts.
Proof. apply Forall_impl. now intros t (_ & _ & _ & H). Qed.

Lemma clean_text_kept (paras : list pystr) :
  Forall nl_free paras ->
  clean_text paras = terminated (squeeze (keep paras [])).
Proof.
  intros H. unfold clean_text, replace, join.
  change (paragraphs_loop paras []) with (paragraphs_loop paras (map add_nl [])).
  rewrite paragraphs_loop_keep.
  destruct (keep_invariant (kept := []) H (Forall_nil _) eq_refl) as [Hs Hadj].
  apply collapse_kept; [now apply settled_nl_free | assumption].
Qed.

Lemma clean_text_settled (ts : list pystr) :
  Forall settled ts -> clean_text (squeeze ts) = terminated (squeeze ts).
Proof.
  intros Hs. unfold clean_text, replace, join.
  change (paragraphs_loop (squeeze ts) [])
    with (paragraphs_loop (squeeze ts) (map add_nl [])).
  rewrite paragraphs_loop_keep, (keep_squeezed Hs).
  apply collapse_nothing, no_double_squeezed. now apply settled_nl_free.
Qed.
End CollapseFacts.

Module NormalizerClaims.
Import Text Normalizer Notions NormNotions TextFacts StripFacts PatternFacts LoopFacts CollapseFacts.

(** C8.  For a document whose paragraphs hold no line terminator, the
    text [read_word_doc] returns never has two line terminators in a row:
    a blank paragraph is dropped when the kept output already ends in a
    blank line, and the final [replace] removes the doubled terminators
    that are left. *)
Theorem no_consecutive_terminators (paras : list pystr) :
  Forall (fun p => ~ In NL p) paras ->
  ~ occurs [NL; NL] (clean_text paras).
Proof.
  intros H. apply contains_false. rewrite (clean_text_kept H).
  destruct (keep_invariant (kept := []) H (Forall_nil _) eq_refl) as [Hs _].
  apply no_double_squeezed. now apply settled_nl_free.
Qed.

(** C7.  Normalisation is idempotent: for a document whose paragraphs hold
    no line terminator, splitting the normalised text into its lines and
    normalising these again gives the same text. *)
Theorem normalization_idempotent (paras : list pystr) :
  Forall (fun p => ~ In NL p) paras ->
  clean_text (reparagraph (clean_text paras)) = clean_text paras.
Proof.
  intros H. rewrite (clean_text_kept H).
  destruct (keep_invariant (kept := []) H (Forall_nil _) eq_refl) as [Hs _].
  unfold reparagraph. rewrite splitlines_terminated.
  - now apply clean_text_settled.
  - apply Forall_squeeze. now apply settled_nl_free.
Qed.
End NormalizerClaims.

(** * The JSON decoder *)

Module DecodeFacts.
Import Text Values JsonDecode TextFacts.

Ltac break_in H :=
  match type of H with
  | context [match ?x with _ => _ end] => destruct x eqn:?
  end.

Ltac scanned H :=
  match type of H with
  | Scanned _ _ _ = Scanned _ _ _ => injection H as <- <- <-
  end.

Lemma skip_ws_le (pos : nat) (s : pystr) (pos' : nat) (s' : pystr) :
  skip_ws pos s = (pos', s') -> length s' <= length s.
Proof.
  revert pos; induction s as [|c s IH]; intros pos H; cbn [skip_ws] in H.
  - injection H as <- <-. lia.
  - destruct (is_ws c).
    + apply IH in H. simpl. lia.
    + injection H as <- <-. lia.
Qed.

(** A string that is scanned ends with its closing quote: the text
    behind it is shorter. *)
Lemma scanstring_consumes (n : nat) :
  forall (s : pystr) (b pos : nat) (acc k : pystr) (p : nat) (r : pystr),
    length s <= n ->
    scanstring b pos acc s = Scanned k p r -> length r < length s.
Proof.
  induction n as [|n IH]; intros s b pos acc k p r Hn H.
  - destruct s; [discriminate | simpl in Hn; lia].
  - destruct s as [|c s]; [discriminate|]. cbn [scanstring] in H.
    repeat (break_in H; try discriminate; try scanned H; subst);
      simpl length in *; try lia;
      match goal with
      | H : scanstring _ _ _ ?t = Scanned _ _ _ |- _ =>
        apply IH in H; simpl length in *; lia
      end.
Qed.

Lemma scanstring_not_exhausted (s : pystr) :
  forall (b pos : nat) (acc : pystr), scanstring b pos acc s <> Exhausted.
Proof.
  induction s as [s IH] using (induction_ltof1 _ (@length char)).
  unfold ltof in IH. intros b pos acc H.
  destruct s as [|c s]; [discriminate|]. cbn [scanstring] in H.
  repeat (break_in H; try discriminate; subst);
    match goal with
    | H : scanstring _ _ _ ?t = Exhausted |- _ =>
      apply IH in H; [exact H | simpl; lia]
    end.
Qed.

Lemma take_digits_le (s ds r : pystr) :
  take_digits s = (ds, r) -> length r <= length s.
Proof.
  revert ds r; induction s as [|c s IH]; intros ds r H; cbn [take_digits] in H.
  - injection H as <- <-. lia.
  - destruct (is_digit c).
    + destruct (take_digits s) as [ds' r'] eqn:E. injection H as <- <-.
      specialize (IH _ _ eq_refl). simpl. lia.
    + injection H as <- <-. lia.
Qed.

Lemma take_integer_lt (s ds r : pystr) :
  take_integer s = Some (ds, r) -> length r < length s.
Proof.
  destruct s as [|c s]; [discriminate|]. cbn [take_integer].
  destruct (char_eqb c (ch "0")).
  - intros [= <- <-]. simpl. lia.
  - destruct (is_digit c); [|discriminate].
    destruct (take_digits s) as [ds' r'] eqn:E. intros [= <- <-].
    apply take_digits_le in E. simpl. lia.
Qed.

Lemma take_fraction_le (s ds r : pystr) :
  take_fraction s = (ds, r) -> length r <= length s.
Proof.
  unfold take_fraction. intros H.
  repeat (break_in H; subst); try (injection H as <- <-); simpl length in *; try lia;
    match goal with
    | E : take_digits _ = _ |- _ => apply take_digits_le in E; simpl length in *; lia
    end.
Qed.

Lemma take_exponent_le (s ds r : pystr) :
  take_exponent s = (ds, r) -> length r <= length s.
Proof.
  unfold take_exponent. intros H.
  repeat (break_in H; subst); try (injection H as <- <-); simpl length in *; try lia;
    match goal with
    | E : take_digits _ = _ |- _ => apply take_digits_le in E; simpl length in *; lia
    end.
Qed.

Lemma match_number_consumes (pos : nat) (s : pystr) (v : pyval) (p : nat) (r : pystr) :
  match_number pos s = Scanned v p r -> length r < length s.
Proof.
  unfold match_number. intros H.
  destruct (match s with
            | [] => ([], s)
            | c :: s' => if char_eqb c (ch "-") then ([c], s') else ([], s)
            end) as [sign s0] eqn:E0.
  assert (length s0 <= length s) as H0.
  { destruct s as [|c s']; [injection E0 as <- <-; lia|].
    destruct (char_eqb c (ch "-")); injection E0 as <- <-; simpl; lia. }
  destruct (take_integer s0) as [[int_part s1]|] eqn:E1; [|discriminate].
  destruct (take_fraction s1) as [frac s2] eqn:E2.
  destruct (take_exponent s2) as [expo s3] eqn:E3.
  injection H as _ _ <-.
  apply take_integer_lt in E1. apply take_fraction_le in E2.
  apply take_exponent_le in E3. lia.
Qed.

Lemma match_number_not_exhausted (pos : nat) (s : pystr) :
  match_number pos s <> Exhausted.
Proof.
  unfold match_number.
  destruct (match s with
            | [] => ([], s)
            | c :: s' => if char_eqb c (ch "-") then ([c], s') else ([], s)
            end) as [sign s0].
  destruct (take_integer s0) as [[int_part s1]|]; [|discriminate].
  destruct (take_fraction s1) as [frac s2].
  destruct (take_exponent s2) as [expo s3]. discriminate.
Qed.

Lemma startswith_length (pat s : pystr) :
  startswith pat s = true -> length pat <= length s.
Proof.
  intros H. apply startswith_spec in H as [post ->]. rewrite length_app. lia.
Qed.

Lemma keyword_consumes (word : string) (v0 : pyval) (pos : nat) (s : pystr)
      (v : pyval) (p : nat) (r : pystr) :
  utf8 word <> [] ->
  keyword word v0 pos s = Some (Scanned v p r) -> length r < length s.
Proof.
  unfold keyword. intros Hw. destruct (startswith (utf8 word) s) eqn:E; [|discriminate].
  intros [= _ _ <-]. apply startswith_length in E. rewrite length_skipn.
  destruct (utf8 word); [congruence | simpl in *; lia].
Qed.

Lemma keyword_answers (word : string) (v0 : pyval) (pos : nat) (s : pystr) :
  keyword word v0 pos s <> Some Exhausted /\
  forall m p, keyword word v0 pos s <> Some (Failed m p).
Proof.
  unfold keyword. destruct (startswith (utf8 word) s); split; try intros m p; discriminate.
Qed.

Lemma scan_scalar_consumes (pos : nat) (s : pystr) (v : pyval) (p : nat) (r : pystr) :
  scan_scalar pos s = Scanned v p r -> length r < length s.
Proof.
  unfold scan_scalar, orelse. intros H.
  repeat match type of H with
         | context [match keyword ?w ?v0 pos s with _ => _ end] =>
           destruct (keyword w v0 pos s) eqn:?; [subst|]
         end;
    try (eapply keyword_consumes; [|eassumption]; discriminate).
  now apply match_number_consumes in H.
Qed.

Lemma scan_scalar_not_exhausted (pos : nat) (s : pystr) :
  scan_scalar pos s <> Exhausted.
Proof.
  unfold scan_scalar, orelse. intros H.
  repeat match type of H with
         | context [match keyword ?w ?v0 pos s with _ => _ end] =>
           destruct (keyword w v0 pos s) eqn:?; [subst|]
         end;
    try match goal with
        | E : keyword _ _ _ _ = Some Exhausted |- _ =>
          exact (proj1 (keyword_answers _ _ _ _) E)
        end.
  now apply match_number_not_exhausted in H.
Qed.

Lemma scanstring_lt (s : pystr) (b pos : nat) (acc k : pystr) (p : nat) (r : pystr) :
  scanstring b pos acc s = Scanned k p r -> length r < length s.
Proof. now apply (@scanstring_consumes (length s)). Qed.

Ltac lengths :=
  repeat match goal with
         | E : skip_ws _ _ = (_, _) |- _ => apply skip_ws_le in E
         | E : scanstring _ _ _ _ = Scanned _ _ _ |- _ => apply scanstring_lt in E
         | E : scan_scalar _ _ = Scanned _ _ _ |- _ => apply scan_scalar_consumes in E
         end.

(** Whatever the three scanners return leaves a shorter text behind. *)
Lemma scanners_consume (f : nat) :
  (forall pos s v p r, scan_once f pos s = Scanned v p r -> length r < length s)
  /\ (forall q s pairs v p r,
        object_loop f q s pairs = Scanned v p r -> length r < length s)
  /\ (forall pos s vals v p r,
        array_loop f pos s vals = Scanned v p r -> length r < length s).
Proof.
  induction f as [|f (IHs & IHo & IHa)]; [repeat split; discriminate|].
  repeat split.
  - intros pos s v p r H. cbn [scan_once] in H.
    repeat (break_in H; try discriminate; try scanned H; subst); lengths;
      try (apply IHo in H); try (apply IHa in H); try (apply scan_scalar_consumes in H);
      simpl length in *; lia.
  - intros q s pairs v p r H. cbn [object_loop] in H.
    repeat (break_in H; try discriminate; try scanned H; subst); lengths;
      repeat match goal with
             | E : scan_once f _ _ = Scanned _ _ _ |- _ => apply IHs in E
             end;
      try (apply IHo in H); simpl length in *; lia.
  - intros pos s vals v p r H. cbn [array_loop] in H.
    repeat (break_in H; try discriminate; try scanned H; subst); lengths;
      repeat match goal with
             | E : scan_once f _ _ = Scanned _ _ _ |- _ => apply IHs in E
             end;
      try (apply IHa in H); simpl length in *; lia.
Qed.

Lemma scan_once_consumes (f pos : nat) (s : pystr) (v : pyval) (p : nat) (r : pystr) :
  scan_once f pos s = Scanned v p r -> length r < length s.
Proof. apply scanners_consume. Qed.

(** With two calls to spare for every character, none of the scanners
    runs out of calls. *)
Lemma scanners_not_exhausted (f : nat) :
  (forall pos s, 2 * length s + 1 <= f -> scan_once f pos s <> Exhausted)
  /\ (forall q s pairs, 2 * length s + 2 <= f -> object_loop f q s pairs <> Exhausted)
  /\ (forall pos s vals, 2 * length s + 2 <= f -> array_loop f pos s vals <> Exhausted).
Proof.
  induction f as [|f (IHs & IHo & IHa)]; [repeat split; intros; lia|].
  repeat split.
  - intros pos s Hf H. cbn [scan_once] in H.
    repeat (break_in H; try discriminate; subst); lengths;
      try (eapply scanstring_not_exhausted; eassumption);
      try (eapply scan_scalar_not_exhausted; eassumption);
      try (apply IHo in H; [exact H | simpl length in *; lia]);
      try (apply IHa in H; [exact H | simpl length in *; lia]).
  - intros q s pairs Hf H. cbn [object_loop] in H.
    repeat (break_in H; try discriminate; subst);
      try (eapply scanstring_not_exhausted; eassumption);
      lengths;
      repeat match goal with
             | E : scan_once f _ _ = Scanned _ _ _ |- _ => apply scan_once_consumes in E
             end;
      try (apply IHo in H; [exact H | simpl length in *; lia]);
      try match goal with
          | E : scan_once f _ _ = Exhausted |- _ =>
            apply IHs in E; [exact E | simpl length in *; lia]
          end.
  - intros pos s vals Hf H. cbn [array_loop] in H.
    repeat (break_in H; try discriminate; subst); lengths;
      repeat match goal with
             | E : scan_once f _ _ = Scanned _ _ _ |- _ => apply scan_once_consumes in E
             end;
      try (apply IHa in H; [exact H | simpl length in *; lia]);
      try match goal with
          | E : scan_once f _ _ = Exhausted |- _ =>
            apply IHs in E; [exact E | simpl length in *; lia]
          end.
Qed.

(** [loads] never gives up for lack of calls: what it returns is the
    decoded value or a [JSONDecodeError]. *)
Lemma loads_fuel_enough (s : pystr) :
  let (p0, r0) := skip_ws 0 s in scan_once (fuel_for s) p0 r0 <> Exhausted.
Proof.
  destruct (skip_ws 0 s) as [p0 r0] eqn:E. apply skip_ws_le in E.
  apply scanners_not_exhausted. unfold fuel_for. lia.
Qed.

Lemma loads_not_recursion_error (s : pystr) : loads s <> inl RecursionError.
Proof.
  unfold loads. pose proof (loads_fuel_enough s) as H.
  destruct (startswith [BOM] s); [discriminate|].
  destruct (skip_ws 0 s) as [p0 r0].
  destruct (scan_once (fuel_for s) p0 r0) as [v p r|m p|]; [| discriminate | congruence].
  destruct (skip_ws p r) as [p1 [|c r1]]; discriminate.
Qed.
End DecodeFacts.

(** * One row *)

Module RowFacts.
Import Text Values World Program Notions RowNotions TextFacts.

Lemma posts_app (t u : list event) : posts (t ++ u) = posts t ++ posts u.
Proof. unfold posts. apply flat_map_app. Qed.

(** The body of the [try], step by step. *)
Lemma try_row_steps (w : world) (row : Series) (fc url auth : pystr) (t : list event) :
  try_row w row fc url auth t =
  match build_query row with
  | inl e => (inl e, t)
  | inr q =>
    let req := build_request q fc url auth in
    (match reply_to w t req with
     | inl e => inl e
     | inr j => extract j
     end, t ++ [Post req])
  end.
Proof.
  unfold try_row, bindE, bind, lift, ret, post, reply_to.
  destruct (build_query row) as [e|q]; [reflexivity|]. cbn.
  destruct (decode_reply _); reflexivity.
Qed.

(** The handler: what the body raised becomes the failure record. *)
Lemma process_excel_row_steps (w : world) (row : Series) (fc url auth : pystr)
      (t : list event) :
  process_excel_row w row fc url auth t =
  match try_row w row fc url auth t with
  | (inr outcome, t') => (outcome, t')
  | (inl e, t') => (failure_record e, t' ++ [Log ERROR (row_failed ++ exn_str e) []])
  end.
Proof.
  unfold process_excel_row, bind.
  destruct (try_row w row fc url auth t) as [[e|o] t']; reflexivity.
Qed.


(** Every outcome is one of the two records. *)
Lemma outcome_cases (w : world) (row : Series) (fc url auth : pystr) (t : list event) :
  (exists e, step_fails w row fc url auth t e
             /\ fst (process_excel_row w row fc url auth t) = failure_record e)
  \/ (exists q j o, build_query row = inr q
        /\ reply_to w t (build_request q fc url auth) = inr j
        /\ extract j = inr o
        /\ fst (process_excel_row w row fc url auth t) = o).
Proof.
  rewrite process_excel_row_steps, try_row_steps. unfold step_fails.
  destruct (build_query row) as [e|q] eqn:Hq.
  - left. exists e. split; [now left | reflexivity].
  - cbn zeta. destruct (reply_to w t (build_request q fc url auth)) as [e|j] eqn:Hj.
    + left. exists e. split; [|reflexivity]. right. left. now exists q.
    + destruct (extract j) as [e|o] eqn:Ho.
      * left. exists e. split; [|reflexivity]. right. right. now exists q, j.
      * right. now exists q, j, o.
Qed.

Lemma skipn_prefix (A : Type) (pre rest : list A) :
  skipn (length pre) (pre ++ rest) = rest.
Proof. induction pre; simpl; auto. Qed.

Lemma firstn_prefix (A : Type) (pre rest : list A) :
  firstn (length pre) (pre ++ rest) = pre.
Proof. induction pre; simpl; [reflexivity | now f_equal]. Qed.

(** The search finds the first fenced block. *)
Lemma search_fence_first (answer body : pystr) :
  first_fenced_block answer body -> search_fence answer = Some body.
Proof.
  intros (pre & post & -> & Hopen & Hclose). unfold search_fence.
  apply find_first_at in Hopen. rewrite Hopen.
  rewrite <- length_app, app_assoc, skipn_prefix.
  apply find_first_at in Hclose. rewrite Hclose.
  now rewrite firstn_prefix.
Qed.

Lemma extract_first_block (j : pyval) (answer body : pystr) :
  answer_field j = inr (PStr answer) -> first_fenced_block answer body ->
  extract j = read_result body.
Proof.
  intros Ha Hb. unfold extract. rewrite Ha. now rewrite (search_fence_first Hb).
Qed.

Lemma row_outcome (w : world) (row : Series) (fc url auth : pystr) (t : list event)
      (q : pystr) (j : pyval) :
  build_query row = inr q ->
  reply_to w t (build_request q fc url auth) = inr j ->
  fst (process_excel_row w row fc url auth t) =
  match extract j with inr o => o | inl e => failure_record e end.
Proof.
  intros Hq Hj. rewrite process_excel_row_steps, try_row_steps, Hq. cbn zeta.
  rewrite Hj. now destruct (extract j).
Qed.
End RowFacts.

Module RowClaims.
Import Text Values World Program Notions RowNotions TextFacts RowFacts Examples.

Lemma read_result_dict (body : pystr) (d : dict) :
  JsonDecode.loads (strip body) = inr (PDict d) ->
  read_result body =
  inr (success_record (get_or d K_summary (PStr NOT_EXTRACTED))
                      (get_or d K_clause_id (PStr NOT_EXTRACTED))
                      (get_or d K_clause_text (PStr NOT_EXTRACTED))).
Proof.
  intros H. unfold read_result, method_get, get_or. rewrite H.
  destruct (dict_lookup d K_summary), (dict_lookup d K_clause_id),
    (dict_lookup d K_clause_text); reflexivity.
Qed.

Lemma read_result_other (body : pystr) (v : pyval) :
  JsonDecode.loads (strip body) = inr v -> (forall d, v <> PDict d) ->
  read_result body =
  inl (AttributeError (utf8 "'" ++ type_name v ++ utf8 "' object has no attribute 'get'")).
Proof.
  intros H Hv. unfold read_result. rewrite H.
  destruct v; try reflexivity. now destruct (Hv pairs).
Qed.

Lemma read_result_inv (body : pystr) (o : dict) :
  read_result body = inr o ->
  exists d, JsonDecode.loads (strip body) = inr (PDict d)
            /\ o = success_record (get_or d K_summary (PStr NOT_EXTRACTED))
                                  (get_or d K_clause_id (PStr NOT_EXTRACTED))
                                  (get_or d K_clause_text (PStr NOT_EXTRACTED)).
Proof.
  intros H. destruct (JsonDecode.loads (strip body)) as [e|v] eqn:E.
  - unfold read_result in H. rewrite E in H. discriminate.
  - destruct v; try (unfold read_result in H; rewrite E in H; discriminate).
    exists pairs. split; [reflexivity|].
    rewrite (read_result_dict _ E) in H. now injection H as <-.
Qed.

Lemma extract_inv (j : pyval) (o : dict) :
  extract j = inr o ->
  exists answer body d,
    answer_field j = inr (PStr answer) /\ search_fence answer = Some body
    /\ JsonDecode.loads (strip body) = inr (PDict d)
    /\ o = success_record (get_or d K_summary (PStr NOT_EXTRACTED))
                          (get_or d K_clause_id (PStr NOT_EXTRACTED))
                          (get_or d K_clause_text (PStr NOT_EXTRACTED)).
Proof.
  unfold extract. intros H.
  destruct (answer_field j) as [e|[| | | |answer| | |]]; try discriminate.
  destruct (search_fence answer) as [body|] eqn:Hs; [|discriminate].
  apply read_result_inv in H as (d & Hd & Ho). now exists answer, body, d.
Qed.

Lemma failure_record_shape (e : exn) :
  let o := failure_record e in
  (is_success o /\ ~ is_failure o) \/ (is_failure o /\ ~ is_success o).
Proof.
  cbn zeta. unfold is_success, is_failure.
  change (dict_lookup (failure_record e) K_error) with (Some (PStr (exn_str e))).
  destruct (exn_str e) as [|c s] eqn:E.
  - left. split; [reflexivity|]. intros [(d & Hd & H) _]. now injection H as <-.
  - right. split; [|discriminate]. split; [|repeat split].
    exists (c :: s). split; [discriminate | reflexivity].
Qed.

Lemma success_record_shape (a b c : pyval) :
  let o := success_record a b c in is_success o /\ ~ is_failure o.
Proof.
  cbn zeta. unfold is_success, is_failure.
  change (dict_lookup (success_record a b c) K_error) with (Some (PStr [])).
  split; [reflexivity|]. intros [(d & Hd & H) _]. now injection H as <-.
Qed.

Lemma failure_record_strings (e : exn) :
  Forall (string_field (failure_record e)) output_columns.
Proof.
  repeat constructor; [exists FAILED | exists FAILED | exists FAILED | exists (exn_str e)];
    reflexivity.
Qed.

Lemma failure_record_told (e : exn) :
  (exn_str e <> [] -> is_failure (failure_record e) /\ ~ is_success (failure_record e))
  /\ (exn_str e = [] -> is_success (failure_record e) /\ ~ is_failure (failure_record e)).
Proof.
  unfold is_success, is_failure.
  change (dict_lookup (failure_record e) K_error) with (Some (PStr (exn_str e))).
  split.
  - intros Hne. split.
    + split; [|repeat split]. now exists (exn_str e).
    + intros H. injection H as H. contradiction.
  - intros ->. split; [reflexivity|]. intros [(d & Hd & H) _]. now injection H as <-.
Qed.

(** C3, as amended.  Every outcome of [process_excel_row] has exactly the
    four fields, in their order, and its [error] field is a string.  It
    is either the failure record of the exception one of the three steps
    raised, whose four fields are strings (the sentinel three times and
    the text of the exception), or the success record of the first fenced
    block, whose [error] is empty and whose three result fields are what
    the decoded object holds under the keys (values of any JSON type) or
    the sentinel of an absent key.  Going by the [error] field, exactly
    one of the two shapes holds (an empty [error]; or a non-empty [error]
    and the three sentinels): the first for every success record and for
    the failure record of an exception without a message, the second for
    every other failure record. *)
Theorem outcome_shape (w : world) (row : Series) (fc url auth : pystr) (t : list event) :
  let o := fst (process_excel_row w row fc url auth t) in
  map fst o = output_columns
  /\ string_field o K_error
  /\ ((is_success o /\ ~ is_failure o) \/ (is_failure o /\ ~ is_success o))
  /\ ((exists e, step_fails w row fc url auth t e
                 /\ o = failure_record e
                 /\ Forall (string_field o) output_columns
                 /\ (exn_str e <> [] -> is_failure o /\ ~ is_success o)
                 /\ (exn_str e = [] -> is_success o /\ ~ is_failure o))
      \/ (exists q j answer body d,
             build_query row = inr q
             /\ reply_to w t (build_request q fc url auth) = inr j
             /\ answer_field j = inr (PStr answer)
             /\ search_fence answer = Some body
             /\ JsonDecode.loads (strip body) = inr (PDict d)
             /\ o = success_record (get_or d K_summary (PStr NOT_EXTRACTED))
                                   (get_or d K_clause_id (PStr NOT_EXTRACTED))
                                   (get_or d K_clause_text (PStr NOT_EXTRACTED))
             /\ is_success o /\ ~ is_failure o)).
Proof.
  cbn zeta.
  destruct (outcome_cases w row fc url auth t)
    as [(e & He & ->) | (q & j & o & Hq & Hj & Ho & ->)].
  - repeat split.
    + now exists (exn_str e).
    + apply failure_record_shape.
    + left. exists e. split; [exact He | split; [reflexivity | split]].
      * apply failure_record_strings.
      * apply failure_record_told.
  - apply extract_inv in Ho as (answer & body & d & Ha & Hs & Hd & ->).
    repeat split.
    + now exists [].
    + left. apply success_record_shape.
    + right. exists q, j, answer, body, d. repeat split; try assumption.
      * intros H. now apply success_record_shape in H.
Qed.
End RowClaims.

Module AnswerClaims.
Import Text Values World Program Notions RowNotions TextFacts RowFacts Examples RowClaims.

Lemma get_or_found (d : dict) (k : pystr) (v default : pyval) :
  dict_lookup d k = Some v -> get_or d k default = v.
Proof. unfold get_or. now intros ->. Qed.

(** C5, as amended.  When the first fenced block of the Answer (leftmost
    opening fence, nearest closing fence behind it) holds, once trimmed,
    a JSON object with the three keys, the row's outcome is the success
    record with exactly those three values and an empty [error]. *)
Theorem first_block_round_trip
        (w : world) (row : Series) (fc url auth : pystr) (t : list event)
        (q : pystr) (j : pyval) (answer body : pystr) (d : dict)
        (summary clause_id clause_text : pyval) :
  build_query row = inr q ->
  reply_to w t (build_request q fc url auth) = inr j ->
  answer_field j = inr (PStr answer) ->
  first_fenced_block answer body ->
  JsonDecode.loads (strip body) = inr (PDict d) ->
  dict_lookup d K_summary = Some summary ->
  dict_lookup d K_clause_id = Some clause_id ->
  dict_lookup d K_clause_text = Some clause_text ->
  fst (process_excel_row w row fc url auth t) =
  [(K_summary, summary); (K_clause_id, clause_id);
   (K_clause_text, clause_text); (K_error, PStr [])].
Proof.
  intros Hq Hj Ha Hb Hd H1 H2 H3.
  rewrite (@row_outcome _ _ _ _ _ _ _ _ Hq Hj), (@extract_first_block _ _ _ Ha Hb).
  rewrite (@read_result_dict _ _ Hd).
  now rewrite (@get_or_found _ _ _ _ H1), (@get_or_found _ _ _ _ H2), (@get_or_found _ _ _ _ H3).
Qed.

(** C6, as amended.  When the first fenced block of the Answer decodes to
    the empty object, the outcome is the success record with the three
    fields set to the sentinel for "not extracted". *)
Theorem first_block_empty_object
        (w : world) (row : Series) (fc url auth : pystr) (t : list event)
        (q : pystr) (j : pyval) (answer body : pystr) :
  build_query row = inr q ->
  reply_to w t (build_request q fc url auth) = inr j ->
  answer_field j = inr (PStr answer) ->
  first_fenced_block answer body ->
  JsonDecode.loads (strip body) = inr (PDict []) ->
  fst (process_excel_row w row fc url auth t) =
  [(K_summary, PStr NOT_EXTRACTED); (K_clause_id, PStr NOT_EXTRACTED);
   (K_clause_text, PStr NOT_EXTRACTED); (K_error, PStr [])].
Proof.
  intros Hq Hj Ha Hb Hd.
  rewrite (@row_outcome _ _ _ _ _ _ _ _ Hq Hj), (@extract_first_block _ _ _ Ha Hb).
  now rewrite (@read_result_dict _ _ Hd).
Qed.

(** C10.  When the fenced block that the search finds decodes to a JSON
    value that is not an object, reading the keys raises, and the outcome
    is the failure record, not a success record of sentinels. *)
Theorem non_object_is_failure
        (w : world) (row : Series) (fc url auth : pystr) (t : list event)
        (q : pystr) (j : pyval) (answer body : pystr) (v : pyval) :
  build_query row = inr q ->
  reply_to w t (build_request q fc url auth) = inr j ->
  answer_field j = inr (PStr answer) ->
  first_fenced_block answer body ->
  JsonDecode.loads (strip body) = inr v ->
  (forall d, v <> PDict d) ->
  fst (process_excel_row w row fc url auth t) =
  [(K_summary, PStr FAILED); (K_clause_id, PStr FAILED);
   (K_clause_text, PStr FAILED);
   (K_error, PStr (utf8 "'" ++ type_name v ++ utf8 "' object has no attribute 'get'"))].
Proof.
  intros Hq Hj Ha Hb Hv Hnd.
  rewrite (@row_outcome _ _ _ _ _ _ _ _ Hq Hj), (@extract_first_block _ _ _ Ha Hb).
  now rewrite (@read_result_other _ _ Hv Hnd).
Qed.

(** A block given by what stands before and behind it is the first one
    when [find] says so. *)
Lemma first_fenced_block_by_find (pre body post : pystr) :
  find fence_open (pre ++ fence_open ++ body ++ fence_close ++ post) = Some (length pre) ->
  find fence_close (body ++ fence_close ++ post) = Some (length body) ->
  first_fenced_block (pre ++ fence_open ++ body ++ fence_close ++ post) body.
Proof.
  intros H1 H2. exists pre, post. repeat split.
  - now apply find_first_at in H1 as [].
  - now apply find_first_at in H1 as [].
  - now apply find_first_at in H2 as [].
  - now apply find_first_at in H2 as [].
Qed.
End AnswerClaims.

(** * One spreadsheet *)

Module TableFacts.
Import Text Values World Program Notions RowNotions TextFacts RowFacts RowClaims TableNotions.

Lemma index_of_In (c : pystr) (cols : list pystr) (n : nat) :
  index_of c cols = Some n -> In c cols.
Proof.
  revert n; induction cols as [|c' cols IH]; intros n; simpl; [discriminate|].
  destruct (str_eqb c' c) eqn:E.
  - apply str_eqb_eq in E. now left.
  - destruct (index_of c cols) as [k|]; [|discriminate]. intros _. right. now apply (IH k).
Qed.

Lemma index_of_absent (c : pystr) (cols : list pystr) :
  ~ In c cols -> index_of c cols = None.
Proof.
  induction cols as [|c' cols IH]; intros H; simpl; [reflexivity|].
  destruct (str_eqb c' c) eqn:E.
  - apply str_eqb_eq in E. exfalso. apply H. now left.
  - rewrite IH; [reflexivity|]. intros Hin. apply H. now right.
Qed.

Lemma index_of_present (c : pystr) (cols : list pystr) :
  In c cols -> exists n, index_of c cols = Some n /\ n < length cols.
Proof.
  induction cols as [|c' cols IH]; intros H; [destruct H|]. simpl.
  destruct (str_eqb c' c) eqn:E.
  - exists 0. split; [reflexivity | lia].
  - destruct H as [->|H]; [now rewrite str_eqb_refl in E|].
    destruct (IH H) as (n & -> & Hn). exists (S n). split; [reflexivity | lia].
Qed.

(** A label that is not among [cols] is found behind them. *)
Lemma index_of_behind (c : pystr) (cols more : list pystr) :
  ~ In c cols ->
  index_of c (cols ++ more) = option_map (Nat.add (length cols)) (index_of c more).
Proof.
  induction cols as [|c' cols IH]; intros H; simpl.
  - now destruct (index_of c more).
  - destruct (str_eqb c' c) eqn:E.
    + apply str_eqb_eq in E. exfalso. apply H. now left.
    + rewrite IH; [|intros Hin; apply H; now right].
      now destruct (index_of c more).
Qed.

Lemma set_nth_length (n : nat) (v : pyval) (r : list pyval) :
  length (set_nth n v r) = length r.
Proof.
  revert n; induction r as [|x r IH]; intros [|n]; simpl; auto.
Qed.

Lemma set_nth_behind (r o : list pyval) (k : nat) (v : pyval) :
  set_nth (length r + k) v (r ++ o) = r ++ set_nth k v o.
Proof. induction r as [|x r IH]; simpl; [reflexivity | now rewrite IH]. Qed.

Lemma update_row_length (i : nat) (f : list pyval -> list pyval) (rs : list (list pyval)) :
  length (update_row i f rs) = length rs.
Proof. revert i; induction rs as [|r rs IH]; intros [|i]; simpl; auto. Qed.

Lemma update_row_Forall2 (R : list pyval -> list pyval -> Prop)
      (f : list pyval -> list pyval) (i : nat) (l l' : list (list pyval)) :
  (forall a b, R a b -> R a (f b)) ->
  Forall2 R l l' -> Forall2 R l (update_row i f l').
Proof.
  intros Hf H. revert i. induction H as [|a b l l' Hab H IH]; intros i.
  - destruct i; constructor.
  - destruct i; simpl; constructor; auto.
Qed.

Lemma extends_set_nth (n k : nat) (v : pyval) (r r' : list pyval) :
  extends n r r' -> extends n r (set_nth (n + k) v r').
Proof.
  intros (Hn & o & -> & Ho). split; [assumption|].
  exists (set_nth k v o). rewrite <- Hn, set_nth_behind.
  split; [reflexivity | now rewrite set_nth_length].
Qed.

(** [result_df.at[idx, col] = v] for one of the four columns keeps the
    shape of the frame. *)
Lemma set_at_shaped (df rdf : DataFrame) (idx : nat) (col : pystr) (v : pyval) :
  shaped df rdf -> In col output_columns -> ~ In col (columns df) ->
  shaped df (set_at rdf idx col v).
Proof.
  intros [Hc Hr] Hin Hnot. unfold set_at. rewrite Hc, index_of_behind by exact Hnot.
  destruct (@index_of_present col output_columns Hin) as (k & -> & _). simpl.
  split; [reflexivity|]. simpl. apply update_row_Forall2; [|exact Hr].
  intros a b. apply extends_set_nth.
Qed.

Lemma store_result_shaped (df : DataFrame) (outcome : dict) (idx : nat) (cols : list pystr) :
  (forall c, In c output_columns -> ~ In c (columns df)) ->
  (forall c, In c cols -> In c output_columns) ->
  (forall c, In c cols -> exists v, dict_lookup outcome c = Some v) ->
  forall rdf, shaped df rdf ->
  exists rdf', store_result cols outcome idx rdf = inr rdf' /\ shaped df rdf'.
Proof.
  intros Hfresh. induction cols as [|c cols IH]; intros Hsub Hkeys rdf Hs.
  - now exists rdf.
  - simpl. destruct (Hkeys c (or_introl eq_refl)) as [v ->].
    apply IH.
    + intros c' Hc'. apply Hsub. now right.
    + intros c' Hc'. apply Hkeys. now right.
    + apply set_at_shaped; [assumption | apply Hsub; now left | apply Hfresh, Hsub; now left].
Qed.

Lemma dict_lookup_key (d : dict) (k : pystr) :
  In k (map fst d) -> exists v, dict_lookup d k = Some v.
Proof.
  induction d as [|[k' v'] d IH]; simpl; [tauto|]. intros [->|H].
  - rewrite str_eqb_refl. now exists v'.
  - destruct (str_eqb k' k); [now exists v' | now apply IH].
Qed.

(** What [process_excel_row] returns is one of the two records. *)
Lemma outcome_is_record (w : world) (row : Series) (fc url auth : pystr) (t : list event) :
  (exists e, fst (process_excel_row w row fc url auth t) = failure_record e)
  \/ (exists a b c, fst (process_excel_row w row fc url auth t) = success_record a b c).
Proof.
  destruct (outcome_cases w row fc url auth t)
    as [(e & _ & ->) | (q & j & o & _ & _ & Ho & ->)].
  - left. now exists e.
  - right. apply extract_inv in Ho as (_ & _ & d & _ & _ & _ & ->). eauto.
Qed.

(** ... so it always has the four keys that [main] reads. *)
Lemma outcome_keys (w : world) (row : Series) (fc url auth : pystr) (t : list event)
      (c : pystr) :
  In c output_columns ->
  exists v, dict_lookup (fst (process_excel_row w row fc url auth t)) c = Some v.
Proof.
  intros H. apply dict_lookup_key.
  destruct (outcome_is_record w row fc url auth t) as [(e & ->) | (a & b & c' & ->)];
    exact H.
Qed.
End TableFacts.

Module LoopRunFacts.
Import Text Values World Program Notions RowNotions TextFacts RowFacts RowClaims TableNotions TableFacts.

(** Adding columns that are all new puts them on the right, in order. *)
Lemma assign_columns_new (cols : list pystr) (v : pyval) :
  forall df, NoDup cols -> (forall c, In c cols -> ~ In c (columns df)) ->
  columns (assign_columns df cols v) = columns df ++ cols
  /\ rows (assign_columns df cols v)
     = map (fun r => r ++ repeat v (length cols)) (rows df).
Proof.
  induction cols as [|c cols IH]; intros df Hnd Hnew.
  - simpl. rewrite app_nil_r. split; [reflexivity|].
    rewrite <- (map_id (rows df)) at 1. apply map_ext. intros r. now rewrite app_nil_r.
  - unfold assign_columns. cbn [fold_left]. fold (assign_columns (assign_column df c v) cols v).
    unfold assign_column at 1 2. rewrite index_of_absent by (apply Hnew; now left).
    apply NoDup_cons_iff in Hnd as [Hc Hnd].
    destruct (IH {| columns := columns df ++ [c];
                    rows := map (fun r => r ++ [v]) (rows df) |} Hnd) as [H1 H2].
    + intros c' Hc' Hin. cbn [columns] in Hin. apply in_app_or in Hin as [Hin|[->|[]]].
      * apply (Hnew c' (or_intror Hc')). exact Hin.
      * contradiction.
    + rewrite H1, H2. cbn [columns rows]. split.
      * now rewrite <- app_assoc.
      * rewrite map_map. apply map_ext. intros r. now rewrite <- app_assoc.
Qed.

Lemma output_columns_NoDup : NoDup output_columns.
Proof.
  repeat constructor; simpl; intros H;
    repeat (destruct H as [H|H]; [discriminate|]); exact H.
Qed.

(** The frame the loop starts from. *)
Lemma initial_shaped (df : DataFrame) :
  well_formed df -> (forall c, In c output_columns -> ~ In c (columns df)) ->
  shaped df (assign_columns df output_columns (PStr [])).
Proof.
  intros [_ Hwf] Hnew.
  destruct (@assign_columns_new output_columns (PStr []) df output_columns_NoDup Hnew) as [H1 H2].
  split; [exact H1|]. rewrite H2. clear H1 H2.
  induction Hwf as [|r rs Hr _ IH]; simpl; constructor; [|exact IH].
  split; [exact Hr|]. now exists (repeat (PStr []) (length output_columns)).
Qed.

(** The loop over rows that all have the cell the progress message
    reads runs to the end, whatever the service answers. *)
Lemma rows_loop_completes (w : world) (cfg : Config) (fc : pystr) (df : DataFrame) :
  (forall c, In c output_columns -> ~ In c (columns df)) ->
  forall its rdf t,
    Forall has_content its -> shaped df rdf ->
    exists final t',
      rows_loop w cfg fc its rdf t = (inr final, t')
      /\ shaped df final /\ written t' = written t.
Proof.
  intros Hnew. induction its as [|[idx row] its IH]; intros rdf t Hits Hs.
  - exists rdf, t. split; [reflexivity | split; [exact Hs | reflexivity]].
  - apply Forall_cons_iff in Hits as [[content Hc] Hits]. cbn [snd] in Hc.
    cbn [rows_loop]. rewrite Hc. unfold bind, emit.
    destruct (process_excel_row w row fc (api_url cfg) (api_auth cfg)
                (t ++ [Log INFO processing_row [PInt (Z.of_nat idx + 1); content]]))
      as [outcome t1] eqn:Hp.
    assert (forall c, In c output_columns -> exists v, dict_lookup outcome c = Some v) as Hk.
    { intros c Hin. pose proof (@outcome_keys w row fc (api_url cfg) (api_auth cfg)
        (t ++ [Log INFO processing_row [PInt (Z.of_nat idx + 1); content]]) c Hin) as H.
      now rewrite Hp in H. }
    destruct (@store_result_shaped df outcome idx output_columns Hnew (fun c H => H) Hk rdf Hs)
      as (rdf' & -> & Hs').
    destruct (IH rdf' t1 Hits Hs') as (final & t' & -> & Hf & Hw).
    exists final, t'. split; [reflexivity | split; [exact Hf|]]. rewrite Hw. clear - Hp.
    assert (written t1 = written (t ++ [Log INFO processing_row [PInt (Z.of_nat idx + 1); content]])) as ->.
    { revert Hp. generalize (t ++ [Log INFO processing_row [PInt (Z.of_nat idx + 1); content]]).
      intros t0 Hp. rewrite process_excel_row_steps, try_row_steps in Hp.
      unfold written.
      destruct (build_query row); [injection Hp as _ <-; now rewrite flat_map_app, app_nil_r|].
      cbn zeta in Hp.
      destruct (reply_to _ _ _) as [e|j]; [|destruct (extract j)];
        injection Hp as _ <-; rewrite ?flat_map_app; simpl; now rewrite ?app_nil_r. }
    unfold written. rewrite flat_map_app. simpl. now rewrite app_nil_r.
Qed.
End LoopRunFacts.

Module TableRunFacts.
Import Text Values World Program Notions RowNotions TextFacts RowFacts RowClaims TableNotions TableFacts LoopRunFacts.

Lemma dict_lookup_combine (k : pystr) (ks : list pystr) :
  In k ks -> forall vs, length vs = length ks ->
  exists v, dict_lookup (combine ks vs) k = Some v.
Proof.
  induction ks as [|k' ks IH]; intros Hin vs Hlen; [destruct Hin|].
  destruct vs as [|v vs]; [discriminate|]. simpl.
  destruct (str_eqb k' k) eqn:E; [now exists v|].
  destruct Hin as [->|Hin]; [now rewrite str_eqb_refl in E|].
  apply IH; [assumption | now injection Hlen].
Qed.

Lemma dict_lookup_combine_absent (k : pystr) (ks : list pystr) (vs : list pyval) :
  ~ In k ks -> dict_lookup (combine ks vs) k = None.
Proof.
  revert vs; induction ks as [|k' ks IH]; intros vs H; [reflexivity|].
  destruct vs as [|v vs]; [reflexivity|]. simpl.
  destruct (str_eqb k' k) eqn:E.
  - apply str_eqb_eq in E. exfalso. apply H. now left.
  - apply IH. intros Hin. apply H. now right.
Qed.

(** [row[key]] on a row of the frame: the cell, or [KeyError] for a
    label that is no column. *)
Lemma series_get_present (df : DataFrame) (r : list pyval) (k : pystr) :
  In k (columns df) -> length r = length (columns df) ->
  exists v, series_get {| labels := columns df; cells := r |} k = inr v.
Proof.
  intros Hin Hlen. unfold series_get. cbn [labels cells].
  destruct (dict_lookup_combine _ _ Hin r Hlen) as [v ->]. now exists v.
Qed.

Lemma series_get_absent (cols : list pystr) (r : list pyval) (k : pystr) :
  ~ In k cols -> series_get {| labels := cols; cells := r |} k = inl (KeyError k).
Proof.
  intros H. unfold series_get. cbn [labels cells].
  now rewrite dict_lookup_combine_absent.
Qed.

Lemma iterrows_rows (df : DataFrame) (p : nat * Series) :
  In p (iterrows df) ->
  exists r, In r (rows df) /\ snd p = {| labels := columns df; cells := r |}.
Proof.
  destruct p as [i s]. unfold iterrows. intros H. apply in_combine_r in H.
  apply in_map_iff in H as (r & <- & Hr). now exists r.
Qed.

Lemma iterrows_have_content (df : DataFrame) :
  well_formed df -> In K_content (columns df) \/ rows df = [] ->
  Forall has_content (iterrows df).
Proof.
  intros [_ Hwf] [Hin|Hempty].
  - apply Forall_forall. intros p Hp.
    apply iterrows_rows in Hp as (r & Hr & Hp). unfold has_content. rewrite Hp.
    apply series_get_present; [assumption|].
    now apply (proj1 (Forall_forall _ _) Hwf).
  - unfold iterrows. rewrite Hempty. constructor.
Qed.

(** Without the column that the progress message reads, the first pass
    through the loop body raises, before any row is processed. *)
Lemma rows_loop_missing_content (w : world) (cfg : Config) (fc : pystr)
      (df rdf : DataFrame) (t : list event) :
  ~ In K_content (columns df) -> rows df <> [] ->
  rows_loop w cfg fc (iterrows df) rdf t = (inl (KeyError K_content), t).
Proof.
  intros Hno Hrows. unfold iterrows.
  destruct (rows df) as [|r rs]; [congruence|]. cbn [length seq map combine rows_loop].
  now rewrite series_get_absent.
Qed.
End TableRunFacts.

Module RunFacts.
Import Text Values World Program Notions RowNotions TableNotions RunNotions.
Import TextFacts RowFacts RowClaims TableFacts LoopRunFacts TableRunFacts.

Lemma written_app (t u : list event) : written (t ++ u) = written t ++ written u.
Proof. unfold written. apply flat_map_app. Qed.

Lemma logs_app (t u : list event) : logs (t ++ u) = logs t ++ logs u.
Proof. unfold logs. apply filter_app. Qed.

(** What one row adds to the trace: at most the request, then at most
    the line of the handler. *)
Lemma process_excel_row_trace (w : world) (row : Series) (fc url auth : pystr)
      (t : list event) :
  exists added,
    snd (process_excel_row w row fc url auth t) = t ++ added
    /\ written added = []
    /\ posts added = match build_query row with
                     | inr q => [build_request q fc url auth]
                     | inl _ => []
                     end.
Proof.
  rewrite process_excel_row_steps, try_row_steps.
  destruct (build_query row) as [e|q].
  - eexists. cbn [snd]. split; [reflexivity | split; reflexivity].
  - cbn zeta. destruct (reply_to _ _ _) as [e|j]; [|destruct (extract j) as [e|o]];
      cbn [snd]; rewrite <- ?app_assoc; eexists; (split; [reflexivity | split; reflexivity]).
Qed.

Lemma process_excel_row_written (w : world) (row : Series) (fc url auth : pystr)
      (t : list event) :
  written (snd (process_excel_row w row fc url auth t)) = written t.
Proof.
  destruct (process_excel_row_trace w row fc url auth t) as (added & -> & Hw & _).
  now rewrite written_app, Hw, app_nil_r.
Qed.

Lemma process_excel_row_posts (w : world) (cfg : Config) (row : Series) (fc : pystr)
      (t : list event) :
  posts (snd (process_excel_row w row fc (api_url cfg) (api_auth cfg) t))
  = posts t ++ row_requests cfg fc row.
Proof.
  destruct (process_excel_row_trace w row fc (api_url cfg) (api_auth cfg) t)
    as (added & -> & _ & Hp).
  now rewrite posts_app, Hp.
Qed.

(** Storing a record that has the four keys never raises. *)
Lemma store_result_total (outcome : dict) (idx : nat) (cols : list pystr) :
  (forall c, In c cols -> exists v, dict_lookup outcome c = Some v) ->
  forall rdf, exists rdf', store_result cols outcome idx rdf = inr rdf'.
Proof.
  induction cols as [|c cols IH]; intros Hk rdf; [now exists rdf|].
  simpl. destruct (Hk c (or_introl eq_refl)) as [v ->].
  apply IH. intros c' Hc'. apply Hk. now right.
Qed.

(** One pass through the body of the loop, for a row whose content
    cell can be read. *)
Lemma rows_loop_step (w : world) (cfg : Config) (fc : pystr) (idx : nat) (row : Series)
      (rest : list (nat * Series)) (rdf : DataFrame) (t : list event) (content : pyval) :
  series_get row K_content = inr content ->
  exists rdf',
    store_result output_columns
      (fst (process_excel_row w row fc (api_url cfg) (api_auth cfg)
              (t ++ [Log INFO processing_row [PInt (Z.of_nat idx + 1); content]])))
      idx rdf = inr rdf'
    /\ rows_loop w cfg fc ((idx, row) :: rest) rdf t
       = rows_loop w cfg fc rest rdf'
           (snd (process_excel_row w row fc (api_url cfg) (api_auth cfg)
                   (t ++ [Log INFO processing_row [PInt (Z.of_nat idx + 1); content]]))).
Proof.
  intros Hc. cbn [rows_loop]. rewrite Hc. unfold bind, emit.
  destruct (process_excel_row w row fc (api_url cfg) (api_auth cfg)
              (t ++ [Log INFO processing_row [PInt (Z.of_nat idx + 1); content]]))
    as [outcome t1] eqn:Hp. cbn [fst snd].
  assert (forall c, In c output_columns -> exists v, dict_lookup outcome c = Some v) as Hk.
  { intros c Hin. pose proof (@outcome_keys w row fc (api_url cfg) (api_auth cfg)
      (t ++ [Log INFO processing_row [PInt (Z.of_nat idx + 1); content]]) c Hin) as H.
    now rewrite Hp in H. }
  destruct (@store_result_total outcome idx output_columns Hk rdf) as [rdf' E].
  exists rdf'. split; [exact E|]. now rewrite E.
Qed.

(** The requests of the loop do not depend on what the service
    answers. *)
Lemma rows_loop_posts (w : world) (cfg : Config) (fc : pystr) :
  forall its rdf t,
    posts (snd (rows_loop w cfg fc its rdf t))
    = posts t ++ flat_map (fun p => row_requests cfg fc (snd p)) (rows_reached its).
Proof.
  induction its as [|[idx row] its IH]; intros rdf t.
  - simpl. now rewrite app_nil_r.
  - cbn [rows_reached]. unfold content_readable. cbn [snd].
    destruct (series_get row K_content) as [e|content] eqn:Hc.
    + cbn [rows_loop]. rewrite Hc. simpl. now rewrite app_nil_r.
    + destruct (@rows_loop_step w cfg fc idx row its rdf t content Hc) as (rdf' & _ & ->).
      rewrite IH, process_excel_row_posts, posts_app. cbn [flat_map snd].
      simpl posts at 2. now rewrite app_nil_r, app_assoc.
Qed.

Lemma rows_loop_written (w : world) (cfg : Config) (fc : pystr) :
  forall its rdf t, written (snd (rows_loop w cfg fc its rdf t)) = written t.
Proof.
  induction its as [|[idx row] its IH]; intros rdf t; [reflexivity|].
  destruct (series_get row K_content) as [e|content] eqn:Hc.
  - cbn [rows_loop]. now rewrite Hc.
  - destruct (@rows_loop_step w cfg fc idx row its rdf t content Hc) as (rdf' & _ & ->).
    rewrite IH, process_excel_row_written, written_app. simpl. now rewrite app_nil_r.
Qed.

(** The loop ends normally exactly when every row has the content
    cell. *)
Lemma rows_loop_result (w : world) (cfg : Config) (fc : pystr) :
  forall its rdf t,
    if forallb content_readable its
    then exists final, fst (rows_loop w cfg fc its rdf t) = inr final
    else exists e, fst (rows_loop w cfg fc its rdf t) = inl e.
Proof.
  induction its as [|[idx row] its IH]; intros rdf t.
  - simpl. now exists rdf.
  - cbn [forallb]. unfold content_readable at 1. cbn [snd].
    destruct (series_get row K_content) as [e|content] eqn:Hc.
    + cbn [rows_loop andb]. rewrite Hc. now exists e.
    + destruct (@rows_loop_step w cfg fc idx row its rdf t content Hc) as (rdf' & _ & ->).
      cbn [andb]. apply IH.
Qed.

Lemma process_table_posts (w : world) (cfg : Config) (wp : Path) (fc : pystr)
      (t : list event) :
  posts (snd (process_table w cfg wp fc t))
  = posts t ++ match read_excel w (excel_path cfg) with
               | inr df => flat_map (fun p => row_requests cfg fc (snd p))
                                    (rows_reached (iterrows df))
               | inl _ => []
               end.
Proof.
  unfold process_table. destruct (read_excel w (excel_path cfg)) as [e|df].
  - unfold emit. cbn [snd]. now rewrite posts_app.
  - unfold bind.
    pose proof (rows_loop_posts w cfg fc (iterrows df)
                  (assign_columns df output_columns (PStr [])) t) as H.
    destruct (rows_loop w cfg fc (iterrows df) _ t) as [[e|final] t']; cbn [snd] in H;
      unfold emit; cbn [snd]; rewrite !posts_app, H; simpl; now rewrite !app_nil_r.
Qed.

Lemma process_table_written (w : world) (cfg : Config) (wp : Path) (fc : pystr)
      (t : list event) :
  map fst (written (snd (process_table w cfg wp fc t)))
  = map fst (written t) ++ (if table_complete w cfg then [output_path wp] else []).
Proof.
  unfold process_table, table_complete.
  destruct (read_excel w (excel_path cfg)) as [e|df].
  - unfold emit. cbn [snd]. rewrite written_app. simpl. now rewrite !app_nil_r.
  - unfold bind.
    pose proof (rows_loop_written w cfg fc (iterrows df)
                  (assign_columns df output_columns (PStr [])) t) as Hw.
    pose proof (rows_loop_result w cfg fc (iterrows df)
                  (assign_columns df output_columns (PStr [])) t) as Hr.
    destruct (rows_loop w cfg fc (iterrows df) _ t) as [r t']. cbn [fst snd] in Hw, Hr.
    destruct (forallb content_readable (iterrows df)).
    + destruct Hr as [final ->]. unfold emit. cbn [snd].
      rewrite !written_app, Hw. simpl. now rewrite app_nil_r, map_app.
    + destruct Hr as [e ->]. unfold emit. cbn [snd].
      rewrite written_app, Hw. simpl. now rewrite !app_nil_r.
Qed.

Lemma documents_loop_written (w : world) (cfg : Config) :
  forall paths t,
    map fst (written (snd (documents_loop w cfg paths t)))
    = map fst (written t)
      ++ (if table_complete w cfg
          then map output_path (filter (processable w) paths) else []).
Proof.
  induction paths as [|wp paths IH]; intros t.
  - simpl. now destruct (table_complete w cfg); rewrite app_nil_r.
  - cbn [documents_loop filter]. unfold processable at 1.
    destruct (path_exists w wp); cbn [negb andb].
    + unfold bind, read_word_doc. destruct (Document w wp) as [e|paras].
      * unfold bind, emit, ret. cbv beta iota. rewrite IH, written_app. simpl.
        now rewrite app_nil_r.
      * unfold ret. cbv beta iota. destruct (Normalizer.clean_text paras) as [|c text]; [apply IH|].
        destruct (process_table w cfg wp (c :: text) t) as [[] t1] eqn:Hp.
        rewrite IH.
        pose proof (process_table_written w cfg wp (c :: text) t) as H.
        rewrite Hp in H. cbn [snd] in H. rewrite H.
        destruct (table_complete w cfg); [|now rewrite app_nil_r].
        now rewrite <- app_assoc.
    + unfold bind, emit. cbv beta iota. rewrite IH, written_app. simpl.
      now rewrite app_nil_r.
Qed.
End RunFacts.

Module CellFacts.
Import Text Values World Program Notions RowNotions TableNotions RunNotions.
Import TextFacts RowFacts RowClaims TableFacts LoopRunFacts TableRunFacts RunFacts.

Lemma update_row_middle (f : list pyval -> list pyval) (done : list (list pyval))
      (x : list pyval) (pending : list (list pyval)) :
  update_row (length done) f (done ++ x :: pending) = done ++ f x :: pending.
Proof. induction done as [|d done IH]; simpl; [reflexivity | now rewrite IH]. Qed.

(** [.at[idx, col] = v] for the [k]-th output column reaches the cell
    of row [idx] in that column and no other. *)
Lemma set_at_cell (cols : list pystr) (col : pystr) (k : nat) (v : pyval)
      (done pending : list (list pyval)) (r o : list pyval) :
  ~ In col cols -> index_of col output_columns = Some k -> length r = length cols ->
  set_at {| columns := cols ++ output_columns; rows := done ++ (r ++ o) :: pending |}
         (length done) col v
  = {| columns := cols ++ output_columns;
       rows := done ++ (r ++ set_nth k v o) :: pending |}.
Proof.
  intros Hnew Hk Hlen. unfold set_at. cbn [columns rows].
  rewrite index_of_behind by exact Hnew. rewrite Hk. cbn [option_map].
  now rewrite update_row_middle, <- Hlen, set_nth_behind.
Qed.

(** Lines 192-193 put the four values of the record behind the input
    cells of row [idx]. *)
Lemma store_result_cells (cols : list pystr) (outcome : dict)
      (done pending : list (list pyval)) (r o : list pyval) :
  (forall c, In c output_columns -> ~ In c cols) ->
  (forall c, In c output_columns -> exists v, dict_lookup outcome c = Some v) ->
  length r = length cols -> length o = 4 ->
  store_result output_columns outcome (length done)
    {| columns := cols ++ output_columns; rows := done ++ (r ++ o) :: pending |}
  = inr {| columns := cols ++ output_columns;
           rows := done ++ (r ++ record_cells outcome) :: pending |}.
Proof.
  intros Hnew Hk Hr Ho.
  destruct o as [|a [|b [|c [|d [|? ?]]]]]; try discriminate.
  destruct (Hk K_summary) as [v0 H0]; [simpl; tauto|].
  destruct (Hk K_clause_id) as [v1 H1]; [simpl; tauto|].
  destruct (Hk K_clause_text) as [v2 H2]; [simpl; tauto|].
  destruct (Hk K_error) as [v3 H3]; [simpl; tauto|].
  unfold record_cells, get_or, output_columns at 1 4. cbn [store_result map].
  rewrite H0, H1, H2, H3.
  rewrite (@set_at_cell cols K_summary 0) by (auto; apply Hnew; simpl; tauto).
  rewrite (@set_at_cell cols K_clause_id 1) by (auto; apply Hnew; simpl; tauto).
  rewrite (@set_at_cell cols K_clause_text 2) by (auto; apply Hnew; simpl; tauto).
  rewrite (@set_at_cell cols K_error 3) by (auto; apply Hnew; simpl; tauto).
  reflexivity.
Qed.

Lemma as_series_content (df : DataFrame) (r : list pyval) :
  In K_content (columns df) -> length r = length (columns df) ->
  exists content, series_get (as_series df r) K_content = inr content.
Proof. intros Hin Hlen. now apply series_get_present. Qed.

(** The loop, from the [k]-th row on: the rows in front are done, those
    behind still carry the cells they started with. *)
Lemma rows_loop_cells (w : world) (cfg : Config) (fc : pystr) (df : DataFrame) :
  (forall c, In c output_columns -> ~ In c (columns df)) ->
  In K_content (columns df) ->
  forall rs pending done t,
    Forall (fun r => length r = length (columns df)) rs ->
    Forall2 (extends (length (columns df))) rs pending ->
    exists news t',
      rows_loop w cfg fc
        (combine (seq (length done) (length rs)) (map (as_series df) rs))
        {| columns := columns df ++ output_columns; rows := done ++ pending |} t
      = (inr {| columns := columns df ++ output_columns; rows := done ++ news |}, t')
      /\ Forall2 (fun r r' =>
                    exists ti, r' = r ++ record_cells
                                 (fst (process_excel_row w (as_series df r) fc
                                         (api_url cfg) (api_auth cfg) ti)))
                 rs news.
Proof.
  intros Hnew Hin. induction rs as [|r rs IH]; intros pending done t Hlen Hext.
  - inversion Hext; subst. exists [], t. split; [reflexivity | constructor].
  - inversion Hext as [|? p ? pending' [Hr (o & -> & Ho)] Hext']; subst.
    apply Forall_cons_iff in Hlen as [_ Hlen].
    destruct (@as_series_content df r Hin Hr) as [content Hc].
    cbn [length seq map combine].
    destruct (@rows_loop_step w cfg fc (length done) (as_series df r)
                (combine (seq (S (length done)) (length rs)) (map (as_series df) rs))
                {| columns := columns df ++ output_columns;
                   rows := done ++ (r ++ o) :: pending' |} t content Hc)
      as (rdf' & Hstore & ->).
    rewrite store_result_cells in Hstore
      by (assumption || (intros c Hc'; now apply outcome_keys)).
    injection Hstore as <-.
    set (t1 := snd (process_excel_row w (as_series df r) fc (api_url cfg) (api_auth cfg) _)).
    set (o1 := fst (process_excel_row w (as_series df r) fc (api_url cfg) (api_auth cfg) _)).
    destruct (IH pending' (done ++ [r ++ record_cells o1]) t1 Hlen Hext')
      as (news & t' & Hloop & Hnews).
    rewrite length_app, Nat.add_1_r, <- app_assoc in Hloop. cbn [app] in Hloop.
    exists ((r ++ record_cells o1) :: news), t'. split.
    + rewrite Hloop. now rewrite <- app_assoc.
    + constructor; [|exact Hnews]. eexists. reflexivity.
Qed.

(** The same for the whole table. *)
Lemma process_table_cells (w : world) (cfg : Config) (wp : Path) (fc : pystr)
      (t : list event) (df : DataFrame) :
  read_excel w (excel_path cfg) = inr df ->
  well_formed df ->
  (forall c, In c output_columns -> ~ In c (columns df)) ->
  In K_content (columns df) ->
  exists news,
    written (snd (process_table w cfg wp fc t))
    = written t ++ [(output_path wp,
                     {| columns := columns df ++ output_columns; rows := news |})]
    /\ Forall2 (fun r r' =>
                  exists ti, r' = r ++ record_cells
                               (fst (process_excel_row w (as_series df r) fc
                                       (api_url cfg) (api_auth cfg) ti)))
               (rows df) news.
Proof.
  intros Hread Hwf Hnew Hin. unfold process_table. rewrite Hread. unfold bind.
  pose proof (initial_shaped Hwf Hnew) as [Hcols Hrows].
  pose proof (rows_loop_written w cfg fc (iterrows df)
                (assign_columns df output_columns (PStr [])) t) as Hw.
  destruct (@rows_loop_cells w cfg fc df Hnew Hin (rows df)
              (rows (assign_columns df output_columns (PStr []))) [] t
              (proj2 Hwf) Hrows) as (news & t' & Hloop & Hnews).
  cbn [length app] in Hloop. rewrite <- Hcols in Hloop at 1.
  unfold iterrows in *. change (fun r => {| labels := columns df; cells := r |})
    with (as_series df) in *.
  destruct (assign_columns df output_columns (PStr [])) as [cs rs'].
  cbn [rows columns] in *. rewrite Hloop in Hw |- *. cbn [snd] in Hw.
  exists news. split; [|exact Hnews].
  unfold emit. cbn [snd]. rewrite !written_app, Hw. simpl. now rewrite app_nil_r.
Qed.

(** A row without the category cell: its record, whatever was sent
    before. *)
Lemma missing_category_outcome (w : world) (row : Series) (fc url auth : pystr)
      (t : list event) :
  ~ In K_category (labels row) ->
  build_query row = inl (KeyError K_category)
  /\ fst (process_excel_row w row fc url auth t) = failure_record (KeyError K_category).
Proof.
  intros H.
  assert (build_query row = inl (KeyError K_category)) as Hq.
  { unfold build_query, series_get. now rewrite dict_lookup_combine_absent. }
  split; [exact Hq|]. rewrite process_excel_row_steps, try_row_steps. now rewrite Hq.
Qed.

Lemma Forall2_map_eq (A B : Type) (f : A -> B) (l : list A) (l' : list B) :
  Forall2 (fun a b => b = f a) l l' -> l' = map f l.
Proof. induction 1; simpl; congruence. Qed.

Lemma flat_map_nil (A B : Type) (f : A -> list B) (l : list A) :
  Forall (fun a => f a = []) l -> flat_map f l = [].
Proof. induction 1 as [|a l Ha _ IH]; simpl; [reflexivity | now rewrite Ha, IH]. Qed.

Lemma rows_reached_In (its : list (nat * Series)) (p : nat * Series) :
  In p (rows_reached its) -> In p its.
Proof.
  induction its as [|q its IH]; simpl; [tauto|].
  destruct (content_readable q); simpl; [|tauto]. intros [->|H]; auto.
Qed.
End CellFacts.

Module ShapeFacts.
Import Text Values World Program Notions RowNotions TableNotions RunNotions ShapeNotions.
Import TextFacts RowFacts RowClaims TableFacts LoopRunFacts TableRunFacts RunFacts.

Lemma index_of_nth (c : pystr) (cols : list pystr) (j : nat) :
  index_of c cols = Some j -> nth_error cols j = Some c.
Proof.
  revert j; induction cols as [|c' cols IH]; intros j; simpl; [discriminate|].
  destruct (str_eqb c' c) eqn:E.
  - intros [= <-]. apply str_eqb_eq in E. now subst.
  - destruct (index_of c cols) as [k|]; [|discriminate]. intros [= <-]. now apply IH.
Qed.

Lemma is_column_In (df : DataFrame) (c : pystr) :
  is_column df c = true <-> In c (columns df).
Proof.
  unfold is_column. rewrite existsb_exists. split.
  - intros (x & Hx & E). apply str_eqb_eq in E. now subst.
  - intros H. exists c. split; [exact H | apply str_eqb_refl].
Qed.

Lemma nth_error_set_nth_other (j k : nat) (v : pyval) (r : list pyval) :
  j <> k -> nth_error (set_nth j v r) k = nth_error r k.
Proof.
  revert j k; induction r as [|x r IH]; intros [|j] [|k] H; simpl; auto; try congruence.
Qed.

Lemma carries_set_nth (cols extra : list pystr) (col : pystr) (j : nat) (v : pyval)
      (r r' : list pyval) :
  In col output_columns -> index_of col (cols ++ extra) = Some j ->
  carries cols r r' -> carries cols r (set_nth j v r').
Proof.
  intros Hcol Hj H k c x Hc Hout Hx. rewrite nth_error_set_nth_other; [now apply (H k c)|].
  intros ->. apply index_of_nth in Hj.
  rewrite nth_error_app1 in Hj by (apply nth_error_Some; congruence).
  congruence.
Qed.

Lemma carries_app (cols : list pystr) (r r' more : list pyval) :
  carries cols r r' -> carries cols r (r' ++ more).
Proof.
  intros H k c x Hc Hout Hx. rewrite nth_error_app1; [now apply (H k c)|].
  apply nth_error_Some. now rewrite (H k c x).
Qed.

Lemma Forall2_map_r (A B : Type) (R : A -> B -> Prop) (f : B -> B) (l : list A) (l' : list B) :
  (forall a b, R a b -> R a (f b)) -> Forall2 R l l' -> Forall2 R l (map f l').
Proof. intros Hf. induction 1; simpl; constructor; auto. Qed.

Lemma update_row_Forall (P : list pyval -> Prop) (f : list pyval -> list pyval) (i : nat)
      (l : list (list pyval)) :
  (forall a, P a -> P (f a)) -> Forall P l -> Forall P (update_row i f l).
Proof.
  intros Hf H. revert i. induction H as [|a l Ha H IH]; intros [|i]; simpl;
    constructor; auto.
Qed.

(** [df[col] = v] for one of the four names, on a frame whose columns
    begin with the input's. *)
Lemma assign_column_carries (cols extra : list pystr) (rows0 : list (list pyval))
      (d : DataFrame) (c : pystr) (v : pyval) :
  In c output_columns -> columns d = cols ++ extra -> row_lengths d ->
  Forall2 (carries cols) rows0 (rows d) ->
  row_lengths (assign_column d c v)
  /\ Forall2 (carries cols) rows0 (rows (assign_column d c v))
  /\ columns (assign_column d c v)
     = columns d ++ (if existsb (str_eqb c) (columns d) then [] else [c]).
Proof.
  intros Hc Hcols Hlen Hrows. unfold assign_column.
  destruct (index_of c (columns d)) as [j|] eqn:Hj.
  - assert (existsb (str_eqb c) (columns d) = true) as ->.
    { apply existsb_exists. exists c. split; [now apply (index_of_In _ _ Hj) | apply str_eqb_refl]. }
    cbn [columns rows]. rewrite app_nil_r. split; [|split; [|reflexivity]].
    + unfold row_lengths. cbn [columns rows]. apply Forall_map.
      eapply Forall_impl; [|exact Hlen]. intros r Hr. now rewrite set_nth_length.
    + apply Forall2_map_r; [|exact Hrows]. intros a b.
      rewrite Hcols in Hj. now apply carries_set_nth with (extra := extra) (col := c).
  - assert (existsb (str_eqb c) (columns d) = false) as ->.
    { destruct (existsb (str_eqb c) (columns d)) eqn:E; [|reflexivity].
      apply existsb_exists in E as (x & Hx & E). apply str_eqb_eq in E. subst x.
      apply index_of_present in Hx as (n & Hn & _). congruence. }
    cbn [columns rows]. split; [|split].
    + unfold row_lengths. cbn [columns rows]. apply Forall_map.
      eapply Forall_impl; [|exact Hlen]. intros r Hr. rewrite !length_app, Hr. reflexivity.
    + apply Forall2_map_r; [|exact Hrows]. intros a b. apply carries_app.
    + reflexivity.
Qed.

Lemma existsb_app_fresh (c x : pystr) (l : list pystr) :
  c <> x -> existsb (str_eqb c) (l ++ [x]) = existsb (str_eqb c) l.
Proof.
  intros H. rewrite existsb_app. simpl. rewrite orb_false_r.
  destruct (str_eqb c x) eqn:E; [apply str_eqb_eq in E; contradiction|].
  now rewrite orb_false_r.
Qed.

(** [df[[c1, ..., cn]] = v] for names among the four: those the frame
    has stay where they are, the others are added on the right. *)
Lemma assign_columns_carries (cols : list pystr) (rows0 : list (list pyval)) (v : pyval) :
  forall names extra d,
    NoDup names -> (forall c, In c names -> In c output_columns) ->
    columns d = cols ++ extra -> row_lengths d ->
    Forall2 (carries cols) rows0 (rows d) ->
    row_lengths (assign_columns d names v)
    /\ Forall2 (carries cols) rows0 (rows (assign_columns d names v))
    /\ columns (assign_columns d names v)
       = columns d ++ filter (fun c => negb (existsb (str_eqb c) (columns d))) names.
Proof.
  induction names as [|c names IH]; intros extra d Hnd Hsub Hcols Hlen Hrows.
  - simpl. now rewrite app_nil_r.
  - unfold assign_columns. cbn [fold_left]. fold (assign_columns (assign_column d c v) names v).
    apply NoDup_cons_iff in Hnd as [Hc Hnd].
    destruct (@assign_column_carries cols extra rows0 d c v (Hsub c (or_introl eq_refl))
                Hcols Hlen Hrows) as (Hlen' & Hrows' & Hcols').
    destruct (IH (extra ++ (if existsb (str_eqb c) (columns d) then [] else [c]))
                 (assign_column d c v) Hnd (fun x Hx => Hsub x (or_intror Hx)))
      as (H1 & H2 & H3); [now rewrite Hcols', Hcols, <- app_assoc | assumption..|].
    split; [exact H1 | split; [exact H2|]]. rewrite H3, Hcols'. cbn [filter].
    destruct (existsb (str_eqb c) (columns d)) eqn:E; cbn [negb].
    + now rewrite app_nil_r.
    + rewrite <- app_assoc. cbn [app]. f_equal. f_equal. apply filter_ext_in.
      intros x Hx. rewrite existsb_app_fresh; [reflexivity|]. intros ->. contradiction.
Qed.

Lemma carries_refl (cols : list pystr) (rs : list (list pyval)) :
  Forall2 (carries cols) rs rs.
Proof. induction rs; constructor; auto. now intros j c x _ _ H. Qed.

(** The frame the loop starts from. *)
Lemma initial_kept (df : DataFrame) :
  well_formed df -> kept df (assign_columns df output_columns (PStr [])).
Proof.
  intros [_ Hwf].
  destruct (@assign_columns_carries (columns df) (rows df) (PStr []) output_columns [] df
              output_columns_NoDup (fun c H => H) (eq_sym (app_nil_r _)) Hwf
              (carries_refl _ _)) as (H1 & H2 & H3).
  split; [exact H3 | split; assumption].
Qed.

Lemma output_column_present (df : DataFrame) (c : pystr) :
  In c output_columns -> In c (columns df ++ new_columns df).
Proof.
  intros H. apply in_or_app. destruct (is_column df c) eqn:E.
  - left. now apply is_column_In.
  - right. apply filter_In. split; [exact H|]. now rewrite E.
Qed.

(** [result_df.at[idx, col] = v] for one of the four columns. *)
Lemma set_at_kept (df rdf : DataFrame) (idx : nat) (col : pystr) (v : pyval) :
  kept df rdf -> In col output_columns -> kept df (set_at rdf idx col v).
Proof.
  intros (Hc & Hlen & Hrows) Hin. unfold set_at.
  destruct (@index_of_present col (columns rdf)) as (j & Hj & _);
    [rewrite Hc; now apply output_column_present|].
  rewrite Hj. split; [exact Hc | split]; cbn [columns rows].
  - unfold row_lengths. cbn [columns rows]. apply update_row_Forall; [|exact Hlen].
    intros a Ha. now rewrite set_nth_length.
  - apply update_row_Forall2; [|exact Hrows]. intros a b. rewrite Hc in Hj.
    now apply carries_set_nth with (extra := new_columns df) (col := col).
Qed.

Lemma store_result_kept (df : DataFrame) (outcome : dict) (idx : nat) (cols : list pystr) :
  (forall c, In c cols -> In c output_columns) ->
  forall rdf rdf', kept df rdf -> store_result cols outcome idx rdf = inr rdf' ->
                   kept df rdf'.
Proof.
  induction cols as [|c cols IH]; intros Hsub rdf rdf' Hk H.
  - injection H as <-. exact Hk.
  - cbn [store_result] in H. destruct (dict_lookup outcome c) as [v|]; [|discriminate].
    apply (IH (fun x Hx => Hsub x (or_intror Hx)) (set_at rdf idx c v)); [|exact H].
    apply set_at_kept; [exact Hk | apply Hsub; now left].
Qed.

(** The loop keeps the frame in that form, and ends normally when every
    row has the content cell. *)
Lemma rows_loop_kept (w : world) (cfg : Config) (fc : pystr) (df : DataFrame) :
  forall its rdf t,
    Forall has_content its -> kept df rdf ->
    exists final t',
      rows_loop w cfg fc its rdf t = (inr final, t') /\ kept df final.
Proof.
  induction its as [|[idx row] its IH]; intros rdf t Hits Hk.
  - now exists rdf, t.
  - apply Forall_cons_iff in Hits as [[content Hc] Hits]. cbn [snd] in Hc.
    destruct (@rows_loop_step w cfg fc idx row its rdf t content Hc) as (rdf' & Hs & ->).
    apply IH; [exact Hits|]. eapply store_result_kept; [|exact Hk|exact Hs]. auto.
Qed.

Lemma kept_keeps (df rdf : DataFrame) :
  well_formed df -> kept df rdf ->
  columns rdf = columns df ++ new_columns df
  /\ length (rows rdf) = length (rows df)
  /\ Forall2 (keeps df) (rows df) (rows rdf).
Proof.
  intros [_ Hwf] (Hc & Hlen & Hrows). split; [exact Hc | split].
  - symmetry. exact (Forall2_length Hrows).
  - unfold row_lengths in Hlen. rewrite Hc in Hlen. clear Hc.
    induction Hrows as [|r r' rs rs' H Hrows IH]; [constructor|].
    apply Forall_cons_iff in Hwf as [Hr Hwf]. apply Forall_cons_iff in Hlen as [Hr' Hlen].
    constructor; [|now apply IH]. split; [exact Hr'|].
    intros j c Hj Hout.
    destruct (nth_error r j) as [x|] eqn:Hx; [now apply (H j c)|].
    apply nth_error_None in Hx. assert (j < length (columns df)) by
        (apply nth_error_Some; congruence). lia.
Qed.

(** What one row returns depends on the trace only through the number
    of requests sent before. *)
Lemma process_excel_row_by_count (w : world) (row : Series) (fc url auth : pystr)
      (t1 t2 : list event) :
  length (posts t1) = length (posts t2) ->
  fst (process_excel_row w row fc url auth t1)
  = fst (process_excel_row w row fc url auth t2).
Proof.
  intros H. rewrite !process_excel_row_steps, !try_row_steps.
  destruct (build_query row) as [e|q]; [reflexivity|]. cbn zeta.
  unfold reply_to. rewrite H.
  destruct (decode_reply _) as [e|j]; [reflexivity|]. now destruct (extract j).
Qed.

End ShapeFacts.

Module RecordFacts.
Import Text Values World Program Notions RowNotions TableNotions RunNotions ShapeNotions.
Import TextFacts RowFacts RowClaims TableFacts LoopRunFacts TableRunFacts RunFacts CellFacts.
Import ShapeFacts.

(** The loop, from the [k]-th row on, with the number of requests sent
    before each row: row [i] gets the record of that row, returned after
    the requests of the rows in front of it. *)
Lemma rows_loop_records (w : world) (cfg : Config) (fc : pystr) (df : DataFrame) :
  (forall c, In c output_columns -> ~ In c (columns df)) ->
  In K_content (columns df) ->
  forall rs pending done t,
    Forall (fun r => length r = length (columns df)) rs ->
    Forall2 (extends (length (columns df))) rs pending ->
    exists news t',
      rows_loop w cfg fc
        (combine (seq (length done) (length rs)) (map (as_series df) rs))
        {| columns := columns df ++ output_columns; rows := done ++ pending |} t
      = (inr {| columns := columns df ++ output_columns; rows := done ++ news |}, t')
      /\ length news = length rs
      /\ forall i r ti,
          nth_error rs i = Some r ->
          length (posts ti)
          = length (posts t)
            + length (flat_map (fun r0 => row_requests cfg fc (as_series df r0))
                               (firstn i rs)) ->
          nth_error news i
          = Some (r ++ record_cells
                    (fst (process_excel_row w (as_series df r) fc
                            (api_url cfg) (api_auth cfg) ti))).
Proof.
  intros Hnew Hin. induction rs as [|r rs IH]; intros pending done t Hlen Hext.
  - inversion Hext; subst. exists [], t. split; [reflexivity | split; [reflexivity|]].
    intros [|i] r ti H; discriminate.
  - inversion Hext as [|? p ? pending' [Hr (o & -> & Ho)] Hext']; subst.
    apply Forall_cons_iff in Hlen as [_ Hlen].
    destruct (@as_series_content df r Hin Hr) as [content Hc].
    cbn [length seq map combine].
    destruct (@rows_loop_step w cfg fc (length done) (as_series df r)
                (combine (seq (S (length done)) (length rs)) (map (as_series df) rs))
                {| columns := columns df ++ output_columns;
                   rows := done ++ (r ++ o) :: pending' |} t content Hc)
      as (rdf' & Hstore & ->).
    rewrite store_result_cells in Hstore
      by (assumption || (intros c Hc'; now apply outcome_keys)).
    injection Hstore as <-.
    set (t0 := t ++ [Log INFO processing_row [PInt (Z.of_nat (length done) + 1); content]]).
    set (t1 := snd (process_excel_row w (as_series df r) fc (api_url cfg) (api_auth cfg) t0)).
    set (o1 := fst (process_excel_row w (as_series df r) fc (api_url cfg) (api_auth cfg) t0)).
    assert (length (posts t0) = length (posts t)) as Ht0
        by (unfold t0; rewrite posts_app; simpl; now rewrite app_nil_r).
    assert (length (posts t1)
            = length (posts t) + length (row_requests cfg fc (as_series df r))) as Ht1
        by (unfold t1; now rewrite process_excel_row_posts, length_app, Ht0).
    destruct (IH pending' (done ++ [r ++ record_cells o1]) t1 Hlen Hext')
      as (news & t' & Hloop & Hcount & Hnews).
    rewrite length_app, Nat.add_1_r, <- app_assoc in Hloop. cbn [app] in Hloop.
    exists ((r ++ record_cells o1) :: news), t'. split; [|split].
    + rewrite Hloop. now rewrite <- app_assoc.
    + simpl. now rewrite Hcount.
    + intros [|i] r0 ti Hr0 Hti.
      * cbn [nth_error] in Hr0 |- *. injection Hr0 as <-. do 2 f_equal. unfold o1.
        f_equal. apply process_excel_row_by_count.
        cbn [firstn flat_map length] in Hti. lia.
      * cbn [nth_error] in Hr0 |- *. apply Hnews; [exact Hr0|].
        cbn [firstn flat_map] in Hti. rewrite length_app in Hti. lia.
Qed.

(** The same for the whole table. *)
Lemma process_table_records (w : world) (cfg : Config) (wp : Path) (fc : pystr)
      (t : list event) (df : DataFrame) :
  read_excel w (excel_path cfg) = inr df ->
  well_formed df ->
  (forall c, In c output_columns -> ~ In c (columns df)) ->
  In K_content (columns df) ->
  exists news,
    written (snd (process_table w cfg wp fc t))
    = written t ++ [(output_path wp,
                     {| columns := columns df ++ output_columns; rows := news |})]
    /\ length news = length (rows df)
    /\ forall i r ti,
        nth_error (rows df) i = Some r ->
        length (posts ti) = length (posts t) + length (requests_before cfg fc df i) ->
        nth_error news i
        = Some (r ++ record_cells
                  (fst (process_excel_row w (as_series df r) fc
                          (api_url cfg) (api_auth cfg) ti))).
Proof.
  intros Hread Hwf Hnew Hin. unfold process_table. rewrite Hread. unfold bind.
  pose proof (initial_shaped Hwf Hnew) as [Hcols Hrows].
  pose proof (rows_loop_written w cfg fc (iterrows df)
                (assign_columns df output_columns (PStr [])) t) as Hw.
  destruct (@rows_loop_records w cfg fc df Hnew Hin (rows df)
              (rows (assign_columns df output_columns (PStr []))) [] t
              (proj2 Hwf) Hrows) as (news & t' & Hloop & Hcount & Hnews).
  cbn [length app] in Hloop. rewrite <- Hcols in Hloop at 1.
  unfold iterrows in *. change (fun r => {| labels := columns df; cells := r |})
    with (as_series df) in *.
  destruct (assign_columns df output_columns (PStr [])) as [cs rs'].
  cbn [rows columns] in *. rewrite Hloop in Hw |- *. cbn [snd] in Hw.
  exists news. split; [|split; [exact Hcount | exact Hnews]].
  unfold emit. cbn [snd]. rewrite !written_app, Hw. simpl. now rewrite app_nil_r.
Qed.

(** The shape of the table written, whatever names the input columns
    bear. *)
Lemma process_table_kept (w : world) (cfg : Config) (wp : Path) (fc : pystr)
      (t : list event) (df : DataFrame) :
  read_excel w (excel_path cfg) = inr df ->
  well_formed df ->
  In K_content (columns df) \/ rows df = [] ->
  exists out,
    written (snd (process_table w cfg wp fc t)) = written t ++ [(output_path wp, out)]
    /\ kept df out.
Proof.
  intros Hread Hwf Hc. unfold process_table. rewrite Hread. unfold bind.
  pose proof (rows_loop_written w cfg fc (iterrows df)
                (assign_columns df output_columns (PStr [])) t) as Hw.
  destruct (@rows_loop_kept w cfg fc df (iterrows df)
              (assign_columns df output_columns (PStr [])) t
              (iterrows_have_content Hwf Hc) (initial_kept Hwf))
    as (final & t' & Hloop & Hk).
  rewrite Hloop in Hw |- *. cbn [snd] in Hw. exists final. split; [|exact Hk].
  unfold emit. cbn [snd]. rewrite !written_app, Hw. simpl. now rewrite app_nil_r.
Qed.
End RecordFacts.

Module ExampleFacts.
Import Text Values World Program Notions RowNotions TextFacts RowFacts Examples RowClaims AnswerClaims.

Ltac evaluate := vm_compute; reflexivity.

Ltac first_block pre post :=
  exists pre, post; split; [evaluate | split; apply find_first_at; evaluate].

Lemma clause_row_query : build_query clause_row = inr (query_of clause_row).
Proof. evaluate. Qed.

Lemma reply_full :
  reply_to (answering answer_full) [] clause_request = inr (decoded answer_full).
Proof. evaluate. Qed.
Lemma field_full : answer_field (decoded answer_full) = inr (PStr answer_full).
Proof. evaluate. Qed.
Lemma block_full : first_fenced_block answer_full (block full_text).
Proof. first_block (utf8 "分析如下 ") (utf8 " 完"). Qed.
Lemma loads_full : JsonDecode.loads (strip (block full_text)) = inr (PDict full_object).
Proof. evaluate. Qed.
End ExampleFacts.

Module TableClaims.
Import Text Values World Program Notions RowNotions TextFacts RowFacts RowClaims.
Import TableNotions TableFacts LoopRunFacts TableRunFacts Examples TableExamples ExampleFacts.
Import RunNotions ShapeNotions RunFacts ShapeFacts.

Lemma written_snoc_log (t : list event) (l : level) (m : pystr) (a : list pyval) :
  written (t ++ [Log l m a]) = written t.
Proof. unfold written. rewrite flat_map_app. simpl. now rewrite app_nil_r. Qed.

Lemma written_snoc_excel (t : list event) (p : Path) (df : DataFrame) :
  written (t ++ [ToExcel p df]) = written t ++ [(p, df)].
Proof. unfold written. now rewrite flat_map_app. Qed.

Lemma In_content_dec (df : DataFrame) :
  {In K_content (columns df)} + {~ In K_content (columns df)}.
Proof. apply in_dec, list_eq_dec, N.eq_dec. Qed.

(** C2, as amended.  For a table that has the column the progress
    message reads (or no rows), the table written has the input rows in
    their order, its columns are the input columns in their order
    followed by those of the four output columns the input does not
    have yet, in their fixed order, and every row keeps the cells of the
    input under the columns that are none of the four.  So when no input
    column bears one of the four names, the four columns are appended
    and each row is the input row followed by four cells; an input
    column that bears one of the names keeps its place and is not
    appended again. *)
Theorem output_table_shape (w : world) (cfg : Config) (word_path : Path)
        (fc : pystr) (t : list event) (df : DataFrame) :
  read_excel w (excel_path cfg) = inr df ->
  well_formed df ->
  In K_content (columns df) \/ rows df = [] ->
  exists out,
    written (snd (process_table w cfg word_path fc t))
    = written t ++ [(output_path word_path, out)]
    /\ columns out = columns df ++ new_columns df
    /\ length (rows out) = length (rows df)
    /\ Forall2 (keeps df) (rows df) (rows out)
    /\ ((forall c, In c output_columns -> ~ In c (columns df)) ->
        columns out = columns df ++ [K_summary; K_clause_id; K_clause_text; K_error]
        /\ Forall2 (fun r r' => exists o, r' = r ++ o /\ length o = 4)
                   (rows df) (rows out)).
Proof.
  intros Hread Hwf Hc. unfold process_table. rewrite Hread. unfold bind.
  pose proof (iterrows_have_content Hwf Hc) as Hits.
  pose proof (rows_loop_written w cfg fc (iterrows df)
                (assign_columns df output_columns (PStr [])) t) as Hw.
  destruct (@rows_loop_kept w cfg fc df (iterrows df)
              (assign_columns df output_columns (PStr [])) t Hits (initial_kept Hwf))
    as (final & t' & Hloop & Hk).
  rewrite Hloop in Hw |- *. cbn [snd] in Hw. exists final.
  destruct (kept_keeps Hwf Hk) as (Hcols & Hlen & Hrows).
  split; [|split; [exact Hcols | split; [exact Hlen | split; [exact Hrows|]]]].
  - unfold emit. cbn [snd]. rewrite !written_app, Hw. simpl. now rewrite app_nil_r.
  - intros Hnew.
    destruct (@rows_loop_completes w cfg fc df Hnew (iterrows df)
                (assign_columns df output_columns (PStr [])) t Hits
                (initial_shaped Hwf Hnew)) as (final' & t'' & Hloop' & [Hcols' Hrows'] & _).
    rewrite Hloop in Hloop'. injection Hloop' as <- _.
    split; [exact Hcols'|]. eapply Forall2_impl; [|exact Hrows']. now intros a b [_ H].
Qed.

(** C4.  A table without the column [条款/内容]: the progress message of
    [main] reads that cell outside the [try] of [process_excel_row], so
    the [KeyError] ends the document and no spreadsheet is written.
    Beside it the sibling case the claim describes: without the column
    [条款类别] every row is recorded as a failure and the table is
    written. *)
Theorem missing_content_column_loses_the_table :
  process_table (office table_without_content) config contract doc_text []
  = (tt, [Log ERROR (excel_failed ++ utf8 "'条款/内容'") []])
  /\ written (snd (process_table (office table_without_category) config contract
                                 doc_text []))
     = [(output_path contract,
         {| columns := [K_content; K_instructions; K_summary; K_clause_id;
                        K_clause_text; K_error];
            rows := [[PStr (utf8 "董事会"); PStr (utf8 "填写人数")]
                       ++ failed_cells (utf8 "'条款类别'");
                     [PStr (utf8 "优先购买权"); PStr (utf8 "填写期限")]
                       ++ failed_cells (utf8 "'条款类别'")] |})].
Proof. split; vm_compute; reflexivity. Qed.

(** C2 counterexample. *)
Lemma existing_error_column_is_overwritten :
  well_formed table_with_error
  /\ written (snd (process_table (office table_with_error) config contract doc_text []))
     = [(output_path contract,
         {| columns := [K_category; K_content; K_instructions; K_error;
                        K_summary; K_clause_id; K_clause_text];
            rows := [cells_a ++ [PStr []] ++ full_cells] |})]
  /\ columns table_with_error ++ [K_summary; K_clause_id; K_clause_text; K_error]
     <> [K_category; K_content; K_instructions; K_error;
         K_summary; K_clause_id; K_clause_text].
Proof.
  split; [|split; [vm_compute; reflexivity | discriminate]].
  split; [|repeat constructor].
  repeat constructor; simpl; intros H;
    repeat (destruct H as [H|H]; [discriminate|]); exact H.
Qed.
End TableClaims.

Module PipelineClaims.
Import Text Values World Program Notions RowNotions TextFacts RowFacts RowClaims.
Import TableNotions TableFacts LoopRunFacts TableRunFacts Examples TableExamples ExampleFacts.
Import RunNotions RunFacts ShapeFacts ContainExamples.



(** [json.dumps] on the three string cells, character by character. *)
Lemma dumps_query (category content instructions : pystr) :
  JsonEncode.dumps (PDict [(K_category, PStr category); (K_content, PStr content);
                           (K_instructions, PStr instructions)])
  = inr (expected_query category content instructions).
Proof.
  unfold JsonEncode.dumps, expected_query.
  cbn [JsonEncode.iterencode map JsonEncode.sequence fst snd JsonEncode.join_items].
  f_equal. unfold JsonEncode.newline_indent. cbn [Nat.mul repeat Nat.add].
  unfold JsonEncode.encode_basestring.
  repeat (rewrite <- ?app_assoc; cbn [app]).
  reflexivity.
Qed.

(** C9.  For a row with three string cells the request body is exactly
    the one of the specification, with the query serialised key by key in
    the fixed order and with two spaces of indentation; characters from
    U+0020 on other than the quote and the backslash are written
    unescaped; and the row adds exactly one request, with a 600 second
    timeout, to the requests sent. *)
Theorem request_is_exact
        (w : world) (row : Series) (fc url auth : pystr) (t : list event)
        (category content instructions : pystr) :
  series_get row K_category = inr (PStr category) ->
  series_get row K_content = inr (PStr content) ->
  series_get row K_instructions = inr (PStr instructions) ->
  build_query row = inr (expected_query category content instructions)
  /\ posts (snd (process_excel_row w row fc url auth t))
     = posts t ++ [{| req_url := url;
                      req_headers := [(utf8 "Authorization", auth);
                                      (utf8 "Content-Type", utf8 "application/json")];
                      req_json := expected_body
                                    (expected_query category content instructions) fc;
                      req_timeout := 600 |}]
  /\ forall c, (32 <= c)%N -> c <> QUOTE -> c <> BACKSLASH ->
               JsonEncode.escape_char c = [c].
Proof.
  intros H1 H2 H3.
  assert (build_query row = inr (expected_query category content instructions)) as Hq.
  { unfold build_query. rewrite H1, H2, H3. apply dumps_query. }
  split; [exact Hq | split].
  - rewrite process_excel_row_steps, try_row_steps, Hq. cbn zeta.
    destruct (reply_to _ _ _) as [e|j]; [|destruct (extract j)]; cbn [snd];
      rewrite ?posts_app; simpl; rewrite ?app_nil_r; reflexivity.
  - intros c Hc Hq' Hb. unfold JsonEncode.escape_char.
    assert (forall x, c <> x -> char_eqb c x = false) as Hne
        by (intros x Hx; now apply N.eqb_neq).
    rewrite (Hne QUOTE Hq'), (Hne BACKSLASH Hb).
    rewrite !Hne by (intros ->; vm_compute in Hc; now apply Hc).
    assert ((c <? 32)%N = false) as -> by (apply N.ltb_ge; exact Hc).
    reflexivity.
Qed.
End PipelineClaims.

(** * The theorems at the sample inputs *)

Module AnswerWitnesses.
Import Text Values World Program Notions RowNotions TextFacts RowFacts Examples RowClaims AnswerClaims ExampleFacts.

Lemma round_trip_witness :
  fst (process_excel_row (answering answer_full) clause_row doc_text url auth []) =
  [(K_summary, PStr (utf8 "三名董事")); (K_clause_id, PStr (utf8 "5.1"));
   (K_clause_text, PStr (utf8 "董事会由三名董事组成")); (K_error, PStr [])].
Proof.
  exact (@first_block_round_trip (answering answer_full) clause_row doc_text url auth []
           (query_of clause_row) (decoded answer_full) answer_full (block full_text)
           full_object (PStr (utf8 "三名董事")) (PStr (utf8 "5.1"))
           (PStr (utf8 "董事会由三名董事组成"))
           clause_row_query reply_full field_full block_full loads_full
           eq_refl eq_refl eq_refl).
Defined.
End AnswerWitnesses.

Module MoreExampleFacts.
Import Text Values World Program Notions RowNotions TextFacts RowFacts Examples RowClaims AnswerClaims ExampleFacts.

Lemma reply_empty :
  reply_to (answering answer_empty_object) [] clause_request
  = inr (decoded answer_empty_object).
Proof. evaluate. Qed.
Lemma field_empty :
  answer_field (decoded answer_empty_object) = inr (PStr answer_empty_object).
Proof. evaluate. Qed.
Lemma block_empty : first_fenced_block answer_empty_object (block (utf8 "{}")).
Proof. first_block (@nil char) (@nil char). Qed.
Lemma loads_empty : JsonDecode.loads (strip (block (utf8 "{}"))) = inr (PDict []).
Proof. evaluate. Qed.

Lemma reply_list :
  reply_to (answering answer_list) [] clause_request = inr (decoded answer_list).
Proof. evaluate. Qed.
Lemma field_list : answer_field (decoded answer_list) = inr (PStr answer_list).
Proof. evaluate. Qed.
Lemma block_list : first_fenced_block answer_list (block (utf8 "[1, 2]")).
Proof. first_block (@nil char) (@nil char). Qed.
Lemma loads_list :
  JsonDecode.loads (strip (block (utf8 "[1, 2]"))) = inr (PList [PInt 1; PInt 2]).
Proof. evaluate. Qed.
Lemma list_is_no_dict (d : dict) : PList [PInt 1; PInt 2] <> PDict d.
Proof. discriminate. Qed.
End MoreExampleFacts.

Module MoreAnswerWitnesses.
Import Text Values World Program Notions RowNotions TextFacts RowFacts Examples RowClaims AnswerClaims ExampleFacts MoreExampleFacts.

Lemma empty_object_witness :
  fst (process_excel_row (answering answer_empty_object) clause_row doc_text url auth []) =
  [(K_summary, PStr NOT_EXTRACTED); (K_clause_id, PStr NOT_EXTRACTED);
   (K_clause_text, PStr NOT_EXTRACTED); (K_error, PStr [])].
Proof.
  exact (@first_block_empty_object (answering answer_empty_object) clause_row doc_text
           url auth [] (query_of clause_row) (decoded answer_empty_object)
           answer_empty_object (block (utf8 "{}"))
           clause_row_query reply_empty field_empty block_empty loads_empty).
Defined.

Lemma non_object_witness :
  fst (process_excel_row (answering answer_list) clause_row doc_text url auth []) =
  [(K_summary, PStr FAILED); (K_clause_id, PStr FAILED); (K_clause_text, PStr FAILED);
   (K_error, PStr (utf8 "'" ++ type_name (PList [PInt 1; PInt 2])
                     ++ utf8 "' object has no attribute 'get'"))].
Proof.
  exact (@non_object_is_failure (answering answer_list) clause_row doc_text url auth []
           (query_of clause_row) (decoded answer_list) answer_list
           (block (utf8 "[1, 2]")) (PList [PInt 1; PInt 2])
           clause_row_query reply_list field_list block_list loads_list list_is_no_dict).
Defined.

(** C5 counterexample: the object stands in the second block. *)
Lemma later_block_is_ignored :
  fenced_block answer_draft_then_full (block full_text)
  /\ JsonDecode.loads (strip (block full_text)) = inr (PDict full_object)
  /\ dict_lookup full_object K_summary = Some (PStr (utf8 "三名董事"))
  /\ dict_lookup full_object K_clause_id = Some (PStr (utf8 "5.1"))
  /\ dict_lookup full_object K_clause_text = Some (PStr (utf8 "董事会由三名董事组成"))
  /\ reply_to (answering answer_draft_then_full) [] clause_request
     = inr (decoded answer_draft_then_full)
  /\ answer_field (decoded answer_draft_then_full) = inr (PStr answer_draft_then_full)
  /\ fst (process_excel_row (answering answer_draft_then_full) clause_row
                            doc_text url auth []) =
     [(K_summary, PStr FAILED); (K_clause_id, PStr FAILED); (K_clause_text, PStr FAILED);
      (K_error, PStr (utf8 "Expecting value: line 1 column 1 (char 0)"))].
Proof.
  split; [|repeat split; evaluate].
  exists (fenced (utf8 "oops") ++ [NL]), []. evaluate.
Qed.

(** C6 counterexample: the empty object stands in the second block. *)
Lemma later_empty_object_is_ignored :
  fenced_block answer_draft_then_empty (block (utf8 "{}"))
  /\ JsonDecode.loads (strip (block (utf8 "{}"))) = inr (PDict [])
  /\ reply_to (answering answer_draft_then_empty) [] clause_request
     = inr (decoded answer_draft_then_empty)
  /\ answer_field (decoded answer_draft_then_empty) = inr (PStr answer_draft_then_empty)
  /\ fst (process_excel_row (answering answer_draft_then_empty) clause_row
                            doc_text url auth []) =
     [(K_summary, PStr FAILED); (K_clause_id, PStr FAILED); (K_clause_text, PStr FAILED);
      (K_error, PStr (utf8 "Expecting value: line 1 column 1 (char 0)"))].
Proof.
  split; [|repeat split; evaluate].
  exists (fenced (utf8 "not yet") ++ [NL]), []. evaluate.
Qed.

(** C3 counterexample: a success record with a field that is not a
    string. *)
Lemma null_field_in_success :
  is_success (fst (process_excel_row (answering answer_null_summary) clause_row
                                     doc_text url auth []))
  /\ dict_lookup (fst (process_excel_row (answering answer_null_summary) clause_row
                                         doc_text url auth [])) K_summary = Some PNone
  /\ is_str PNone = false.
Proof. repeat split; evaluate. Qed.

(** An exception without a message: the failure record has an empty
    [error], as a success record has, beside the three sentinels. *)
Lemma silent_failure_has_empty_error :
  step_fails ContainExamples.failing_silently clause_row doc_text url auth []
             ContainExamples.silent
  /\ fst (process_excel_row ContainExamples.failing_silently clause_row
                            doc_text url auth [])
     = [(K_summary, PStr FAILED); (K_clause_id, PStr FAILED);
        (K_clause_text, PStr FAILED); (K_error, PStr [])]
  /\ is_success (fst (process_excel_row ContainExamples.failing_silently clause_row
                                        doc_text url auth [])).
Proof.
  split; [|split; evaluate].
  right. left. exists (query_of clause_row). split; evaluate.
Qed.
End MoreAnswerWitnesses.

Module Witnesses.
Import Text Values World Program Normalizer Notions RowNotions TextFacts RowFacts RowClaims.
Import TableNotions TableFacts LoopRunFacts TableRunFacts Examples TableExamples ExampleFacts.
Import MoreExamples NormalizerClaims TableClaims PipelineClaims.
Import RunNotions ShapeNotions.

Lemma sample_has_no_terminator : Forall (fun p => ~ In NL p) sample_paragraphs.
Proof.
  repeat constructor; simpl; intros H;
    repeat (destruct H as [H|H]; [discriminate|]); exact H.
Qed.

Lemma no_consecutive_terminators_witness :
  Forall (fun p => ~ In NL p) sample_paragraphs
  /\ ~ occurs [NL; NL] (clean_text sample_paragraphs).
Proof.
  split; [exact sample_has_no_terminator|].
  exact (@no_consecutive_terminators sample_paragraphs sample_has_no_terminator).
Defined.

Lemma normalization_idempotent_witness :
  clean_text (reparagraph (clean_text sample_paragraphs)) = clean_text sample_paragraphs.
Proof.
  exact (@normalization_idempotent sample_paragraphs sample_has_no_terminator).
Defined.



Lemma plain_table_well_formed : well_formed plain_table.
Proof.
  split; [|repeat constructor].
  repeat constructor; simpl; intros H;
    repeat (destruct H as [H|H]; [discriminate|]); exact H.
Qed.

Lemma plain_table_has_no_output_column (c : pystr) :
  In c output_columns -> ~ In c (columns plain_table).
Proof.
  simpl. intros H H'.
  repeat (destruct H as [H|H]; [subst c; repeat (destruct H' as [H'|H']; [discriminate|]); exact H'|]).
  exact H.
Qed.

Lemma plain_table_can_be_read :
  In K_content (columns plain_table) \/ rows plain_table = [].
Proof. left. simpl. tauto. Qed.

Lemma output_table_shape_witness :
  exists out,
    written (snd (process_table (office plain_table) config contract doc_text []))
    = written [] ++ [(output_path contract, out)]
    /\ columns out = columns plain_table ++ new_columns plain_table
    /\ length (rows out) = length (rows plain_table)
    /\ Forall2 (keeps plain_table) (rows plain_table) (rows out)
    /\ ((forall c, In c output_columns -> ~ In c (columns plain_table)) ->
        columns out
        = columns plain_table ++ [K_summary; K_clause_id; K_clause_text; K_error]
        /\ Forall2 (fun r r' => exists o, r' = r ++ o /\ length o = 4)
                   (rows plain_table) (rows out)).
Proof.
  exact (@output_table_shape (office plain_table) config contract doc_text []
           plain_table eq_refl plain_table_well_formed plain_table_can_be_read).
Defined.

Lemma request_is_exact_witness :
  build_query clause_row
  = inr (expected_query (utf8 "治理") (utf8 "董事会") (utf8 "填写人数"))
  /\ posts (snd (process_excel_row timing_out clause_row doc_text url auth []))
     = posts [] ++ [{| req_url := url;
                       req_headers := [(utf8 "Authorization", auth);
                                       (utf8 "Content-Type", utf8 "application/json")];
                       req_json := expected_body
                                     (expected_query (utf8 "治理") (utf8 "董事会")
                                                     (utf8 "填写人数")) doc_text;
                       req_timeout := 600 |}]
  /\ forall c, (32 <= c)%N -> c <> QUOTE -> c <> BACKSLASH ->
               JsonEncode.escape_char c = [c].
Proof.
  exact (@request_is_exact timing_out clause_row doc_text url auth []
           (utf8 "治理") (utf8 "董事会") (utf8 "填写人数") eq_refl eq_refl eq_refl).
Defined.
End Witnesses.

(** * Further properties: the text of a document *)

Module NormalFormFacts.
Import Text Normalizer Notions NormNotions NormalFormNotions.
Import TextFacts StripFacts PatternFacts LoopFacts CollapseFacts.

Lemma blank_tabs (t : pystr) : blank (map tab_to_space t) = blank t.
Proof. now destruct t. Qed.

Lemma keep_extends (paras kept : list pystr) :
  exists more, keep paras kept = kept ++ more.
Proof.
  revert kept; induction paras as [|p paras IH]; intros kept.
  - exists []. now rewrite app_nil_r.
  - cbn [keep]. destruct (dropped (strip p)); [apply IH|].
    destruct (blank (strip p) && ends_blank kept); [apply IH|].
    destruct (IH (kept ++ [map tab_to_space (strip p)])) as [more ->].
    exists (map tab_to_space (strip p) :: more). now rewrite <- app_assoc.
Qed.

(** The loop leaves out blank lines only. *)
Lemma keep_nonblank (paras kept : list pystr) :
  filter nonblank (keep paras kept)
  = filter nonblank kept ++ filter nonblank (kept_lines paras).
Proof.
  revert kept; induction paras as [|p paras IH]; intros kept.
  - simpl. now rewrite app_nil_r.
  - cbn [keep]. unfold kept_lines. cbn [filter]. fold (dropped (strip p)).
    destruct (dropped (strip p)) eqn:Hd; cbn [negb]; [apply IH|].
    cbn [map filter]. fold (kept_lines paras).
    destruct (blank (strip p) && ends_blank kept) eqn:Hb.
    + apply andb_true_iff in Hb as [Hb _].
      unfold nonblank at 3. rewrite blank_tabs, Hb. cbn [negb]. apply IH.
    + rewrite IH, filter_app, <- app_assoc. cbn [filter].
      now destruct (nonblank (map tab_to_space (strip p))).
Qed.

Lemma squeeze_keep (paras : list pystr) :
  squeeze (keep paras []) = squeeze (kept_lines paras).
Proof.
  induction paras as [|p paras IH]; [reflexivity|].
  cbn [keep]. unfold kept_lines. cbn [filter]. fold (dropped (strip p)).
  destruct (dropped (strip p)) eqn:Hd; cbn [negb]; [exact IH|].
  cbn [map]. fold (kept_lines paras). rewrite andb_false_r. cbn [app].
  destruct (keep_extends paras [map tab_to_space (strip p)]) as [more Hmore].
  pose proof (keep_nonblank paras [map tab_to_space (strip p)]) as Hf.
  rewrite Hmore in *. cbn [app squeeze]. f_equal.
  change ([map tab_to_space (strip p)] ++ more)
    with ([map tab_to_space (strip p)] ++ more) in Hf.
  rewrite filter_app in Hf. now apply app_inv_head in Hf.
Qed.
End NormalFormFacts.

Module NormalFormTheorems.
Import Text Normalizer Notions NormNotions NormalFormNotions Examples MoreExamples.
Import TextFacts StripFacts PatternFacts LoopFacts CollapseFacts NormalFormFacts.

(** X1.  What [read_word_doc] returns, in full: the paragraphs that are
    neither headings nor lines of dots, trimmed, tabs turned into spaces,
    without the blank ones except a first one, each followed by a line
    terminator. *)
Theorem clean_text_is_kept_lines (paras : list pystr) :
  Forall (fun p => ~ In NL p) paras ->
  clean_text paras = terminated (squeeze (kept_lines paras)).
Proof.
  intros H. rewrite (clean_text_kept H). now rewrite squeeze_keep.
Qed.

Lemma tabs_fixed_no_tab (t : pystr) : map tab_to_space t = t -> ~ In TAB t.
Proof.
  induction t as [|c t IH]; simpl; [tauto|]. intros H [Hc|Hin].
  - subst c. discriminate.
  - injection H as _ H. now apply IH.
Qed.

(** X2.  The lines of the returned text: none is a heading or has four
    dots in a row, none starts or ends with white space or holds a tab,
    and only the first line can be empty. *)
Theorem clean_text_lines (paras : list pystr) :
  Forall (fun p => ~ In NL p) paras ->
  Forall (fun l => page_num_match l = false /\ dots_search l = false
                   /\ strip l = l /\ ~ In TAB l)
         (splitlines (clean_text paras))
  /\ Forall (fun l => l <> []) (tl (splitlines (clean_text paras))).
Proof.
  intros H. rewrite (clean_text_kept H).
  destruct (keep_invariant (kept := []) H (Forall_nil _) eq_refl) as [Hs _].
  rewrite splitlines_terminated by (apply Forall_squeeze; now apply settled_nl_free).
  split.
  - apply Forall_squeeze. eapply Forall_impl; [|exact Hs].
    intros l (Hstrip & Hd & Htab & _). unfold dropped in Hd.
    apply orb_false_iff in Hd as [Hp Hdots].
    repeat split; try assumption. now apply tabs_fixed_no_tab.
  - destruct (keep paras []) as [|t r]; [constructor|]. cbn [squeeze tl].
    apply Forall_forall. intros l Hl. apply filter_In in Hl as [_ Hl].
    now destruct l.
Qed.

Lemma In_replace_from (c : char) (old new : pystr) (s : pystr) :
  forall k, In c (replace_from old new k s) -> In c new \/ In c s.
Proof.
  induction s as [|a s IH]; intros k H; [destruct H|]. cbn [replace_from] in H.
  destruct k as [|k].
  - destruct (startswith old (a :: s)).
    + apply in_app_or in H as [H|H]; [now left|].
      apply IH in H as [H|H]; [now left | right; now right].
    + destruct H as [->|H]; [right; now left|].
      apply IH in H as [H|H]; [now left | right; now right].
  - apply IH in H as [H|H]; [now left | right; now right].
Qed.

Lemma paragraphs_loop_no_tab (paras : list pystr) :
  forall acc, Forall (fun e => ~ In TAB e) acc ->
  Forall (fun e => ~ In TAB e) (paragraphs_loop paras acc).
Proof.
  induction paras as [|p paras IH]; intros acc H; [exact H|]. cbn [paragraphs_loop].
  destruct (page_num_match (strip p) || dots_search (strip p)); [now apply IH|].
  destruct (str_eqb (strip p) [] && ends_with_blank acc); [now apply IH|].
  apply IH. apply Forall_app. split; [exact H|]. constructor; [|constructor].
  rewrite replace_tab. intros Hin. apply in_app_or in Hin as [Hin|[Hin|[]]]; [|discriminate].
  apply in_map_iff in Hin as (c & Hc & _). unfold tab_to_space in Hc.
  destruct (char_eqb c TAB) eqn:E; [discriminate|]. subst c. now rewrite char_eqb_refl in E.
Qed.

(** X3.  Whatever the paragraphs are, the returned text holds no tab. *)
Theorem clean_text_has_no_tab (paras : list pystr) :
  Forall (fun c => c <> TAB) (clean_text paras).
Proof.
  apply Forall_forall. intros c H ->.
  unfold clean_text, replace, join in H.
  apply In_replace_from in H as [[H|[]]|H]; [discriminate|].
  apply in_concat in H as (e & He & Hin).
  pose proof (paragraphs_loop_no_tab paras (Forall_nil _)) as Hall.
  exact (proj1 (Forall_forall _ _) Hall e He Hin).
Qed.
End NormalFormTheorems.

(** * Further properties: the answer of the service *)

Module SearchFacts.
Import Text Values World Program Notions RowNotions TextFacts RowFacts RowClaims.

Lemma firstn_skipn_middle (A : Type) (s : list A) (i : nat) :
  s = firstn i s ++ skipn i s.
Proof. now rewrite firstn_skipn. Qed.

Lemma occurs_at_split (pat s : pystr) (i : nat) :
  occurs_at pat s i -> s = firstn i s ++ pat ++ skipn (i + length pat) s.
Proof.
  intros (pre & post & -> & <-).
  rewrite firstn_prefix, <- length_app, app_assoc, skipn_prefix. now rewrite <- app_assoc.
Qed.

(** What the search returns is a fenced block of the answer. *)
Lemma search_fence_sound (answer body : pystr) :
  search_fence answer = Some body -> first_fenced_block answer body.
Proof.
  unfold search_fence. intros H.
  destruct (find fence_open answer) as [i|] eqn:Ho; [|discriminate].
  destruct (find fence_close (skipn (i + length fence_open) answer)) as [j|] eqn:Hc;
    [|discriminate].
  injection H as <-.
  apply find_first_at in Ho. apply find_first_at in Hc.
  pose proof (occurs_at_split (proj1 Ho)) as E1.
  pose proof (occurs_at_split (proj1 Hc)) as E2.
  set (behind := skipn (i + length fence_open) answer) in *.
  assert (length (firstn i answer) = i) as Hi.
  { destruct Ho as [(pre & post & E & Hlen) _]. rewrite E, <- Hlen. now rewrite firstn_prefix. }
  assert (length (firstn j behind) = j) as Hj.
  { destruct Hc as [(pre & post & E & Hlen) _]. rewrite E, <- Hlen. now rewrite firstn_prefix. }
  exists (firstn i answer), (skipn (j + length fence_close) behind).
  change (skipn (i + 7) answer) with behind.
  rewrite <- E2. split; [exact E1|]. rewrite Hi, Hj. now split.
Qed.

Lemma occurs_at_skipn (pat s : pystr) (n k : nat) :
  occurs_at pat s n -> k <= n -> occurs_at pat (skipn k s) (n - k).
Proof.
  intros (pre & post & -> & <-) Hk.
  exists (skipn k pre), post. split.
  - rewrite skipn_app. replace (k - length pre) with 0 by lia. reflexivity.
  - now rewrite length_skipn.
Qed.

(** Where there is a fenced block, the search finds one. *)
Lemma search_fence_complete (answer body : pystr) :
  fenced_block answer body -> exists found, search_fence answer = Some found.
Proof.
  intros (pre & post & E). unfold search_fence.
  assert (occurs_at fence_open answer (length pre)) as Hopen by now exists pre, (body ++ fence_close ++ post).
  destruct (find fence_open answer) as [i|] eqn:Ho.
  2: { exfalso. apply (find_None_inv Ho Hopen). }
  apply find_first_at in Ho as [_ Hmin]. apply Hmin in Hopen as Hle.
  assert (occurs_at fence_close answer (length pre + length fence_open + length body)) as Hclose.
  { exists (pre ++ fence_open ++ body), post. split.
    - rewrite E. now rewrite <- !app_assoc.
    - rewrite !length_app. lia. }
  apply occurs_at_skipn with (k := i + length fence_open) in Hclose; [|lia].
  destruct (find fence_close (skipn (i + length fence_open) answer)) as [j|] eqn:Hc.
  - eexists. reflexivity.
  - exfalso. apply (find_None_inv Hc Hclose).
Qed.

Lemma search_fence_none (answer : pystr) :
  search_fence answer = None <-> forall body, ~ fenced_block answer body.
Proof.
  split.
  - intros H body Hb. apply search_fence_complete in Hb as [found Hf]. congruence.
  - intros H. destruct (search_fence answer) as [body|] eqn:E; [|reflexivity].
    exfalso. apply (H body). apply search_fence_sound in E as (pre & post & E & _).
    now exists pre, post.
Qed.
End SearchFacts.

Module ResponseTheorems.
Import Text Values World Program Notions RowNotions ResponseNotions Examples.
Import TextFacts RowFacts RowClaims SearchFacts ExampleFacts.

(** X4.  An answer without any fenced block makes the row a failure
    whose error says that no JSON was found. *)
Theorem no_block_is_failure
        (w : world) (row : Series) (fc url auth : pystr) (t : list event)
        (q : pystr) (j : pyval) (answer : pystr) :
  build_query row = inr q ->
  reply_to w t (build_request q fc url auth) = inr j ->
  answer_field j = inr (PStr answer) ->
  (forall body, ~ fenced_block answer body) ->
  fst (process_excel_row w row fc url auth t) =
  [(K_summary, PStr FAILED); (K_clause_id, PStr FAILED);
   (K_clause_text, PStr FAILED); (K_error, PStr msg_no_json)].
Proof.
  intros Hq Hj Ha Hno. rewrite (@row_outcome _ _ _ _ _ _ _ _ Hq Hj).
  unfold extract. rewrite Ha. apply search_fence_none in Hno. now rewrite Hno.
Qed.

(** X5.  The search of line 137 finds a block exactly when the answer
    holds one, and what it finds is the first block. *)
Theorem search_finds_the_first_block (answer : pystr) :
  ((exists body, fenced_block answer body)
   <-> (exists found, search_fence answer = Some found))
  /\ forall found, search_fence answer = Some found -> first_fenced_block answer found.
Proof.
  split; [split|].
  - intros [body H]. now apply search_fence_complete in H.
  - intros [found H]. exists found.
    apply search_fence_sound in H as (pre & post & E & _). now exists pre, post.
  - intros found. apply search_fence_sound.
Qed.

(** X6.  A response that is an object but lacks [data], [outputs] or
    [Answer] makes the row a failure whose error is the missing key. *)
Theorem missing_response_key_is_failure
        (w : world) (row : Series) (fc url auth : pystr) (t : list event)
        (q : pystr) (j : pyval) (k : pystr) :
  build_query row = inr q ->
  reply_to w t (build_request q fc url auth) = inr j ->
  response_lacks j k ->
  fst (process_excel_row w row fc url auth t) =
  [(K_summary, PStr FAILED); (K_clause_id, PStr FAILED);
   (K_clause_text, PStr FAILED); (K_error, PStr (utf8 "'" ++ k ++ utf8 "'"))].
Proof.
  intros Hq Hj Hk. rewrite (@row_outcome _ _ _ _ _ _ _ _ Hq Hj).
  unfold extract, answer_field, subscript.
  destruct Hk as [(d & -> & H0 & ->) | [(d & d1 & -> & H0 & H1 & ->)
                                       | (d & d1 & d2 & -> & H0 & H1 & H2 & ->)]].
  - now rewrite H0.
  - rewrite H0. now rewrite H1.
  - rewrite H0, H1. now rewrite H2.
Qed.

Lemma series_get_in (row : Series) (k : pystr) :
  length (labels row) = length (cells row) -> In k (labels row) ->
  exists v, series_get row k = inr v.
Proof.
  intros Hlen Hin. unfold series_get.
  destruct (@TableRunFacts.dict_lookup_combine k (labels row) Hin (cells row) (eq_sym Hlen))
    as [v ->]. now exists v.
Qed.

Lemma series_get_out (row : Series) (k : pystr) :
  ~ In k (labels row) -> series_get row k = inl (KeyError k).
Proof.
  intros H. unfold series_get. now rewrite TableRunFacts.dict_lookup_combine_absent.
Qed.

Lemma In_labels_dec (row : Series) (k : pystr) :
  {In k (labels row)} + {~ In k (labels row)}.
Proof. apply in_dec, list_eq_dec, N.eq_dec. Qed.

(** X7.  A row that lacks one of the three fields is a failure naming a
    missing field, and no request is sent for it. *)
Theorem missing_field_sends_nothing
        (w : world) (row : Series) (fc url auth : pystr) (t : list event) :
  length (labels row) = length (cells row) ->
  (exists k, In k clause_keys /\ ~ In k (labels row)) ->
  posts (snd (process_excel_row w row fc url auth t)) = posts t
  /\ exists k, In k clause_keys /\ ~ In k (labels row)
               /\ fst (process_excel_row w row fc url auth t) =
                  [(K_summary, PStr FAILED); (K_clause_id, PStr FAILED);
                   (K_clause_text, PStr FAILED);
                   (K_error, PStr (utf8 "'" ++ k ++ utf8 "'"))].
Proof.
  intros Hlen (k0 & Hk0 & Hmiss).
  assert (exists k, In k clause_keys /\ ~ In k (labels row)
                    /\ build_query row = inl (KeyError k)) as (k & Hk & Hno & Hq).
  { unfold build_query.
    destruct (In_labels_dec row K_category) as [H1|H1].
    2: { exists K_category. rewrite (@series_get_out row K_category H1). simpl. tauto. }
    destruct (@series_get_in row K_category Hlen H1) as [v1 ->].
    destruct (In_labels_dec row K_content) as [H2|H2].
    2: { exists K_content. rewrite (@series_get_out row K_content H2). simpl. tauto. }
    destruct (@series_get_in row K_content Hlen H2) as [v2 ->].
    destruct (In_labels_dec row K_instructions) as [H3|H3].
    2: { exists K_instructions. rewrite (@series_get_out row K_instructions H3). simpl. tauto. }
    exfalso. destruct Hk0 as [<-|[<-|[<-|[]]]]; tauto. }
  rewrite process_excel_row_steps, try_row_steps, Hq. cbn [fst snd].
  split.
  - rewrite posts_app. simpl. now rewrite app_nil_r.
  - exists k. repeat split; assumption.
Qed.
End ResponseTheorems.

(** * Further properties: the run over tables and documents *)



Module MainFacts.
Import Text Values World Program Notions RowNotions TableNotions RunNotions MainNotions.
Import TextFacts RowFacts RowClaims TableFacts LoopRunFacts TableRunFacts RunFacts CellFacts.

Lemma documents_loop_posts (w : world) (cfg : Config) :
  forall paths t,
    posts (snd (documents_loop w cfg paths t))
    = posts t ++ flat_map (fun p => table_requests w cfg (document_text w p))
                          (filter (processable w) paths).
Proof.
  induction paths as [|wp paths IH]; intros t.
  - simpl. now rewrite app_nil_r.
  - cbn [documents_loop filter]. unfold processable at 1.
    destruct (path_exists w wp); cbn [negb andb].
    + unfold bind, read_word_doc. destruct (Document w wp) as [e|paras] eqn:Hd.
      * unfold bind, emit, ret. cbv beta iota. rewrite IH, posts_app. simpl.
        now rewrite app_nil_r.
      * unfold ret. cbv beta iota.
        destruct (Normalizer.clean_text paras) as [|c text] eqn:Hc; [apply IH|].
        destruct (process_table w cfg wp (c :: text) t) as [[] t1] eqn:Hp.
        rewrite IH.
        pose proof (process_table_posts w cfg wp (c :: text) t) as H.
        rewrite Hp in H. cbn [snd] in H. rewrite H. cbn [flat_map].
        assert (document_text w wp = c :: text) as ->
            by (unfold document_text; now rewrite Hd).
        unfold table_requests at 2. now rewrite <- app_assoc.
    + unfold bind, emit. cbv beta iota. rewrite IH, posts_app. simpl.
      now rewrite app_nil_r.
Qed.

Lemma row_requests_length (cfg : Config) (fc : pystr) (its : list (nat * Series)) :
  length (flat_map (fun p => row_requests cfg fc (snd p)) (rows_reached its))
  <= length its.
Proof.
  induction its as [|p its IH]; simpl; [lia|].
  destruct (content_readable p); simpl; [|lia].
  rewrite length_app. unfold row_requests at 1.
  destruct (build_query (snd p)); simpl; lia.
Qed.

Lemma row_requests_shape (cfg : Config) (fc : pystr) (its : list (nat * Series))
      (r : Request) :
  In r (flat_map (fun p => row_requests cfg fc (snd p)) its) ->
  exists row q, In row (map snd its) /\ build_query row = inr q
                /\ r = build_request q fc (api_url cfg) (api_auth cfg).
Proof.
  intros H. apply in_flat_map in H as ([i row] & Hin & Hr). cbn [snd] in Hr.
  unfold row_requests in Hr. destruct (build_query row) as [e|q] eqn:Hq; [destruct Hr|].
  destruct Hr as [<-|[]]. exists row, q. split; [|split; [exact Hq | reflexivity]].
  apply in_map_iff. now exists (i, row).
Qed.

Lemma iterrows_length (df : DataFrame) : length (iterrows df) = length (rows df).
Proof.
  unfold iterrows. rewrite length_combine, length_seq, length_map. lia.
Qed.
End MainFacts.

Module RunTheorems.
Import Text Values World Program Notions RowNotions TableNotions RunNotions MainNotions.
Import TextFacts RowFacts RowClaims TableFacts LoopRunFacts TableRunFacts.
Import RunFacts CellFacts MainFacts.
Import ShapeNotions ShapeFacts RecordFacts.

(** X8.  A reply with a status from 400 to 599 makes the row a failure
    with the text of [raise_for_status], which names the url of the
    response (not the configured one); its body is never decoded, not
    even when it holds a valid answer. *)
Theorem http_error_is_failure
        (w : world) (row : Series) (fc url auth : pystr) (t : list event)
        (q : pystr) (status : nat) (reason response_url body : pystr) :
  build_query row = inr q ->
  server w (length (posts t)) (build_request q fc url auth)
  = Responds status reason response_url body ->
  400 <= status -> status < 600 ->
  fst (process_excel_row w row fc url auth t) =
  [(K_summary, PStr FAILED); (K_clause_id, PStr FAILED); (K_clause_text, PStr FAILED);
   (K_error, PStr (decimal (N.of_nat status)
                     ++ (if status <? 500 then utf8 " Client Error: "
                         else utf8 " Server Error: ")
                     ++ reason ++ utf8 " for url: " ++ response_url))].
Proof.
  intros Hq Hs Hlo Hhi. rewrite process_excel_row_steps, try_row_steps, Hq. cbn zeta.
  unfold reply_to, decode_reply. rewrite Hs.
  assert ((400 <=? status) && (status <? 600) = true) as ->.
  { apply andb_true_iff. split; [now apply Nat.leb_le | now apply Nat.ltb_lt]. }
  reflexivity.
Qed.

(** X9.  A row that fails logs one ERROR line, with the same text as
    its error cell; a row that succeeds logs nothing. *)
Theorem row_log_matches_record
        (w : world) (row : Series) (fc url auth : pystr) (t : list event) :
  (exists e,
      fst (process_excel_row w row fc url auth t) = failure_record e
      /\ logs (snd (process_excel_row w row fc url auth t))
         = logs t ++ [Log ERROR (row_failed ++ exn_str e) []])
  \/ (exists a b c,
         fst (process_excel_row w row fc url auth t) = success_record a b c
         /\ logs (snd (process_excel_row w row fc url auth t)) = logs t).
Proof.
  rewrite process_excel_row_steps, try_row_steps.
  destruct (build_query row) as [e|q].
  - left. exists e. split; [reflexivity|]. cbn [snd]. now rewrite logs_app.
  - cbn zeta. destruct (reply_to _ _ _) as [e|j]; [|destruct (extract j) as [e|o] eqn:Ho].
    + left. exists e. split; [reflexivity|]. cbn [snd]. now rewrite !logs_app, app_nil_r.
    + left. exists e. split; [reflexivity|]. cbn [snd]. now rewrite !logs_app, app_nil_r.
    + right. apply extract_inv in Ho as (_ & _ & d & _ & _ & _ & ->).
      do 3 eexists. split; [reflexivity|]. cbn [snd]. now rewrite logs_app, app_nil_r.
Qed.

(** X10.  The requests of one pass over the spreadsheet do not depend
    on what the service answers: one for each row whose three cells can
    be read, in the order of the rows, up to the first row without the
    content cell; so never more than one per row, and none is sent
    again. *)
Theorem requests_follow_the_rows
        (w : world) (cfg : Config) (wp : Path) (fc : pystr) (t : list event) :
  posts (snd (process_table w cfg wp fc t)) = posts t ++ table_requests w cfg fc
  /\ length (table_requests w cfg fc)
     <= match read_excel w (excel_path cfg) with
        | inr df => length (rows df)
        | inl _ => 0
        end
  /\ Forall (fun r => req_url r = api_url cfg /\ req_timeout r = 600
                      /\ exists q, req_json r = expected_body q fc)
            (table_requests w cfg fc).
Proof.
  split; [apply process_table_posts | split].
  - unfold table_requests. destruct (read_excel w (excel_path cfg)) as [e|df]; [simpl; lia|].
    rewrite <- iterrows_length. apply row_requests_length.
  - unfold table_requests. destruct (read_excel w (excel_path cfg)) as [e|df]; [constructor|].
    apply Forall_forall. intros r Hr.
    apply row_requests_shape in Hr as (row & q & _ & _ & ->).
    repeat split. now exists q.
Qed.

(** X11.  In the table written, row [i] is the input row followed by
    the four values of the record that [process_excel_row] returns for
    that very row once the requests sent are those sent before the table
    was begun followed by those of the rows in front of it (what it
    returns depends on the trace through these requests only). *)
Theorem output_rows_carry_outcomes
        (w : world) (cfg : Config) (wp : Path) (fc : pystr) (t : list event)
        (df : DataFrame) :
  read_excel w (excel_path cfg) = inr df ->
  well_formed df ->
  (forall c, In c output_columns -> ~ In c (columns df)) ->
  In K_content (columns df) ->
  exists news,
    written (snd (process_table w cfg wp fc t))
    = written t ++ [(output_path wp,
                     {| columns := columns df ++ output_columns; rows := news |})]
    /\ length news = length (rows df)
    /\ forall i r ti,
        nth_error (rows df) i = Some r ->
        posts ti = posts t ++ requests_before cfg fc df i ->
        nth_error news i
        = Some (r ++ record_cells
                  (fst (process_excel_row w (as_series df r) fc
                          (api_url cfg) (api_auth cfg) ti))).
Proof.
  intros Hread Hwf Hnew Hin.
  destruct (@process_table_records w cfg wp fc t df Hread Hwf Hnew Hin)
    as (news & Hw & Hlen & Hrows).
  exists news. split; [exact Hw | split; [exact Hlen|]].
  intros i r ti Hr Hti. apply Hrows; [exact Hr|]. now rewrite Hti, length_app.
Qed.

(** X12.  A table with rows but without the column [条款/内容]: the
    first progress message raises, the handler of [main] logs it, and
    that is all; no request is sent and no file is written. *)
Theorem missing_content_column_ends_the_table
        (w : world) (cfg : Config) (wp : Path) (fc : pystr) (t : list event)
        (df : DataFrame) :
  read_excel w (excel_path cfg) = inr df ->
  ~ In K_content (columns df) -> rows df <> [] ->
  process_table w cfg wp fc t
  = (tt, t ++ [Log ERROR (excel_failed ++ utf8 "'" ++ K_content ++ utf8 "'") []]).
Proof.
  intros Hread Hno Hrows. unfold process_table. rewrite Hread. unfold bind.
  now rewrite rows_loop_missing_content.
Qed.

(** X13.  A table with the column [条款/内容] but without the column
    [条款类别]: every row is recorded as a failure naming the missing
    column, the table is written, and no request is sent. *)
Theorem missing_category_column_fails_every_row
        (w : world) (cfg : Config) (wp : Path) (fc : pystr) (t : list event)
        (df : DataFrame) :
  read_excel w (excel_path cfg) = inr df ->
  well_formed df ->
  (forall c, In c output_columns -> ~ In c (columns df)) ->
  In K_content (columns df) ->
  ~ In K_category (columns df) ->
  posts (snd (process_table w cfg wp fc t)) = posts t
  /\ written (snd (process_table w cfg wp fc t))
     = written t
       ++ [(output_path wp,
            {| columns := columns df ++ output_columns;
               rows := map (fun r => r ++ [PStr FAILED; PStr FAILED; PStr FAILED;
                                           PStr (utf8 "'" ++ K_category ++ utf8 "'")])
                           (rows df) |})].
Proof.
  intros Hread Hwf Hnew Hin Hno. split.
  - rewrite process_table_posts, Hread, flat_map_nil; [now rewrite app_nil_r|].
    apply Forall_forall. intros p Hp. apply rows_reached_In, iterrows_rows in Hp
      as (r & _ & ->).
    unfold row_requests.
    now rewrite (proj1 (@missing_category_outcome
                          w {| labels := columns df; cells := r |} fc [] [] t Hno)).
  - destruct (@process_table_cells w cfg wp fc t df Hread Hwf Hnew Hin)
      as (news & -> & Hnews).
    do 4 f_equal. apply Forall2_map_eq. eapply Forall2_impl; [|exact Hnews].
    intros r r' [ti ->]. f_equal.
    now rewrite (proj2 (@missing_category_outcome w (as_series df r) fc (api_url cfg)
                          (api_auth cfg) ti Hno)).
Qed.

(** X14.  The files [main] writes: when the spreadsheet can be read and
    all its rows have the content cell, one for each configured document
    that exists, can be read and has text, named after the document, in
    the order of the configuration; otherwise none. *)
Theorem main_writes_one_file_per_document (w : world) (cfg : Config) (t : list event) :
  map fst (written (snd (main w cfg t)))
  = map fst (written t)
    ++ (if table_complete w cfg
        then map output_path (filter (processable w) (word_paths cfg)) else []).
Proof. apply documents_loop_written. Qed.

(** X15.  The requests [main] sends: for each configured document that
    exists, can be read and has text, those of one pass over the
    spreadsheet, carrying the normalized text of that document; nothing
    is sent for any other document. *)
Theorem main_requests_per_document (w : world) (cfg : Config) (t : list event) :
  posts (snd (main w cfg t))
  = posts t ++ flat_map (fun p => table_requests w cfg (document_text w p))
                        (filter (processable w) (word_paths cfg)).
Proof. apply documents_loop_posts. Qed.
End RunTheorems.

(** * The further properties at the sample inputs *)

Module RunExampleFacts.
Import Text Values World Program Normalizer Notions RowNotions TableNotions.
Import NormNotions NormalFormNotions ResponseNotions RunNotions MainNotions.
Import Examples TableExamples MoreExamples RunExamples.
Import TextFacts RowFacts RowClaims SearchFacts ExampleFacts.

Ltac distinct :=
  simpl; intros H; repeat (destruct H as [H|H]; [discriminate|]); exact H.

Lemma reply_plain :
  reply_to (answering answer_without_block) [] clause_request
  = inr (decoded answer_without_block).
Proof. evaluate. Qed.
Lemma field_plain :
  answer_field (decoded answer_without_block) = inr (PStr answer_without_block).
Proof. evaluate. Qed.
Lemma plain_has_no_block (body : pystr) : ~ fenced_block answer_without_block body.
Proof. revert body. apply search_fence_none. evaluate. Qed.

Lemma reply_terse :
  reply_to terse [] clause_request = inr (PDict [(utf8 "data", PDict [])]).
Proof. evaluate. Qed.
Lemma terse_lacks_outputs :
  response_lacks (PDict [(utf8 "data", PDict [])]) (utf8 "outputs").
Proof. right. left. exists [(utf8 "data", PDict [])], []. repeat split. Qed.

Lemma category_is_missing :
  exists k, In k clause_keys /\ ~ In k (labels row_without_category).
Proof. exists K_category. split; [now left | distinct]. Qed.

Lemma unavailable_low : 400 <= 503.
Proof. lia. Qed.
Lemma unavailable_high : 503 < 600.
Proof. lia. Qed.

Lemma plain_table_has_content : In K_content (columns plain_table).
Proof. simpl. tauto. Qed.

Lemma no_content_column : ~ In K_content (columns table_without_content).
Proof. distinct. Qed.
Lemma some_rows : rows table_without_content <> [].
Proof. discriminate. Qed.

Lemma no_category_well_formed : well_formed table_without_category.
Proof.
  split; [|repeat constructor]. repeat constructor; distinct.
Qed.
Lemma no_category_fresh (c : pystr) :
  In c output_columns -> ~ In c (columns table_without_category).
Proof.
  simpl. intros H H'.
  repeat (destruct H as [H|H];
          [subst c; repeat (destruct H' as [H'|H']; [discriminate|]); exact H'|]).
  exact H.
Qed.
Lemma no_category_has_content : In K_content (columns table_without_category).
Proof. simpl. tauto. Qed.
Lemma no_category_column : ~ In K_category (columns table_without_category).
Proof. distinct. Qed.
End RunExampleFacts.

Module RunWitnesses.
Import Text Values World Program Normalizer Notions RowNotions TableNotions.
Import NormNotions NormalFormNotions ResponseNotions RunNotions MainNotions ShapeNotions.
Import Examples TableExamples MoreExamples RunExamples.
Import ExampleFacts RunExampleFacts.
Import NormalFormTheorems ResponseTheorems RunTheorems.

Lemma clean_text_is_kept_lines_witness :
  clean_text sample_paragraphs = terminated (squeeze (kept_lines sample_paragraphs)).
Proof.
  exact (@clean_text_is_kept_lines sample_paragraphs Witnesses.sample_has_no_terminator).
Defined.

Lemma clean_text_lines_witness :
  Forall (fun l => page_num_match l = false /\ dots_search l = false
                   /\ strip l = l /\ ~ In TAB l)
         (splitlines (clean_text sample_paragraphs))
  /\ Forall (fun l => l <> []) (tl (splitlines (clean_text sample_paragraphs))).
Proof.
  exact (@clean_text_lines sample_paragraphs Witnesses.sample_has_no_terminator).
Defined.

Lemma no_block_is_failure_witness :
  fst (process_excel_row (answering answer_without_block) clause_row doc_text url auth [])
  = [(K_summary, PStr FAILED); (K_clause_id, PStr FAILED);
     (K_clause_text, PStr FAILED); (K_error, PStr msg_no_json)].
Proof.
  exact (@no_block_is_failure (answering answer_without_block) clause_row doc_text url
           auth [] (query_of clause_row) (decoded answer_without_block)
           answer_without_block clause_row_query reply_plain field_plain
           plain_has_no_block).
Defined.

Lemma missing_response_key_is_failure_witness :
  fst (process_excel_row terse clause_row doc_text url auth [])
  = [(K_summary, PStr FAILED); (K_clause_id, PStr FAILED);
     (K_clause_text, PStr FAILED);
     (K_error, PStr (utf8 "'" ++ utf8 "outputs" ++ utf8 "'"))].
Proof.
  exact (@missing_response_key_is_failure terse clause_row doc_text url auth []
           (query_of clause_row) (PDict [(utf8 "data", PDict [])]) (utf8 "outputs")
           clause_row_query reply_terse terse_lacks_outputs).
Defined.

Lemma missing_field_sends_nothing_witness :
  posts (snd (process_excel_row terse row_without_category doc_text url auth []))
  = posts []
  /\ exists k, In k clause_keys /\ ~ In k (labels row_without_category)
               /\ fst (process_excel_row terse row_without_category doc_text url auth [])
                  = [(K_summary, PStr FAILED); (K_clause_id, PStr FAILED);
                     (K_clause_text, PStr FAILED);
                     (K_error, PStr (utf8 "'" ++ k ++ utf8 "'"))].
Proof.
  exact (@missing_field_sends_nothing terse row_without_category doc_text url auth []
           eq_refl category_is_missing).
Defined.

Lemma http_error_is_failure_witness :
  fst (process_excel_row unavailable clause_row doc_text bare_url auth [])
  = [(K_summary, PStr FAILED); (K_clause_id, PStr FAILED); (K_clause_text, PStr FAILED);
     (K_error, PStr (decimal (N.of_nat 503)
                       ++ (if 503 <? 500 then utf8 " Client Error: "
                           else utf8 " Server Error: ")
                       ++ utf8 "Service Unavailable" ++ utf8 " for url: "
                       ++ (bare_url ++ utf8 "/")))].
Proof.
  exact (@http_error_is_failure unavailable clause_row doc_text bare_url auth []
           (query_of clause_row) 503 (utf8 "Service Unavailable")
           (bare_url ++ utf8 "/") (body_with answer_full)
           clause_row_query eq_refl unavailable_low unavailable_high).
Defined.

Lemma output_rows_carry_outcomes_witness :
  exists news,
    written (snd (process_table (office plain_table) config contract doc_text []))
    = written [] ++ [(output_path contract,
                      {| columns := columns plain_table ++ output_columns;
                         rows := news |})]
    /\ length news = length (rows plain_table)
    /\ forall i r ti,
        nth_error (rows plain_table) i = Some r ->
        posts ti = posts [] ++ requests_before config doc_text plain_table i ->
        nth_error news i
        = Some (r ++ record_cells
                  (fst (process_excel_row (office plain_table)
                          (as_series plain_table r) doc_text
                          (api_url config) (api_auth config) ti))).
Proof.
  exact (@output_rows_carry_outcomes (office plain_table) config contract doc_text []
           plain_table eq_refl Witnesses.plain_table_well_formed
           Witnesses.plain_table_has_no_output_column plain_table_has_content).
Defined.

Lemma missing_content_column_ends_the_table_witness :
  process_table (office table_without_content) config contract doc_text []
  = (tt, [] ++ [Log ERROR (excel_failed ++ utf8 "'" ++ K_content ++ utf8 "'") []]).
Proof.
  exact (@missing_content_column_ends_the_table (office table_without_content) config
           contract doc_text [] table_without_content eq_refl no_content_column
           some_rows).
Defined.

Lemma missing_category_column_fails_every_row_witness :
  posts (snd (process_table (office table_without_category) config contract doc_text []))
  = posts []
  /\ written (snd (process_table (office table_without_category) config contract
                                 doc_text []))
     = written []
       ++ [(output_path contract,
            {| columns := columns table_without_category ++ output_columns;
               rows := map (fun r => r ++ [PStr FAILED; PStr FAILED; PStr FAILED;
                                           PStr (utf8 "'" ++ K_category ++ utf8 "'")])
                           (rows table_without_category) |})].
Proof.
  exact (@missing_category_column_fails_every_row (office table_without_category) config
           contract doc_text [] table_without_category eq_refl no_category_well_formed
           no_category_fresh no_category_has_content no_category_column).
Defined.
End RunWitnesses.

(** * Further properties: documents that are passed over *)

Module SkipFacts.
Import Text Values World Program Normalizer Notions NormNotions RunNotions.
Import TextFacts StripFacts PatternFacts LoopFacts CollapseFacts RunFacts.

Lemma paragraphs_loop_grows (paras : list pystr) :
  forall acc, acc <> [] -> paragraphs_loop paras acc <> [].
Proof.
  induction paras as [|p paras IH]; intros acc H; [exact H|]. cbn [paragraphs_loop].
  destruct (page_num_match (strip p) || dots_search (strip p)); [now apply IH|].
  destruct (str_eqb (strip p) [] && ends_with_blank acc); [now apply IH|].
  apply IH. now destruct acc.
Qed.

Lemma paragraphs_loop_empty (paras : list pystr) :
  paragraphs_loop paras [] = [] -> Forall (fun p => dropped (strip p) = true) paras.
Proof.
  induction paras as [|p paras IH]; intros H; [constructor|].
  cbn [paragraphs_loop] in H. fold (dropped (strip p)) in H.
  destruct (dropped (strip p)) eqn:Hd; [constructor; auto|].
  rewrite andb_false_r in H. exfalso. revert H. now apply paragraphs_loop_grows.
Qed.

Lemma paragraphs_loop_dropped (paras : list pystr) (acc : list pystr) :
  Forall (fun p => dropped (strip p) = true) paras -> paragraphs_loop paras acc = acc.
Proof.
  induction 1 as [|p paras Hp _ IH]; [reflexivity|]. cbn [paragraphs_loop].
  fold (dropped (strip p)). now rewrite Hp.
Qed.

Lemma paragraphs_loop_nonempty (paras : list pystr) :
  forall acc, Forall (fun e => e <> []) acc ->
  Forall (fun e => e <> []) (paragraphs_loop paras acc).
Proof.
  induction paras as [|p paras IH]; intros acc H; [exact H|]. cbn [paragraphs_loop].
  destruct (page_num_match (strip p) || dots_search (strip p)); [now apply IH|].
  destruct (str_eqb (strip p) [] && ends_with_blank acc); [now apply IH|].
  apply IH. apply Forall_app. split; [exact H|]. constructor; [|constructor].
  now destruct (Text.replace [TAB] [SPACE] (strip p)).
Qed.

Lemma concat_empty (parts : list pystr) :
  Forall (fun e => e <> []) parts -> concat parts = [] -> parts = [].
Proof.
  destruct 1 as [|e parts He _]; [reflexivity|]. simpl. intros H.
  apply app_eq_nil in H as [H _]. contradiction.
Qed.

Lemma replace_from_empty (old new s : pystr) :
  new <> [] -> replace_from old new 0 s = [] -> s = [].
Proof.
  intros Hnew. destruct s as [|c s]; [reflexivity|]. cbn [replace_from].
  destruct (startswith old (c :: s)); [|discriminate].
  intros H. apply app_eq_nil in H as [H _]. contradiction.
Qed.

(** Blank paragraphs behind a first blank line add nothing. *)
Lemma paragraphs_loop_blank (paras : list pystr) :
  Forall (fun p => strip p = []) paras -> paragraphs_loop paras [[NL]] = [[NL]].
Proof.
  induction 1 as [|p paras Hp _ IH]; [reflexivity|]. cbn [paragraphs_loop].
  rewrite Hp. exact IH.
Qed.

Lemma documents_loop_missing (w : world) (cfg : Config) :
  forall paths t,
    Forall (fun p => path_exists w p = false) paths ->
    documents_loop w cfg paths t
    = (tt, t ++ map (fun p => Log ERROR (word_missing ++ path_str p) []) paths).
Proof.
  induction paths as [|p paths IH]; intros t H.
  - simpl. now rewrite app_nil_r.
  - apply Forall_cons_iff in H as [Hp H]. cbn [documents_loop]. rewrite Hp. cbn [negb].
    unfold bind, emit. cbv beta iota. rewrite (IH _ H). cbn [map].
    now rewrite <- app_assoc.
Qed.
End SkipFacts.

Module SkipTheorems.
Import Text Values World Program Normalizer Notions NormNotions RunNotions.
Import Examples TableExamples SkipExamples.
Import TextFacts StripFacts PatternFacts LoopFacts CollapseFacts RunFacts SkipFacts.

(** X16.  [read_word_doc] returns the empty text, so that [main] passes
    the document over, exactly when every paragraph is a heading or a
    line of dots; a document of blank paragraphs alone still gives a
    text, one line terminator, and is processed. *)
Theorem empty_text_iff_all_dropped (paras : list pystr) :
  (clean_text paras = []
   <-> Forall (fun p => page_num_match (strip p) || dots_search (strip p) = true) paras)
  /\ (paras <> [] -> Forall (fun p => strip p = []) paras -> clean_text paras = [NL]).
Proof.
  split; [split|].
  - intros H. apply paragraphs_loop_empty. unfold clean_text, replace, join in H.
    apply replace_from_empty in H; [|discriminate].
    apply concat_empty in H; [exact H|].
    apply paragraphs_loop_nonempty. constructor.
  - intros H. unfold clean_text. now rewrite paragraphs_loop_dropped.
  - intros Hne H. destruct H as [|p paras Hp H]; [contradiction|].
    unfold clean_text. cbn [paragraphs_loop]. rewrite Hp.
    cbn [page_num_match dots_search]. 
    change (paragraphs_loop paras ([] ++ [Text.replace [TAB] [SPACE] [] ++ [NL]]))
      with (paragraphs_loop paras [[NL]]).
    now rewrite paragraphs_loop_blank.
Qed.

(** X17.  When none of the configured documents exists, [main] logs one
    ERROR line for each, in their order, and does nothing else. *)
Theorem missing_documents_are_only_logged (w : world) (cfg : Config) (t : list event) :
  Forall (fun p => path_exists w p = false) (word_paths cfg) ->
  main w cfg t
  = (tt, t ++ map (fun p => Log ERROR (word_missing ++ path_str p) []) (word_paths cfg)).
Proof. apply documents_loop_missing. Qed.

(** X18.  The name of the result file is made of the directory and the
    stem of the document alone: two documents get the same result file
    exactly when they differ in nothing but their suffix. *)
Theorem output_path_ignores_the_suffix (p q : Path) :
  output_path p = output_path q <-> parent p = parent q /\ stem p = stem q.
Proof.
  unfold output_path. split.
  - intros H. injection H as Hp Hs. split; [exact Hp|]. now apply app_inv_tail in Hs.
  - intros [-> ->]. reflexivity.
Qed.

Lemma vacant_has_no_document :
  Forall (fun p => path_exists vacant p = false) (word_paths config).
Proof. repeat constructor. Qed.

Lemma missing_documents_are_only_logged_witness :
  main vacant config []
  = (tt, [] ++ map (fun p => Log ERROR (word_missing ++ path_str p) [])
                   (word_paths config)).
Proof.
  exact (@missing_documents_are_only_logged vacant config [] vacant_has_no_document).
Defined.
End SkipTheorems.
